(** * mcp-tester: transport detection, connection lifecycle, test execution
      and reporting

    A shallow embedding of the JavaScript sources

      - [lib/auto-detect-transport.js]               (module [Detect])
      - the v2 framework, [MCPTestFrameworkAdvanced] with retry logic,
        custom error classes and metrics             (module [Advanced])
      - the earlier [mcp-test-framework-advanced.js] (module [Legacy])

    followed by the specification-side definitions (module [Spec]), example
    data, and the properties the specification states about the code.

    Conventions of the embedding.
      - JavaScript strings are [string]s of 8-bit characters; [toLowerCase]
        acts on the ASCII letters.
      - JavaScript numbers that the code only counts with or compares are
        integers ([Z] or [nat]); the few floating point quotients the code
        computes for display are kept symbolic.
      - A thrown value is an [Error] object: a record with a name, a message
        and the optional [code] and [details] the custom error classes add.
      - An awaited call is described by the way it settles: it resolves with
        a value after some milliseconds, rejects with an error after some
        milliseconds, or never settles.  Time is a logical clock carried in
        the state. *)

From Stdlib Require Import ZArith Lia Ascii String Sorted.
From stdpp Require Import base option list strings gmap pretty.

Set Warnings "-register-all".

Local Open Scope string_scope.
Local Open Scope Z_scope.

(** ** JavaScript strings *)

Module Js.

(** [hay.includes(needle)] *)
Fixpoint includes (hay needle : string) : bool :=
  String.prefix needle hay ||
  match hay with
  | EmptyString => false
  | String _ rest => includes rest needle
  end.

Definition lower_ascii (c : ascii) : ascii :=
  let n := nat_of_ascii c in
  if ((65 <=? n) && (n <=? 90))%nat then ascii_of_nat (n + 32) else c.

(** [s.toLowerCase()] on ASCII text *)
Fixpoint toLowerCase (s : string) : string :=
  match s with
  | EmptyString => EmptyString
  | String c rest => String (lower_ascii c) (toLowerCase rest)
  end.

(** Truthiness of a string value that may be [undefined]. *)
Definition truthy_str (o : option string) : bool :=
  match o with
  | Some s => negb (String.eqb s "")
  | None => false
  end.

(** The text a template literal produces for a string that may be
    [undefined]. *)
Definition show_opt (o : option string) : string :=
  match o with
  | Some s => s
  | None => "undefined"
  end.

(** Decimal text of an integer, as a template literal prints it. *)
Definition show_Z (n : Z) : string := pretty n.

(** [ls.join(sep)] *)
Definition join (sep : string) (ls : list string) : string :=
  String.concat sep ls.

(** The property names an ordinary object inherits from
    [Object.prototype]: what [key in obj] finds, and [obj[key]] reads,
    besides the object's own properties. *)
Definition object_prototype_keys : list string :=
  ["constructor"; "__defineGetter__"; "__defineSetter__"; "hasOwnProperty";
   "__lookupGetter__"; "__lookupSetter__"; "isPrototypeOf";
   "propertyIsEnumerable"; "toString"; "valueOf"; "__proto__";
   "toLocaleString"].

Definition inherited (key : string) : bool :=
  existsb (String.eqb key) object_prototype_keys.

(** The text [`${obj[key]}`] of an inherited property: the prototype
    itself for [__proto__], a built-in function for the others. *)
Definition inherited_text (key : string) : string :=
  if String.eqb key "__proto__" then "[object Object]"
  else if String.eqb key "constructor" then "function Object() { [native code] }"
  else "function " +:+ key +:+ "() { [native code] }".

(** [obj[key] = value] for a string [value], on an ordinary object used
    as a table of strings.  The key [__proto__] reaches the setter of
    [Object.prototype], which ignores a value that is no object: no
    property is created. *)
Definition assign (key value : string) (obj : gmap string string)
  : gmap string string :=
  if String.eqb key "__proto__" then obj else <[key := value]> obj.

(** Specification-side reading of "contains as a substring". *)
Definition contains (hay needle : string) : Prop :=
  exists pre suf, hay = pre +:+ needle +:+ suf.

(** "[key] contains [word] case-insensitively": some stretch of [key]
    spells [word] once letter case is ignored. *)
Definition contains_ci (key word : string) : Prop :=
  exists pre mid suf,
    key = pre +:+ mid +:+ suf /\ toLowerCase mid = toLowerCase word.

End Js.

(** ** JSON values

    Values that reach the harness as JSON text or as literal test
    configuration: tool arguments, the [enum] lists of an input schema, the
    body of a probed HTTP response.  An object is given by its own
    properties and has [Object.prototype] as its prototype.  Numbers are
    the integer-valued ones. *)

Module Json.

Inductive t : Type :=
| Null
| Bool (b : bool)
| Num (n : Z)
| Str (s : string)
| Arr (items : list t)
| Obj (fields : list (string * t)).

(** JavaScript truthiness. *)
Definition truthy (v : t) : bool :=
  match v with
  | Null => false
  | Bool b => b
  | Num n => negb (n =? 0)
  | Str s => negb (String.eqb s "")
  | Arr _ | Obj _ => true
  end.

(** Own-property lookup in the entries of an object. *)
Fixpoint assoc {A} (k : string) (l : list (string * A)) : option A :=
  match l with
  | [] => None
  | (k', v) :: rest => if String.eqb k k' then Some v else assoc k rest
  end.

(** [obj.hasOwnProperty(k)] for an object given by its entries. *)
Definition has_key {A} (k : string) (l : list (string * A)) : bool :=
  match assoc k l with Some _ => true | None => false end.

(** [k in obj]: an own property, or one inherited from
    [Object.prototype]. *)
Definition has_property {A} (k : string) (l : list (string * A)) : bool :=
  has_key k l || Js.inherited k.

(** [v[k]] for a value that is not [null]: [None] is [undefined]. *)
Definition prop (v : t) (k : string) : option t :=
  match v with
  | Obj fields => assoc k fields
  | _ => None
  end.

(** [x === y] on values decoded independently of each other (the
    comparison [Array.prototype.includes] makes): primitives compare by
    value, arrays and objects by identity, so two decoded ones never match. *)
Definition same_value (x y : t) : bool :=
  match x, y with
  | Null, Null => true
  | Bool a, Bool b => Bool.eqb a b
  | Num a, Num b => a =? b
  | Str a, Str b => String.eqb a b
  | _, _ => false
  end.

Definition array_includes (l : list t) (v : t) : bool :=
  existsb (fun x => same_value x v) l.

(** What [obj[k]] reads: an own value, an inherited built-in, or
    [undefined]. *)
Inductive Reading : Type :=
| Own (v : t)
| Inherited (key : string)
| Undefined.

Definition get (l : list (string * t)) (k : string) : Reading :=
  match assoc k l with
  | Some v => Own v
  | None => if Js.inherited k then Inherited k else Undefined
  end.

(** [l.includes(obj[k])]: a built-in is none of the decoded values. *)
Definition array_includes_reading (l : list t) (r : Reading) : bool :=
  match r with
  | Own v => array_includes l v
  | Inherited _ | Undefined => false
  end.

(** The numbers a double holds exactly, which print as their decimal
    digits: the integers up to 2^53 in absolute value.  (From 10^21 on a
    number prints in exponent form.) *)
Fixpoint exact (v : t) : bool :=
  match v with
  | Num n => Z.abs n <=? 9007199254740992
  | Arr items => forallb exact items
  | _ => true
  end.

(** The text [`${v}`] of a value whose numbers are exact. *)
Fixpoint to_string (v : t) : string :=
  match v with
  | Null => "null"
  | Bool true => "true"
  | Bool false => "false"
  | Num n => Js.show_Z n
  | Str s => s
  | Arr items =>
      Js.join ","
        (map (fun x => match x with Null => "" | _ => to_string x end) items)
  | Obj _ => "[object Object]"
  end.

(** The text [`${obj[k]}`]. *)
Definition reading_text (r : Reading) : string :=
  match r with
  | Own v => to_string v
  | Inherited key => Js.inherited_text key
  | Undefined => "undefined"
  end.

End Json.

(** ** lib/auto-detect-transport.js

    [detectTransport] builds its promise around one GET request and
    resolves it from the handlers it registers; the promise has no reject
    path of its own, and is rejected only by what throws before the
    handlers exist: the URL constructor, and the request call for a
    protocol the module does not serve.  The model follows the handlers
    event by event.  Once the request is made, the http and https modules
    are taken to report every failure through the 'error' events and the
    timeout, which is what the code relies on. *)

Module Detect.

Record DetectionResult := {
  transport : string;
  confidence : Z;
  reason : string;
}.

(** The response object handed to the request callback: status code and
    headers (Node lower-cases header names). *)
Record Response := {
  statusCode : Z;
  headers : gmap string string;
}.

(** What the runtime can deliver to the handlers [detectTransport]
    registers. *)
Inductive Event :=
| EvResponse (res : Response)   (* the request callback runs *)
| EvData (chunk : string)       (* res 'data' *)
| EvEnd                         (* res 'end' *)
| EvResError                    (* res 'error' *)
| EvReqError (msg : string)     (* req 'error' *)
| EvTimeout.                    (* the 5000 ms socket timeout *)

(** State of one probe: the response seen so far, the collected body,
    whether [req.destroy()] was called, and the value the promise was
    resolved with (a promise keeps its first resolution). *)
Record Probe := {
  use_https : bool;
  res : option Response;
  body : string;
  destroyed : bool;
  settled : option DetectionResult;
}.

(** State of the promise [detectTransport] returns. *)
Inductive Promise :=
| Pending
| Resolved (r : DetectionResult)
| Rejected (error_name : string).

Section Detector.

(** The two runtime services the function relies on.  [URL_parse] is
    [new URL(url)]: the protocol of the parsed URL, or [None] when the
    constructor throws.  [JSON_parse] is [JSON.parse]: [None] when it
    throws. *)
Variable URL_parse : string -> option string.
Variable JSON_parse : string -> option Json.t.

Definition unknown (why : string) : DetectionResult :=
  {| transport := "unknown"; confidence := 0; reason := why |}.

(** [headers[name] === value] *)
Definition header_is (h : gmap string string) (name value : string) : bool :=
  match h !! name with
  | Some v => String.eqb v value
  | None => false
  end.

(** The first test of the 'end' handler: the response points at
    event-stream. *)
Definition sse_indicated (r : Response) (b : string) : bool :=
  let contentType := default "" (headers r !! "content-type") in
  header_is (headers r) "x-mcp-transport" "sse"
  || Js.includes b "text/event-stream"
  || Js.includes contentType "text/event-stream".

(** The rejection test nested in it. *)
Definition not_acceptable (r : Response) (b : string) : bool :=
  (statusCode r =? 406) || Js.includes b "Not Acceptable".

(** The [try { JSON.parse ... } catch] block: [true] when it resolves with
    the JSON-RPC verdict.  A [null] document, or an [error.message] that is
    truthy but has no [includes] method, throws inside the block and is
    swallowed by its [catch]. *)
Definition json_error_mentions_event_stream (b : string) : bool :=
  match JSON_parse b with
  | None => false
  | Some Json.Null => false
  | Some json =>
      match Json.prop json "error" with
      | None => false
      | Some e =>
          if Json.truthy e then
            match Json.prop e "message" with
            | None => false
            | Some m =>
                if Json.truthy m then
                  match m with
                  | Json.Str s => Js.includes s "event-stream"
                  | Json.Arr l => Json.array_includes l (Json.Str "event-stream")
                  | _ => false
                  end
                else false
            end
          else false
      end
  end.

(** The body of the 'end' handler. *)
Definition analyze (r : Response) (b : string) : DetectionResult :=
  if sse_indicated r b then
    if not_acceptable r b then
      {| transport := "streamableHttp"; confidence := 90;
         reason := "Server requires event-stream but responds with 406, typical of StreamableHTTP" |}
    else
      {| transport := "sse"; confidence := 80;
         reason := "Server indicates SSE support" |}
  else if header_is (headers r) "x-mcp-transport" "streamablehttp"
          || header_is (headers r) "x-mcp-transport" "streamable-http"
          || ((statusCode r =? 406) && Js.includes b "event-stream") then
    {| transport := "streamableHttp"; confidence := 95;
       reason := "Server shows StreamableHTTP characteristics" |}
  else if Js.includes b "jsonrpc" && Js.includes b "error"
          && json_error_mentions_event_stream b then
    {| transport := "streamableHttp"; confidence := 85;
       reason := "JSON-RPC error mentions event-stream" |}
  else
    {| transport := "streamableHttp"; confidence := 50;
       reason := "HTTP endpoint, assuming StreamableHTTP" |}.

(** [resolve(r)]: only the first call settles the promise. *)
Definition resolve (r : DetectionResult) (p : Probe) : Probe :=
  match settled p with
  | Some _ => p
  | None =>
      {| use_https := use_https p; res := res p; body := body p;
         destroyed := destroyed p; settled := Some r |}
  end.

(** One handler invocation.  The response handlers exist only once the
    request callback has run. *)
Definition handle (p : Probe) (ev : Event) : Probe :=
  match ev with
  | EvResponse r =>
      {| use_https := use_https p; res := Some r; body := "";
         destroyed := destroyed p; settled := settled p |}
  | EvData chunk =>
      match res p with
      | None => p
      | Some _ =>
          let b := body p +:+ chunk in
          {| use_https := use_https p; res := res p; body := b;
             destroyed := destroyed p || (1024 <? String.length b)%nat;
             settled := settled p |}
      end
  | EvEnd =>
      match res p with
      | None => p
      | Some r => resolve (analyze r (body p)) p
      end
  | EvResError =>
      match res p with
      | None => p
      | Some _ => resolve (unknown "Failed to connect to server") p
      end
  | EvReqError msg => resolve (unknown ("Connection error: " +:+ msg)) p
  | EvTimeout =>
      resolve (unknown "Connection timeout")
        {| use_https := use_https p; res := res p; body := body p;
           destroyed := true; settled := settled p |}
  end.

Definition start (protocol : string) : Probe :=
  {| use_https := String.eqb protocol "https:"; res := None; body := "";
     destroyed := false; settled := None |}.

(** [client.request(url, options, callback)].  The [https] module is
    taken for an "https:" URL and the [http] module for every other one;
    the [http] module throws (ERR_INVALID_PROTOCOL, a TypeError) for a URL
    whose protocol is not "http:".  The call sits in the executor of the
    promise, so the throw rejects the promise, and no handler is ever
    registered. *)
Definition request_made (protocol : string) : bool :=
  String.eqb protocol "https:" || String.eqb protocol "http:".

Definition run (protocol : string) (evs : list Event) : Probe :=
  if request_made protocol then fold_left handle evs (start protocol)
  else start protocol.

(** [detectTransport(url)] against a runtime that delivers [evs]. *)
Definition detectTransport (url : string) (evs : list Event) : Promise :=
  match URL_parse url with
  | None => Rejected "TypeError"
  | Some protocol =>
      if request_made protocol then
        match settled (run protocol evs) with
        | Some r => Resolved r
        | None => Pending
        end
      else Rejected "TypeError"
  end.

(** The events after which the promise is settled with the "unknown"
    verdict, and the reason each records. *)
Definition failure_reason (p : Probe) (ev : Event) : option string :=
  match ev with
  | EvResError =>
      match res p with
      | Some _ => Some "Failed to connect to server"
      | None => None
      end
  | EvReqError msg => Some ("Connection error: " +:+ msg)
  | EvTimeout => Some "Connection timeout"
  | _ => None
  end.

End Detector.

End Detect.

(** ** The v2 framework: [MCPTestFrameworkAdvanced] with retries, error
       classes and metrics *)

Module Advanced.

(** *** Values and errors *)

(** A double quote, for the messages that quote a name. *)
Definition dq : string := String "034"%char EmptyString.
Definition quoted (s : string) : string := dq +:+ s +:+ dq.

(** The check mark and the ballot cross of the log lines, in UTF-8. *)
Definition check_mark : string :=
  String "226"%char (String "156"%char (String "147"%char EmptyString)).
Definition ballot_cross : string :=
  String "226"%char (String "156"%char (String "151"%char EmptyString)).

(** Values the harness itself computes: what a test function returns and
    what an error carries in [details].  [VRatio n d] is the double [n / d]
    the code computes for display; [VJson j] is a value taken over from the
    test configuration or from the server. *)
Inductive Value : Type :=
| VUndefined
| VBool (b : bool)
| VNum (n : Z)
| VRatio (n d : Z)
| VStr (s : string)
| VJson (j : Json.t)
| VList (items : list Value)
| VObj (fields : list (string * Value)).

Definition VOptStr (o : option string) : Value :=
  match o with Some s => VStr s | None => VUndefined end.

(** [Error] objects.  [code] and [details] are [undefined] on a plain
    [Error]. *)
Record JsError := {
  err_name : string;
  message : string;
  code : option string;
  details : option (list (string * Value));
}.

Definition Error (msg : string) : JsError :=
  {| err_name := "Error"; message := msg; code := None; details := None |}.

Definition TypeError (msg : string) : JsError :=
  {| err_name := "TypeError"; message := msg; code := None; details := None |}.

(** [new MCPTestError(message, code, details = {})] *)
Definition MCPTestError (msg c : string) (d : list (string * Value)) : JsError :=
  {| err_name := "MCPTestError"; message := msg; code := Some c; details := Some d |}.

(** [new ConnectionError(message, transport, details)]: code
    [CONNECTION_ERROR], details [{ transport, ...details }]. *)
Definition ConnectionError (msg transport : string) (d : list (string * Value)) : JsError :=
  {| err_name := "ConnectionError"; message := msg;
     code := Some "CONNECTION_ERROR";
     details := Some (("transport", VStr transport) :: d) |}.

(** [new TestTimeoutError(testName, timeout)] *)
Definition TestTimeoutError (testName : string) (timeout : Z) : JsError :=
  {| err_name := "TestTimeoutError";
     message := "Test " +:+ quoted testName +:+ " timed out after "
                +:+ Js.show_Z timeout +:+ "ms";
     code := Some "TEST_TIMEOUT";
     details := Some [("testName", VStr testName); ("timeout", VNum timeout)] |}.

(** How an awaited call settles. *)
Inductive Settle (A : Type) : Type :=
| Resolves (v : A) (after : Z)
| Rejects (e : JsError) (after : Z)
| Never.
Arguments Resolves {A} v after.
Arguments Rejects {A} e after.
Arguments Never {A}.

(** The two values that have no properties to read. *)
Inductive Nullish := JsNull | JsUndefined.

Definition nullish_text (v : Nullish) : string :=
  match v with JsNull => "null" | JsUndefined => "undefined" end.

(** What a [catch] may be handed.  The harness and the client library
    throw Error objects; a function or assertion written by the caller may
    also throw, or reject with, [null] or [undefined], from which no
    property can be read.  The [details] of an Error object are data that
    [JSON.stringify] prints.  Other thrown primitives (a string, a number),
    which a [catch] block reads like an object without [message], are not
    part of this model. *)
Inductive Thrown :=
| ErrorObject (e : JsError)
| NoObject (v : Nullish).

(** How a call into a function of the caller settles: like a call on the
    library, or by rejecting with [null] or [undefined]. *)
Inductive Callback (A : Type) : Type :=
| Settles (s : Settle A)
| RejectsWith (v : Nullish) (after : Z).
Arguments Settles {A} s.
Arguments RejectsWith {A} v after.
Coercion Settles : Settle >-> Callback.

(** *** Configuration and records *)

Record TransportConfig := {
  type : option string;
  command : option string;
  args : option (list string);
  env : option (list (string * string));
  url : option string;
  headers : option (gmap string string);
  auth : option string;
}.

(** The transport objects of the client library. *)
Inductive Transport :=
| StdioClientTransport (command : string) (args : list string)
    (env : option (list (string * string)))
| SSEClientTransport (url : string) (headers : gmap string string)
| StreamableHTTPClientTransport (url : string) (headers : gmap string string).

Record Options := {
  verbose : bool;
  timeout : Z;
  outputDir : string;
  retryAttempts : Z;
  retryDelay : Z;
  validateSchemas : bool;
  toolCallThreshold : Z;
  discoveryThreshold : Z;
}.

(** The options object a caller passes; every field may be missing. *)
Record UserOptions := {
  u_verbose : option bool;
  u_timeout : option Z;
  u_outputDir : option string;
  u_retryAttempts : option Z;
  u_retryDelay : option Z;
  u_validateSchemas : option bool;
  u_thresholds : option (Z * Z);
}.

(** [x || d] on an optional number. *)
Definition num_or (x : option Z) (d : Z) : Z :=
  match x with
  | Some n => if n =? 0 then d else n
  | None => d
  end.

Definition make_options (o : UserOptions) : Options :=
  {| verbose := default false (u_verbose o);
     timeout := num_or (u_timeout o) 30000;
     outputDir := if Js.truthy_str (u_outputDir o)
                  then default "" (u_outputDir o) else "./test-results";
     retryAttempts := num_or (u_retryAttempts o) 0;
     retryDelay := num_or (u_retryDelay o) 1000;
     validateSchemas := default true (u_validateSchemas o);
     toolCallThreshold := fst (default (5000, 1000) (u_thresholds o));
     discoveryThreshold := snd (default (5000, 1000) (u_thresholds o)) |}.

Record Metrics := {
  startTime : Z;
  connectionAttempts : Z;
  totalTestsRun : Z;
  totalAssertions : Z;
}.

(** One executed test, as [executeTest] returns it. *)
Record TestResult := {
  t_name : string;
  t_startTime : Z;
  t_status : string;
  t_result : option Value;
  t_error : option string;
  t_errorCode : option string;
  t_errorDetails : option (list (string * Value));
  t_duration : Z;
}.

Record SuiteMetrics := {
  m_totalTests : nat;
  m_passedTests : nat;
  m_failedTests : nat;
  m_avgTestDuration : Z;
  m_fastestTest : option (string * Z);
  m_slowestTest : option (string * Z);
}.

Record SuiteError := {
  se_message : string;
  se_code : option string;
  se_details : option (list (string * Value));
}.

(** One suite run, as [testServer] records it. *)
Record SuiteResult := {
  s_name : string;
  s_transport : option string;
  s_config : TransportConfig;
  s_startTime : Z;
  s_tests : list TestResult;
  s_status : option string;
  s_error : option SuiteError;
  s_endTime : Z;
  s_duration : Z;
  s_metrics : SuiteMetrics;
}.

(** What [connectToServer] returns: the client (named by the attempt that
    created it) and its transport. *)
Record Session := {
  client : nat;
  transport : Transport;
}.

(** The locals of a running [testServer]: the fields of [result] that are
    assigned along the way, and the variable [client]. *)
Record Draft := {
  d_tests : list TestResult;
  d_status : option string;
  d_error : option SuiteError;
  d_client : option Session;
}.

Definition empty_draft : Draft :=
  {| d_tests := []; d_status := None; d_error := None; d_client := None |}.

Inductive Level := Info | Success | Warning | ErrorLevel | Debug.

(** A console line: [text] followed, when [payload] is present, by its
    [JSON.stringify] text. *)
Record LogLine := {
  at_time : Z;
  level : Level;
  text : string;
  payload : option (list (string * Value));
}.

(** Calls the harness itself makes on the client library and the timer. *)
Inductive IoEvent :=
| IoConnect (attempt : nat) (t : Transport)
| IoVerify (attempt : nat)
| IoSleep (ms : Z)
| IoClose (client : nat).

(** The framework object together with the runtime it runs in: the clock,
    the console, the log of calls made, and the locals of the suite that is
    running. *)
Record Framework := {
  options : Options;
  results : list SuiteResult;
  metrics : Metrics;
  now : Z;
  console : list LogLine;
  io : list IoEvent;
  draft : Draft;
}.

(** [new MCPTestFrameworkAdvanced(options)] at time [t]. *)
Definition new_framework (o : UserOptions) (t : Z) : Framework :=
  {| options := make_options o;
     results := [];
     metrics := {| startTime := t; connectionAttempts := 0;
                   totalTestsRun := 0; totalAssertions := 0 |};
     now := t; console := []; io := []; draft := empty_draft |}.

(** *** Asynchronous methods

    A method is a state transformer that returns, throws, or never
    settles. *)

Inductive Outcome (A : Type) : Type :=
| Return (a : A)
| Throw (e : JsError)
| Hangs.
Arguments Return {A} a.
Arguments Throw {A} e.
Arguments Hangs {A}.

Definition M (A : Type) : Type := Framework -> Outcome A * Framework.

Definition ret {A} (a : A) : M A := fun st => (Return a, st).
Definition throw {A} (e : JsError) : M A := fun st => (Throw e, st).

Definition bind {A B} (m : M A) (k : A -> M B) : M B :=
  fun st =>
    match m st with
    | (Return a, st') => k a st'
    | (Throw e, st') => (Throw e, st')
    | (Hangs, st') => (Hangs, st')
    end.

Notation "x <- m ;; k" := (bind m (fun x => k))
  (at level 100, m at next level, right associativity).
Notation "m ;;; k" := (bind m (fun _ => k))
  (at level 100, right associativity).

(** [try { body } catch (error) { handler }] *)
Definition try_catch {A} (body : M A) (handler : JsError -> M A) : M A :=
  fun st =>
    match body st with
    | (Throw e, st') => handler e st'
    | r => r
    end.

Definition get : M Framework := fun st => (Return st, st).
Definition modify (f : Framework -> Framework) : M unit :=
  fun st => (Return tt, f st).

Definition Date_now : M Z := fun st => (Return (now st), st).

Definition tick (d : Z) (st : Framework) : Framework :=
  {| options := options st; results := results st; metrics := metrics st;
     now := now st + d; console := console st; io := io st;
     draft := draft st |}.

Definition record_io (ev : IoEvent) (st : Framework) : Framework :=
  {| options := options st; results := results st; metrics := metrics st;
     now := now st; console := console st; io := (io st ++ [ev])%list;
     draft := draft st |}.

Definition set_metrics (m : Metrics) (st : Framework) : Framework :=
  {| options := options st; results := results st; metrics := m;
     now := now st; console := console st; io := io st;
     draft := draft st |}.

Definition set_draft (d : Draft) (st : Framework) : Framework :=
  {| options := options st; results := results st; metrics := metrics st;
     now := now st; console := console st; io := io st;
     draft := d |}.

Definition push_result (r : SuiteResult) (st : Framework) : Framework :=
  {| options := options st; results := (results st ++ [r])%list;
     metrics := metrics st; now := now st; console := console st;
     io := io st; draft := draft st |}.

(** A function the executor runs: a method of the harness, or a function
    of the caller, which may end with a thrown value that is no object. *)
Inductive Finish (A : Type) : Type :=
| Returned (a : A)
| Threw (x : Thrown)
| Pending.
Arguments Returned {A} a.
Arguments Threw {A} x.
Arguments Pending {A}.

Definition TestFn (A : Type) : Type := Framework -> Finish A * Framework.

Definition method {A} (m : M A) : TestFn A :=
  fun st =>
    match m st with
    | (Return a, st') => (Returned a, st')
    | (Throw e, st') => (Threw (ErrorObject e), st')
    | (Hangs, st') => (Pending, st')
    end.
Coercion method : M >-> TestFn.

(** [try { x = await fn(); ... } catch (error) { ... }] around a
    function that may end with any thrown value; what follows the [await]
    inside the [try] does not throw. *)
Definition try_await {A B} (fn : TestFn A) (k : A -> M B)
  (handler : Thrown -> M B) : M B :=
  fun st =>
    match fn st with
    | (Returned a, st') => k a st'
    | (Threw x, st') => handler x st'
    | (Pending, st') => (Hangs, st')
    end.

(** The first property read of a caught value, [error.message]: it throws
    a TypeError when the value is [null] or [undefined], and gives the
    Error object otherwise. *)
Definition read_error (x : Thrown) : M JsError :=
  match x with
  | ErrorObject e => ret e
  | NoObject v =>
      throw (TypeError ("Cannot read properties of " +:+ nullish_text v
                        +:+ " (reading 'message')"))
  end.

(** [await call] *)
Definition await {A} (s : Settle A) : M A :=
  fun st =>
    match s with
    | Resolves v d => (Return v, tick d st)
    | Rejects e d => (Throw e, tick d st)
    | Never => (Hangs, st)
    end.

(** [await callback(...)] *)
Definition await_callback {A} (c : Callback A) : TestFn A :=
  fun st =>
    match c with
    | Settles s => method (await s) st
    | RejectsWith v d => (Threw (NoObject v), tick d st)
    end.

(** [this.log(message, level)] *)
Definition log_with (msg : string) (p : option (list (string * Value)))
  (lv : Level) : M unit :=
  fun st =>
    let shown :=
      verbose (options st) ||
      match lv with ErrorLevel | Warning => true | _ => false end in
    (Return tt,
     if shown then
       {| options := options st; results := results st; metrics := metrics st;
          now := now st;
          console := (console st ++
                     [{| at_time := now st; level := lv; text := msg; payload := p |}])%list;
          io := io st; draft := draft st |}
     else st).

Definition log (msg : string) (lv : Level) : M unit := log_with msg None lv.

(** *** Input schemas and their validation *)

(** A JSON schema as the validator reads it.  [sc_required],
    [sc_properties] and [sc_items] of a property schema describe nested
    objects and arrays. *)
Inductive Schema : Type := mkSchema {
  sc_type : option string;
  sc_enum : option (list Json.t);
  sc_description : option string;
  sc_required : option (list string);
  sc_properties : option (list (string * Schema));
  sc_items : option Schema;
}.

Record Validation := {
  valid : bool;
  errors : list string;
  suggestions : list string;
}.

(** [values.map(v => `"${v}"`).join(', ')] *)
Definition enum_text (vs : list Json.t) : string :=
  Js.join ", " (map (fun v => quoted (Json.to_string v)) vs).

Definition type_is (p : Schema) (ty : string) : bool :=
  match sc_type p with
  | Some s => String.eqb s ty
  | None => false
  end.

(** The suggestion pushed for a missing required field that
    [schema.properties] declares. *)
Definition suggestion_for (field : string) (p : Schema) : string :=
  let suggestion := "Add " +:+ quoted field +:+ ": " in
  let suggestion :=
    suggestion +:+
    match sc_enum p with
    | Some vs => "one of [" +:+ enum_text vs +:+ "]"
    | None =>
        if type_is p "string" then quoted "your-value"
        else if type_is p "number" then "123"
        else if type_is p "boolean" then "true"
        else "<" +:+ Js.show_opt (sc_type p) +:+ ">"
    end in
  if Js.truthy_str (sc_description p)
  then suggestion +:+ " // " +:+ default "" (sc_description p)
  else suggestion.

(** The loop over [schema.required]; [acc] is the pair of arrays
    [(errors, suggestions)]. *)
Fixpoint check_required (data : list (string * Json.t))
  (properties : option (list (string * Schema)))
  (required : list string) (acc : list string * list string)
  : list string * list string :=
  match required with
  | [] => acc
  | field :: rest =>
      let acc' :=
        if Json.has_property field data then acc
        else
          let errs := (fst acc ++ ["Missing required field: " +:+ field])%list in
          match properties with
          | Some props =>
              match Json.assoc field props with
              | Some p => (errs, (snd acc ++ [suggestion_for field p])%list)
              | None => (errs, snd acc)
              end
          | None => (errs, snd acc)
          end in
      check_required data properties rest acc'
  end.

(** The loop over [Object.entries(schema.properties)]. *)
Fixpoint check_enums (data : list (string * Json.t))
  (entries : list (string * Schema)) (acc : list string * list string)
  : list string * list string :=
  match entries with
  | [] => acc
  | (fieldName, fieldSchema) :: rest =>
      let acc' :=
        match sc_enum fieldSchema with
        | Some vs =>
            if Json.has_property fieldName data then
              let value := Json.get data fieldName in
              if Json.array_includes_reading vs value then acc
              else
                ((fst acc ++ ["Invalid value for " +:+ fieldName +:+ ": "
                              +:+ quoted (Json.reading_text value)])%list,
                 (snd acc ++ ["Use one of: " +:+ enum_text vs])%list)
            else acc
        | None => acc
        end in
      check_enums data rest acc'
  end.

(** [validateAgainstSchema(data, schema)] for an argument object [data].
    Both loops test [field in data], which also finds the names every
    object inherits. *)
Definition validateAgainstSchema (data : list (string * Json.t))
  (schema : Schema) : Validation :=
  let acc := ([], []) in
  let acc :=
    match sc_required schema with
    | Some required => check_required data (sc_properties schema) required acc
    | None => acc
    end in
  let acc :=
    match sc_properties schema with
    | Some entries => check_enums data entries acc
    | None => acc
    end in
  {| valid := (length (fst acc) =? 0)%nat;
     errors := fst acc;
     suggestions := snd acc |}.

(** *** Redaction of the transport configuration *)

Definition REDACTED : string := "[REDACTED]".

Definition sensitive (key : string) : bool :=
  Js.includes (Js.toLowerCase key) "auth"
  || Js.includes (Js.toLowerCase key) "token"
  || Js.includes (Js.toLowerCase key) "key".

(** The loop that fills [safeHeaders] by assignment. *)
Definition safe_headers (h : gmap string string) : gmap string string :=
  map_fold
    (fun key value safeHeaders =>
       Js.assign key (if sensitive key then REDACTED else value) safeHeaders)
    ∅ h.

(** [sanitizeConfig(config)] *)
Definition sanitizeConfig (config : TransportConfig) : TransportConfig :=
  {| type := type config;
     command := command config;
     args := args config;
     env := env config;
     url := url config;
     headers := safe_headers <$> headers config;
     auth := if Js.truthy_str (auth config) then Some REDACTED else auth config |}.

(** *** The client library, as the harness meets it *)

Record Tool := {
  tool_name : string;
  tool_description : option string;
  inputSchema : option Schema;
}.

Record Resource := {
  r_name : option string;
  r_uri : option string;
  r_mimeType : option string;
  r_description : option string;
}.

Record Prompt := {
  p_name : option string;
  p_description : option string;
  p_arguments : option (list string);
}.

Record ContentItem := { c_type : string; c_text : option string }.

(** A tool result: its [content] ([None] when it is not an array) and the
    length of its [JSON.stringify] text. *)
Record CallResult := {
  content : option (list ContentItem);
  json_length : Z;
}.

(** The server behind the client library.  [connect n t] is how the
    [n]-th connection attempt of a [connectToServer] call settles,
    [verify n] how the [listTools] call made right after it does; the other
    fields are how the connected server answers during the run. *)
Record Peer := {
  connect : nat -> Transport -> Settle unit;
  verify : nat -> Settle (list Tool);
  listTools : Settle (list Tool);
  listResources : Settle (list Resource);
  listPrompts : Settle (list Prompt);
  callTool : string -> list (string * Json.t) -> Settle (option CallResult);
  close : Settle unit;
}.

(** *** createTransport *)

Definition createTransport (transportConfig : TransportConfig) : M Transport :=
  let ty := type transportConfig in
  log ("Creating " +:+ Js.show_opt ty +:+ " transport") Debug ;;;
  if bool_decide (ty = Some "stdio") then
    if negb (Js.truthy_str (command transportConfig)) then
      throw (MCPTestError ("stdio transport requires " +:+ quoted "command" +:+ " parameter")
               "INVALID_CONFIG" [])
    else
      ret (StdioClientTransport (default "" (command transportConfig))
             (default [] (args transportConfig)) (env transportConfig))
  else if bool_decide (ty = Some "sse") then
    if negb (Js.truthy_str (url transportConfig)) then
      throw (MCPTestError ("SSE transport requires " +:+ quoted "url" +:+ " parameter")
               "INVALID_CONFIG" [])
    else
      ret (SSEClientTransport (default "" (url transportConfig))
             (default ∅ (headers transportConfig)))
  else if bool_decide (ty = Some "streamableHttp") then
    if negb (Js.truthy_str (url transportConfig)) then
      throw (MCPTestError ("streamableHttp transport requires " +:+ quoted "url" +:+ " parameter")
               "INVALID_CONFIG" [])
    else
      ret (StreamableHTTPClientTransport (default "" (url transportConfig))
             (default ∅ (headers transportConfig)))
  else
    throw (MCPTestError ("Unknown transport type: " +:+ Js.show_opt ty)
             "INVALID_TRANSPORT" []).

(** *** connectToServer *)

Definition bump_connectionAttempts (st : Framework) : Framework :=
  set_metrics
    {| startTime := startTime (metrics st);
       connectionAttempts := connectionAttempts (metrics st) + 1;
       totalTestsRun := totalTestsRun (metrics st);
       totalAssertions := totalAssertions (metrics st) |} st.

(** [await new Promise(resolve => setTimeout(resolve, ms))] *)
Definition sleep (ms : Z) : M unit :=
  fun st => (Return tt, tick ms (record_io (IoSleep ms) st)).

(** [transportConfig.type || 'stdio'] *)
Definition transport_label (transportConfig : TransportConfig) : string :=
  if Js.truthy_str (type transportConfig)
  then default "" (type transportConfig) else "stdio".

(** The [try] block of one loop iteration. *)
Definition attempt_body (peer : Peer) (transportConfig : TransportConfig)
  (transportType : string) (attempt : nat) : M Session :=
  log ("Connecting to MCP server using " +:+ transportType +:+ " transport") Info ;;;
  transport <- createTransport transportConfig ;;
  modify (record_io (IoConnect attempt transport)) ;;;
  await (connect peer attempt transport) ;;;
  log ("Successfully connected via " +:+ transportType) Success ;;;
  try_catch
    (modify (record_io (IoVerify attempt)) ;;;
     _ <- await (verify peer attempt) ;;
     ret tt)
    (fun verifyError =>
       throw (ConnectionError
                "Connection established but server not responding correctly"
                transportType
                [("verifyError", VStr (message verifyError))])) ;;;
  ret {| client := attempt; transport := transport |}.

(** The block [if (attempt > 0) { ... }]: the warning and the delay
    before a retry. *)
Definition retry_pause (attempt : nat) : M unit :=
  fun st =>
    (if (0 <? attempt)%nat then
       log ("Retrying connection (attempt " +:+ Js.show_Z (Z.of_nat attempt + 1)
            +:+ "/" +:+ Js.show_Z (retryAttempts (options st) + 1) +:+ ")") Warning ;;;
       sleep (retryDelay (options st))
     else ret tt) st.

(** The [for] loop: [remaining] iterations are left, [attempt] is the loop
    variable, [lastError] the error of the previous iteration. *)
Fixpoint connect_loop (peer : Peer) (transportConfig : TransportConfig)
  (transportType : string) (remaining : nat) (attempt : nat)
  (lastError : option JsError) : M Session :=
  match remaining with
  | O =>
      st <- get ;;
      throw (ConnectionError
               ("Failed to connect after "
                +:+ Js.show_Z (retryAttempts (options st) + 1) +:+ " attempts")
               transportType
               [("lastError", VOptStr (message <$> lastError))])
  | S remaining' =>
      modify bump_connectionAttempts ;;;
      retry_pause attempt ;;;
      r <- try_catch
             (s <- attempt_body peer transportConfig transportType attempt ;;
              ret (inl s))
             (fun error =>
                log ("Connection attempt " +:+ Js.show_Z (Z.of_nat attempt + 1)
                     +:+ " failed: " +:+ message error) ErrorLevel ;;;
                ret (inr error)) ;;
      match r with
      | inl s => ret s
      | inr error =>
          connect_loop peer transportConfig transportType remaining'
            (S attempt) (Some error)
      end
  end.

(** [connectToServer(transportConfig)]: the loop runs while
    [attempt <= retryAttempts]. *)
Definition connectToServer (peer : Peer) (transportConfig : TransportConfig)
  : M Session :=
  st <- get ;;
  connect_loop peer transportConfig (transport_label transportConfig)
    (Z.to_nat (retryAttempts (options st) + 1)) 0%nat None.

(** *** executeTest *)

Definition bump_totalTestsRun (st : Framework) : Framework :=
  set_metrics
    {| startTime := startTime (metrics st);
       connectionAttempts := connectionAttempts (metrics st);
       totalTestsRun := totalTestsRun (metrics st) + 1;
       totalAssertions := totalAssertions (metrics st) |} st.

Definition set_now (t : Z) (st : Framework) : Framework :=
  {| options := options st; results := results st; metrics := metrics st;
     now := t; console := console st; io := io st;
     draft := draft st |}.

(** [await Promise.race([fn(), timeoutPromise])].  The timer is set for
    [options.timeout] ms, a delay taken to be one that a timer honours as
    it is given (1 to 2^31 - 1 ms; any other is run as 1 ms).  On the
    millisecond clock used here a function that settles before the timer
    is due wins the race and one that settles after it loses; for a
    function that settles in the very millisecond the timer is due the
    order of the two events in the event loop decides, and the timer, set
    first, is served first among timers: here that function is let win.
    A function that loses the race keeps running: what it did by then
    stays done, its result is dropped. *)
Definition race {A} (name : string) (fn : TestFn A) : TestFn A :=
  fun st =>
    let T := timeout (options st) in
    match fn st with
    | (Pending, st') =>
        (Threw (ErrorObject (TestTimeoutError name T)), set_now (now st + T) st')
    | (r, st') =>
        if now st' - now st <=? T then (r, st')
        else (Threw (ErrorObject (TestTimeoutError name T)),
              set_now (now st + T) st')
    end.

(** [executeTest(name, fn)].  The [catch] block starts by reading
    [error.message]: when the function threw [null] or [undefined] that
    read throws, and the TypeError leaves [executeTest]. *)
Definition executeTest (name : string) (fn : TestFn Value) : M TestResult :=
  startTime <- Date_now ;;
  modify bump_totalTestsRun ;;;
  log ("Running test: " +:+ name) Info ;;;
  try_await (race name fn)
    (fun result =>
       t <- Date_now ;;
       log (check_mark +:+ " " +:+ name +:+ " (" +:+ Js.show_Z (t - startTime) +:+ "ms)") Success ;;;
       ret {| t_name := name; t_startTime := startTime; t_status := "passed";
              t_result := Some result; t_error := None; t_errorCode := None;
              t_errorDetails := None; t_duration := t - startTime |})
    (fun thrown =>
       error <- read_error thrown ;;
       t <- Date_now ;;
       log (ballot_cross +:+ " " +:+ name +:+ ": " +:+ message error) ErrorLevel ;;;
       match details error with
       | Some d => log_with "  Details: " (Some d) Debug
       | None => ret tt
       end ;;;
       ret {| t_name := name; t_startTime := startTime; t_status := "failed";
              t_result := None; t_error := Some (message error);
              t_errorCode := code error; t_errorDetails := details error;
              t_duration := t - startTime |}).


(** *** Test phases *)

Definition update_draft (f : Draft -> Draft) : M unit :=
  modify (fun st => set_draft (f (draft st)) st).

(** [result.tests.push(testResult)] *)
Definition push_test (t : TestResult) : M unit :=
  update_draft (fun d =>
    {| d_tests := (d_tests d ++ [t])%list; d_status := d_status d;
       d_error := d_error d; d_client := d_client d |}).

Definition is_some {A} (o : option A) : bool :=
  match o with Some _ => true | None => false end.

(** The three discovery test functions. *)
Definition list_tools_fn (peer : Peer) : M Value :=
  start <- Date_now ;;
  tools <- await (listTools peer) ;;
  t <- Date_now ;;
  let duration := t - start in
  let toolsSummary :=
    map (fun t => (tool_name t, Js.truthy_str (tool_description t),
                   is_some (inputSchema t))) tools in
  ret (VObj
    [("count", VNum (Z.of_nat (length tools)));
     ("duration", VNum duration);
     ("tools",
      VList (map (fun '(n, d, s) =>
                    VObj [("name", VStr n); ("hasDescription", VBool d);
                          ("hasInputSchema", VBool s)])
               (take 10 toolsSummary)));
     ("schemaCompleteness",
      VRatio (Z.of_nat (length (filter (fun '(_, _, s) => s = true) toolsSummary)))
             (Z.of_nat (length toolsSummary)))]).

Definition list_resources_fn (peer : Peer) : M Value :=
  start <- Date_now ;;
  resources <- await (listResources peer) ;;
  t <- Date_now ;;
  let duration := t - start in
  ret (VObj
    [("count", VNum (Z.of_nat (length resources)));
     ("duration", VNum duration);
     ("resources",
      VList (map (fun r =>
                    VObj [("name", VOptStr (r_name r)); ("uri", VOptStr (r_uri r));
                          ("mimeType", VOptStr (r_mimeType r))])
               (take 10 resources)))]).

Definition list_prompts_fn (peer : Peer) : M Value :=
  start <- Date_now ;;
  prompts <- await (listPrompts peer) ;;
  t <- Date_now ;;
  let duration := t - start in
  ret (VObj
    [("count", VNum (Z.of_nat (length prompts)));
     ("duration", VNum duration);
     ("prompts",
      VList (map (fun p =>
                    VObj [("name", VOptStr (p_name p));
                          ("hasDescription", VBool (Js.truthy_str (p_description p)));
                          ("argumentCount",
                           VNum (Z.of_nat (length (default [] (p_arguments p)))))])
               (take 10 prompts)))]).

(** The loop [for (const test of tests)] of the phases that call
    [executeTest] themselves. *)
Fixpoint run_tests (tests : list (string * M Value)) : M unit :=
  match tests with
  | [] => ret tt
  | (name, fn) :: rest =>
      testResult <- executeTest name fn ;;
      push_test testResult ;;;
      run_tests rest
  end.

(** [runDiscoveryTests(client, result)] *)
Definition runDiscoveryTests (peer : Peer) : M unit :=
  run_tests
    [("List Tools", list_tools_fn peer);
     ("List Resources", list_resources_fn peer);
     ("List Prompts", list_prompts_fn peer)].

(** An element of a configuration array: an object, or [null]. *)
Inductive Entry (A : Type) : Type :=
| Item (a : A)
| NullItem.
Arguments Item {A} a.
Arguments NullItem {A}.

(** A custom test: its name and the way [test.fn(client)] settles. *)
Record CustomTest := {
  ct_name : string;
  ct_fn : Callback Value;
}.

(** [runCustomTest(client, test, result)].  [test.name] is read before the
    executor is entered. *)
Definition runCustomTest (test : Entry CustomTest) : M unit :=
  match test with
  | NullItem =>
      throw (TypeError "Cannot read properties of null (reading 'name')")
  | Item t =>
      testResult <- executeTest (ct_name t) (await_callback (ct_fn t)) ;;
      push_test testResult
  end.

Fixpoint run_custom_tests (tests : list (Entry CustomTest)) : M unit :=
  match tests with
  | [] => ret tt
  | test :: rest => runCustomTest test ;;; run_custom_tests rest
  end.

(** The test functions that measure: timing statistics in floating point,
    fan-out with [Promise.all] / [Promise.allSettled], heap sampling, a
    call with a self-referential argument.  Each is given by the way it
    settles. *)
Record Measured := {
  rapid_sequential : Settle Value;
  concurrent_requests : Settle Value;
  memory_stability : Settle Value;
  discovery_performance : Settle Value;
  concurrent_handling : Settle Value;
  malformed_arguments : Settle Value;
}.

(** [runStabilityTests(client, result)] *)
Definition runStabilityTests (m : Measured) : M unit :=
  run_tests
    [("Rapid Sequential Requests", await (rapid_sequential m));
     ("Concurrent Requests", await (concurrent_requests m));
     ("Memory Stability", await (memory_stability m))].

(** [runProtocolComplianceTests(client, result)].  The second function
    throws inside its own [try], so its [catch] answers either way. *)
Definition runProtocolComplianceTests (peer : Peer) : M unit :=
  run_tests
    [("Valid JSON-RPC responses",
      (_ <- await (listTools peer) ;;
       ret (VObj [("compliant", VBool true)])));
     ("Error handling compliance",
      try_catch
        (_ <- await (callTool peer "__invalid_tool__" []) ;;
         throw (Error "Server should have returned an error"))
        (fun error =>
           ret (VObj [("compliant", VBool true); ("errorHandled", VBool true);
                      ("errorMessage", VStr (message error))])))].

(** [runPerformanceTests(client, result)] *)
Definition runPerformanceTests (m : Measured) : M unit :=
  run_tests
    [("Tool discovery performance", await (discovery_performance m));
     ("Concurrent request handling", await (concurrent_handling m))].

(** [runErrorHandlingTests(client, result)] *)
Definition runErrorHandlingTests (peer : Peer) (m : Measured) : M unit :=
  run_tests
    [("Invalid tool name handling",
      try_catch
        (_ <- await (callTool peer "this_tool_definitely_does_not_exist_123456789" []) ;;
         ret (VObj [("handled", VBool false);
                    ("error", VStr "Server did not reject invalid tool")]))
        (fun error =>
           ret (VObj [("handled", VBool true);
                      ("errorMessage", VStr (message error))])));
     ("Malformed arguments handling", await (malformed_arguments m))].

(** *** Tool tests *)

Record ToolTest := {
  toolName : string;
  tt_arguments : option (list (string * Json.t));
  assertions : option (list (CallResult -> Callback unit));
}.

Definition newline : string := String "010"%char EmptyString.

Definition VArgs (a : option (list (string * Json.t))) : Value :=
  match a with
  | Some fields => VJson (Json.Obj fields)
  | None => VUndefined
  end.

Definition content_value (c : ContentItem) : Value :=
  VObj [("type", VStr (c_type c)); ("text", VOptStr (c_text c))].

Definition call_result_value (r : option CallResult) : Value :=
  match r with
  | None => VUndefined
  | Some r =>
      VObj [("content",
             match content r with
             | Some items => VList (map content_value items)
             | None => VUndefined
             end)]
  end.

(** [validateAgainstSchema(toolTest.arguments, schema)] when the arguments
    may be missing: the first [field in data] then throws. *)
Definition validate_arguments (data : option (list (string * Json.t)))
  (schema : Schema) : M Validation :=
  match data with
  | Some fields => ret (validateAgainstSchema fields schema)
  | None =>
      match default [] (sc_required schema), default [] (sc_properties schema) with
      | field :: _, _ =>
          throw (TypeError ("Cannot use 'in' operator to search for '"
                            +:+ field +:+ "' in undefined"))
      | [], (fieldName, _) :: _ =>
          throw (TypeError ("Cannot use 'in' operator to search for '"
                            +:+ fieldName +:+ "' in undefined"))
      | [], [] => ret {| valid := true; errors := []; suggestions := [] |}
      end
  end.

Definition bump_totalAssertions (st : Framework) : Framework :=
  set_metrics
    {| startTime := startTime (metrics st);
       connectionAttempts := connectionAttempts (metrics st);
       totalTestsRun := totalTestsRun (metrics st);
       totalAssertions := totalAssertions (metrics st) + 1 |} st.

(** The assertion loop; [i] is the index of the first of [rest],
    [done] the [assertionResults] so far.  The [catch] block starts by
    reading [assertError.message]. *)
Fixpoint run_assertions (tool : string) (callResult : CallResult)
  (rest : list (CallResult -> Callback unit)) (i : Z) (done : list Value)
  : M (list Value) :=
  match rest with
  | [] => ret done
  | assertion :: rest' =>
      modify bump_totalAssertions ;;;
      try_await (await_callback (assertion callResult)) ret
        (fun thrown =>
           assertError <- read_error thrown ;;
           throw (MCPTestError
                    ("Assertion " +:+ Js.show_Z (i + 1) +:+ " failed: "
                     +:+ message assertError)
                    "ASSERTION_FAILED"
                    [("assertionIndex", VNum i); ("tool", VStr tool)])) ;;;
      run_assertions tool callResult rest' (i + 1)
        (done ++ [VObj [("index", VNum i); ("status", VStr "passed")]])%list
  end.

(** [generateResultPreview(callResult)] for a result whose [content] is an
    array. *)
Definition generateResultPreview (items : list ContentItem) : string :=
  match items with
  | [] => "No content"
  | firstContent :: _ =>
      if String.eqb (c_type firstContent) "text" then
        let text := default "" (c_text firstContent) in
        if (100 <? String.length text)%nat
        then String.substring 0 100 text +:+ "..."
        else text
      else c_type firstContent +:+ " content ("
           +:+ Js.show_Z (Z.of_nat (length items)) +:+ " items)"
  end.

(** The function [runEnhancedToolTest] hands to the executor. *)
Definition tool_test_fn (peer : Peer) (toolTest : ToolTest) : M Value :=
  tools <- await (listTools peer) ;;
  match find (fun t => String.eqb (tool_name t) (toolName toolTest)) tools with
  | None =>
      throw (MCPTestError
               ("Tool " +:+ quoted (toolName toolTest) +:+ " not found")
               "TOOL_NOT_FOUND"
               [("availableTools", VList (map (fun t => VStr (tool_name t)) tools))])
  | Some tool =>
      st <- get ;;
      match (if validateSchemas (options st) then inputSchema tool else None) with
      | Some schema =>
          validationResult <- validate_arguments (tt_arguments toolTest) schema ;;
          if valid validationResult then ret tt
          else
            throw (MCPTestError
                     (Js.join (newline +:+ "  ")
                        (["Invalid tool arguments:"] ++ errors validationResult
                         ++ [""; "Suggestions:"] ++ suggestions validationResult)%list)
                     "SCHEMA_VALIDATION_FAILED"
                     [("errors", VList (map VStr (errors validationResult)));
                      ("suggestions", VList (map VStr (suggestions validationResult)))])
      | None => ret tt
      end ;;;
      startTime <- Date_now ;;
      callResult <-
        try_catch
          (await (callTool peer (toolName toolTest)
                    (default [] (tt_arguments toolTest))))
          (fun toolError =>
             throw (MCPTestError
                      ("Tool execution failed: " +:+ message toolError)
                      "TOOL_EXECUTION_FAILED"
                      [("tool", VStr (toolName toolTest));
                       ("arguments", VArgs (tt_arguments toolTest));
                       ("error", VStr (message toolError))])) ;;
      t <- Date_now ;;
      let callDuration := t - startTime in
      let threshold := toolCallThreshold (options st) in
      (if threshold <? callDuration then
         log ("Tool " +:+ toolName toolTest +:+ " exceeded performance threshold: "
              +:+ Js.show_Z callDuration +:+ "ms > " +:+ Js.show_Z threshold +:+ "ms")
           Warning
       else ret tt) ;;;
      match callResult with
      | Some {| content := Some items; json_length := size |} =>
          let r := {| content := Some items; json_length := size |} in
          assertionResults <-
            run_assertions (toolName toolTest) r
              (default [] (assertions toolTest)) 0 [] ;;
          ret (VObj
            [("tool", VStr (toolName toolTest));
             ("arguments", VArgs (tt_arguments toolTest));
             ("duration", VNum callDuration);
             ("performance",
              VObj [("withinThreshold", VBool (callDuration <=? threshold));
                    ("threshold", VNum threshold)]);
             ("responseSize", VNum size);
             ("contentTypes", VList (map (fun c => VStr (c_type c)) items));
             ("assertionResults", VList assertionResults);
             ("resultPreview", VStr (generateResultPreview items))])
      | _ =>
          throw (MCPTestError "Invalid tool response structure" "INVALID_RESPONSE"
                   [("response", call_result_value callResult)])
      end
  end.

(** [runEnhancedToolTest(client, toolTest, result)].  The test name is
    built from [toolTest.toolName] before the executor is entered. *)
Definition runEnhancedToolTest (peer : Peer) (toolTest : Entry ToolTest) : M unit :=
  match toolTest with
  | NullItem =>
      throw (TypeError "Cannot read properties of null (reading 'toolName')")
  | Item t =>
      testResult <- executeTest ("Tool Test: " +:+ toolName t) (tool_test_fn peer t) ;;
      push_test testResult
  end.

Fixpoint run_tool_tests (peer : Peer) (tests : list (Entry ToolTest)) : M unit :=
  match tests with
  | [] => ret tt
  | toolTest :: rest => runEnhancedToolTest peer toolTest ;;; run_tool_tests peer rest
  end.

(** *** testServer *)

(** The [tests] argument of [testServer]. *)
Record Tests := {
  tests_name : option string;
  testDiscovery : option bool;
  testStability : option bool;
  testProtocolCompliance : bool;
  testPerformance : bool;
  testErrorHandling : bool;
  customTests : option (list (Entry CustomTest));
  toolTests : option (list (Entry ToolTest));
  transportTests : option (list (string * list (Entry CustomTest)));
}.

(** [x !== false] *)
Definition not_false (x : option bool) : bool :=
  match x with Some false => false | _ => true end.

Definition when (b : bool) (m : M unit) : M unit :=
  if b then m else ret tt.

Definition has_status (s : string) (t : TestResult) : bool :=
  String.eqb (t_status t) s.

(** First test of least duration and last test of greatest duration: the
    ends of the array after the stable sort by duration. *)
Fixpoint fastest (l : list TestResult) : option TestResult :=
  match l with
  | [] => None
  | t :: rest =>
      match fastest rest with
      | Some u => if t_duration t <=? t_duration u then Some t else Some u
      | None => Some t
      end
  end.

Fixpoint slowest (l : list TestResult) : option TestResult :=
  match l with
  | [] => None
  | t :: rest =>
      match slowest rest with
      | Some u => if t_duration u <? t_duration t then Some t else Some u
      | None => Some t
      end
  end.

Definition sum_durations (l : list TestResult) : Z :=
  fold_left (fun a t => a + t_duration t) l 0.

(** [calculateMetrics(result)]; [Math.round] of the quotient of two
    integers rounds half up. *)
Definition calculateMetrics (tests : list TestResult) : SuiteMetrics :=
  let n := Z.of_nat (length tests) in
  {| m_totalTests := length tests;
     m_passedTests := length (List.filter (has_status "passed") tests);
     m_failedTests := length (List.filter (has_status "failed") tests);
     m_avgTestDuration :=
       if (0 <? n) then (2 * sum_durations tests + n) / (2 * n) else 0;
     m_fastestTest := (fun t => (t_name t, t_duration t)) <$> fastest tests;
     m_slowestTest := (fun t => (t_name t, t_duration t)) <$> slowest tests |}.

Definition set_client (s : Session) (d : Draft) : Draft :=
  {| d_tests := d_tests d; d_status := d_status d; d_error := d_error d;
     d_client := Some s |}.

Definition set_status (s : string) (d : Draft) : Draft :=
  {| d_tests := d_tests d; d_status := Some s; d_error := d_error d;
     d_client := d_client d |}.

Definition set_error (e : JsError) (d : Draft) : Draft :=
  {| d_tests := d_tests d; d_status := d_status d;
     d_error := Some {| se_message := message e; se_code := code e;
                        se_details := details e |};
     d_client := d_client d |}.

(** The phases between connecting and [result.status = 'passed']. *)
Definition run_phases (peer : Peer) (m : Measured)
  (transportConfig : TransportConfig) (tests : Tests) : M unit :=
  when (not_false (testDiscovery tests)) (runDiscoveryTests peer) ;;;
  when (not_false (testStability tests)) (runStabilityTests m) ;;;
  when (testProtocolCompliance tests) (runProtocolComplianceTests peer) ;;;
  when (testPerformance tests) (runPerformanceTests m) ;;;
  when (testErrorHandling tests) (runErrorHandlingTests peer m) ;;;
  match customTests tests with
  | Some l => run_custom_tests l
  | None => ret tt
  end ;;;
  match toolTests tests with
  | Some l => run_tool_tests peer l
  | None => ret tt
  end ;;;
  match transportTests tests with
  | Some table =>
      match Json.assoc (Js.show_opt (type transportConfig)) table with
      | Some l => run_custom_tests l
      | None => ret tt
      end
  | None => ret tt
  end.

(** The [try] block. *)
Definition suite_body (peer : Peer) (m : Measured)
  (transportConfig : TransportConfig) (tests : Tests) : M unit :=
  connection <- connectToServer peer transportConfig ;;
  update_draft (set_client connection) ;;;
  run_phases peer m transportConfig tests ;;;
  update_draft (set_status "passed").

(** The [catch] block. *)
Definition suite_catch (error : JsError) : M unit :=
  update_draft (set_status "failed") ;;;
  update_draft (set_error error) ;;;
  log ("Test suite failed: " +:+ message error) ErrorLevel.

(** [if (client) { try { await client.close() } catch ... }] *)
Definition close_client (peer : Peer) : M unit :=
  st <- get ;;
  match d_client (draft st) with
  | Some c =>
      try_catch
        (modify (record_io (IoClose (client c))) ;;;
         await (close peer))
        (fun closeError =>
           log ("Error closing client: " +:+ message closeError) Warning)
  | None => ret tt
  end.

(** The [finally] block: close, complete the result, record it. *)
Definition suite_finally (peer : Peer) (transportConfig : TransportConfig)
  (tests : Tests) (start : Z) : M SuiteResult :=
  close_client peer ;;;
  endTime <- Date_now ;;
  st <- get ;;
  let result :=
    {| s_name := if Js.truthy_str (tests_name tests)
                 then default "" (tests_name tests) else "MCP Server Test";
       s_transport := type transportConfig;
       s_config := sanitizeConfig transportConfig;
       s_startTime := start;
       s_tests := d_tests (draft st);
       s_status := d_status (draft st);
       s_error := d_error (draft st);
       s_endTime := endTime;
       s_duration := endTime - start;
       s_metrics := calculateMetrics (d_tests (draft st)) |} in
  modify (push_result result) ;;;
  ret result.

(** [try { body } finally { cleanup }] followed by a statement that uses
    what the cleanup computed. *)
Definition try_finally_with {A C} (body : M A) (cleanup : M C) : M C :=
  fun st =>
    match body st with
    | (Hangs, st') => (Hangs, st')
    | (Return _, st') => cleanup st'
    | (Throw e, st') =>
        match cleanup st' with
        | (Return _, st'') => (Throw e, st'')
        | r => r
        end
    end.

(** [testServer(transportConfig, tests)] *)
Definition testServer (peer : Peer) (m : Measured)
  (transportConfig : TransportConfig) (tests : Tests) : M SuiteResult :=
  start <- Date_now ;;
  modify (set_draft empty_draft) ;;;
  try_finally_with
    (try_catch (suite_body peer m transportConfig tests) suite_catch)
    (suite_finally peer transportConfig tests start).

(** *** Reporting *)

Record Stats := { total : nat; passed : nat; failed : nat }.

Definition suite_has_status (s : string) (r : SuiteResult) : bool :=
  bool_decide (s_status r = Some s).

(** One iteration of the loop in [getTransportSummary].  For a name the
    table inherits, [summary[transport]] reads a built-in, which is
    truthy: no entry is created, and the counters are written to that
    built-in. *)
Definition summary_step (summary : gmap string Stats) (result : SuiteResult)
  : gmap string Stats :=
  let transport := Js.show_opt (s_transport result) in
  if Js.inherited transport then summary
  else
    let entry := default {| total := 0; passed := 0; failed := 0 |}
                   (summary !! transport) in
    <[transport :=
        if suite_has_status "passed" result
        then {| total := S (total entry); passed := S (passed entry);
                failed := failed entry |}
        else {| total := S (total entry); passed := passed entry;
                failed := S (failed entry) |}]> summary.

(** [getTransportSummary()] *)
Definition getTransportSummary (rs : list SuiteResult) : gmap string Stats :=
  fold_left summary_step rs ∅.

Record Summary := {
  sum_total : nat;
  sum_passed : nat;
  sum_failed : nat;
  byTransport : gmap string Stats;
  totalTests : nat;
  passedTests : nat;
  failedTests : nat;
}.

Definition count_tests (f : list TestResult -> nat) (rs : list SuiteResult) : nat :=
  fold_left (fun acc r => (acc + f (s_tests r))%nat) rs 0%nat.

Definition summarize (rs : list SuiteResult) : Summary :=
  {| sum_total := length rs;
     sum_passed := length (List.filter (suite_has_status "passed") rs);
     sum_failed := length (List.filter (suite_has_status "failed") rs);
     byTransport := getTransportSummary rs;
     totalTests := count_tests (fun ts => length ts) rs;
     passedTests :=
       count_tests (fun ts => length (List.filter (has_status "passed") ts)) rs;
     failedTests :=
       count_tests (fun ts => length (List.filter (has_status "failed") ts)) rs |}.

(** The report, without the [recommendations] array (advice derived from
    the results for display). *)
Record Report := {
  rep_timestamp : Z;
  rep_version : string;
  rep_duration : Z;
  rep_metrics : Metrics;
  rep_summary : Summary;
  rep_results : list SuiteResult;
}.

(** [generateReport()]; [save] is how writing the file settles. *)
Definition generateReport (save : Settle string) : M Report :=
  st <- get ;;
  let report :=
    {| rep_timestamp := now st;
       rep_version := "2.0.0";
       rep_duration := now st - startTime (metrics st);
       rep_metrics := metrics st;
       rep_summary := summarize (results st);
       rep_results := results st |} in
  try_catch
    (filepath <- await save ;;
     log ("Report saved to: " +:+ filepath) Success)
    (fun error => log ("Failed to save report: " +:+ message error) ErrorLevel) ;;;
  ret report.

(** [testServerMultiTransport(configs, tests)] *)
Fixpoint test_each (runs : list (Peer * Measured * TransportConfig)) (tests : Tests)
  : M unit :=
  match runs with
  | [] => ret tt
  | (peer, m, config) :: rest =>
      _ <- testServer peer m config tests ;;
      test_each rest tests
  end.

Definition testServerMultiTransport (runs : list (Peer * Measured * TransportConfig))
  (tests : Tests) (save : Settle string) : M Report :=
  test_each runs tests ;;;
  generateReport save.

(** *** The sort inside [calculateMetrics]

    [result.tests.filter(t => t.duration != null)
       .sort((a, b) => a.duration - b.duration)]: every recorded test has
    a duration, and [Array.prototype.sort] is stable, so the outcome is
    that of inserting the tests one by one, from the last to the first,
    each in front of the first test that does not have a smaller
    duration. *)

Fixpoint insert_by_duration (t : TestResult) (sorted : list TestResult)
  : list TestResult :=
  match sorted with
  | [] => [t]
  | u :: rest =>
      if t_duration t <=? t_duration u then t :: u :: rest
      else u :: insert_by_duration t rest
  end.

Definition sortedTests (tests : list TestResult) : list TestResult :=
  foldr insert_by_duration [] tests.

End Advanced.

Coercion Advanced.Settles : Advanced.Settle >-> Advanced.Callback.
Coercion Advanced.method : Advanced.M >-> Advanced.TestFn.


(** ** The earlier framework, [mcp-test-framework-advanced.js]

    Only the parts the properties below compare with the v2 framework:
    the executor, the discovery phase and the redaction. *)

Module Legacy.

Import Advanced.

(** [this.log(message, level)]: shown when verbose, or for errors. *)
Definition log (msg : string) (lv : Level) : M unit :=
  fun st =>
    let shown :=
      verbose (options st) ||
      match lv with ErrorLevel => true | _ => false end in
    (Return tt,
     if shown then
       {| options := options st; results := results st; metrics := metrics st;
          now := now st;
          console := (console st ++
                      [{| at_time := now st; level := lv; text := msg;
                          payload := None |}])%list;
          io := io st; draft := draft st |}
     else st).

(** The race against [new Error('Test timeout')]. *)
Definition race {A} (fn : TestFn A) : TestFn A :=
  fun st =>
    let T := timeout (options st) in
    match fn st with
    | (Pending, st') =>
        (Threw (ErrorObject (Error "Test timeout")), set_now (now st + T) st')
    | (r, st') =>
        if now st' - now st <=? T then (r, st')
        else (Threw (ErrorObject (Error "Test timeout")), set_now (now st + T) st')
    end.

(** [executeTest(name, fn)].  Here too the [catch] block starts by
    reading [error.message]. *)
Definition executeTest (name : string) (fn : TestFn Value) : M TestResult :=
  startTime <- Date_now ;;
  log ("Running test: " +:+ name) Info ;;;
  try_await (race fn)
    (fun result =>
       t <- Date_now ;;
       log (check_mark +:+ " " +:+ name +:+ " (" +:+ Js.show_Z (t - startTime) +:+ "ms)") Success ;;;
       ret {| t_name := name; t_startTime := startTime; t_status := "passed";
              t_result := Some result; t_error := None; t_errorCode := None;
              t_errorDetails := None; t_duration := t - startTime |})
    (fun thrown =>
       error <- read_error thrown ;;
       t <- Date_now ;;
       log (ballot_cross +:+ " " +:+ name +:+ ": " +:+ message error) ErrorLevel ;;;
       ret {| t_name := name; t_startTime := startTime; t_status := "failed";
              t_result := None; t_error := Some (message error);
              t_errorCode := None; t_errorDetails := None;
              t_duration := t - startTime |}).

(** [d?.substring(0, 100) + (d?.length > 100 ? '...' : '')] *)
Definition short_description (d : option string) : string :=
  match d with
  | Some s =>
      String.substring 0 100 s
      +:+ (if (100 <? String.length s)%nat then "..." else "")
  | None => "undefined"
  end.

Definition list_tools_fn (peer : Peer) : M Value :=
  tools <- await (listTools peer) ;;
  ret (VObj
    [("count", VNum (Z.of_nat (length tools)));
     ("tools",
      VList (map (fun t =>
                    VObj [("name", VStr (tool_name t));
                          ("description", VStr (short_description (tool_description t)))])
               tools))]).

(** The [catch] shared by the resources and prompts functions: a "Method
    not found" error becomes an empty answer, any other is thrown again. *)
Definition absent_or_rethrow (field note : string) (error : JsError) : M Value :=
  if Js.includes (message error) "Method not found" then
    ret (VObj [("count", VNum 0); (field, VList []); ("note", VStr note)])
  else throw error.

Definition list_resources_fn (peer : Peer) : M Value :=
  try_catch
    (resources <- await (listResources peer) ;;
     ret (VObj
       [("count", VNum (Z.of_nat (length resources)));
        ("resources",
         VList (map (fun r =>
                       VObj [("name", VOptStr (r_name r));
                             ("description", VStr (short_description (r_description r)))])
                  resources))]))
    (absent_or_rethrow "resources" "Server does not support resources").

Definition list_prompts_fn (peer : Peer) : M Value :=
  try_catch
    (prompts <- await (listPrompts peer) ;;
     ret (VObj
       [("count", VNum (Z.of_nat (length prompts)));
        ("prompts",
         VList (map (fun p =>
                       VObj [("name", VOptStr (p_name p));
                             ("description", VStr (short_description (p_description p)))])
                  prompts))]))
    (absent_or_rethrow "prompts" "Server does not support prompts").

Fixpoint run_tests (tests : list (string * M Value)) : M unit :=
  match tests with
  | [] => ret tt
  | (name, fn) :: rest =>
      testResult <- executeTest name fn ;;
      push_test testResult ;;;
      run_tests rest
  end.

(** [runDiscoveryTests(client, result)] *)
Definition runDiscoveryTests (peer : Peer) : M unit :=
  run_tests
    [("List Tools", list_tools_fn peer);
     ("List Resources", list_resources_fn peer);
     ("List Prompts", list_prompts_fn peer)].

(** [sanitizeConfig(config)]: only header names containing "auth" are
    masked.  The [reduce] fills its accumulator by assignment. *)
Definition safe_headers (h : gmap string string) : gmap string string :=
  map_fold
    (fun key value acc =>
       Js.assign key
         (if Js.includes (Js.toLowerCase key) "auth" then "***" else value) acc)
    ∅ h.

Definition sanitizeConfig (config : TransportConfig) : TransportConfig :=
  {| type := type config;
     command := command config;
     args := args config;
     env := env config;
     url := url config;
     headers := safe_headers <$> headers config;
     auth := if Js.truthy_str (auth config) then Some "***" else auth config |}.

End Legacy.
(** ** [verifyTransport] of lib/auto-detect-transport.js

    The function tries the two HTTP transports in turn, the suspected one
    first, and answers with the first that connects and closes.  The
    modules of the client library it requires are taken to load. *)

Module Verify.

Import Advanced.

(** The endpoint as the verifier meets it.  [ep_connect ty] is how
    building the transport [ty] and [client.connect(transport)] settles,
    [ep_close ty] how [client.close()] settles after it. *)
Record Endpoint := {
  ep_connect : string -> Settle unit;
  ep_close : string -> Settle unit;
}.

(** What the promise of [verifyTransport] comes to: a result, [null], or
    nothing when it never settles. *)
Inductive Answer :=
| Confirmed (r : Detect.DetectionResult)
| Null
| Unsettled.

(** The array [transports]. *)
Definition transports (suspectedTransport : string) : list string :=
  if String.eqb suspectedTransport "sse"
  then ["sse"; "streamableHttp"]
  else ["streamableHttp"; "sse"].

(** How one turn of the loop ends. *)
Inductive Turn :=
| Connected      (* the [return] is reached *)
| Caught         (* the [catch] takes over: [continue] *)
| Stuck.         (* [await client.close()] never settles *)

(** The [try] block for one transport: the connection races a 3000 ms
    timer; a connection made in time is closed, and a rejection of
    [close] is caught like any other error. *)
Definition try_transport (ep : Endpoint) (transportType : string) : Turn :=
  match ep_connect ep transportType with
  | Resolves _ d =>
      if d <=? 3000 then
        match ep_close ep transportType with
        | Resolves _ _ => Connected
        | Rejects _ _ => Caught
        | Never => Stuck
        end
      else Caught
  | Rejects _ _ => Caught
  | Never => Caught
  end.

(** The loop [for (const transportType of transports)]. *)
Fixpoint verify_loop (ep : Endpoint) (rest : list string) : Answer :=
  match rest with
  | [] => Null
  | transportType :: rest' =>
      match try_transport ep transportType with
      | Connected =>
          Confirmed {| Detect.transport := transportType;
                       Detect.confidence := 100;
                       Detect.reason := "Successfully connected and verified" |}
      | Caught => verify_loop ep rest'
      | Stuck => Unsettled
      end
  end.

(** [verifyTransport(url, suspectedTransport)] against the endpoint behind
    [url]. *)
Definition verifyTransport (ep : Endpoint) (suspectedTransport : string) : Answer :=
  verify_loop ep (transports suspectedTransport).

End Verify.

(** ** The command line of the v2 framework

    The block under [require.main === module]: how the arguments select
    the transport configuration and the phases, and how the report decides
    the exit status.  Arguments are strings of code units below 256.  The
    options [--timeout] and [--retry], which go through [parseInt], are
    left to the framework object the run is given, and the [auto] branch,
    which probes the endpoint first, is not part of this model. *)

Module Cli.

Import Advanced.

(** [args.includes(flag)] *)
Definition has_flag (argv : list string) (flag : string) : bool :=
  existsb (String.eqb flag) argv.

(** [args.length < 1 || args.includes('--help') || args.includes('-h')]:
    the usage text is printed and the process exits with status 0. *)
Definition usage_requested (argv : list string) : bool :=
  (length argv <? 1)%nat || has_flag argv "--help" || has_flag argv "-h".

(** [arg.startsWith(p)] *)
Definition startsWith (arg p : string) : bool := String.prefix p arg.

(** [args.slice(2).filter(arg => !arg.startsWith('--') &&
    arg !== transportConfig.command)], where the command is [args[1]]. *)
Definition stdio_args (argv : list string) : list string :=
  List.filter
    (fun arg => negb (startsWith arg "--")
                && negb (bool_decide (argv !! 1%nat = Some arg)))
    (drop 2 argv).

(** The character classes of the header pattern: [\s] (tab, line feed,
    vertical tab, form feed, carriage return, space, no-break space), and
    the line terminators that [.] leaves out. *)
Definition is_space (c : ascii) : bool :=
  let n := nat_of_ascii c in
  ((9 <=? n) && (n <=? 13) || (n =? 32) || (n =? 160))%nat.

Definition is_line_terminator (c : ascii) : bool :=
  let n := nat_of_ascii c in
  ((n =? 10) || (n =? 13))%nat.

(** [^([^:]+)]: the longest prefix without a colon, and what follows it. *)
Fixpoint span_no_colon (s : string) : string * string :=
  match s with
  | EmptyString => (EmptyString, EmptyString)
  | String c rest =>
      if Ascii.eqb c ":" then (EmptyString, s)
      else let '(k, r) := span_no_colon rest in (String c k, r)
  end.

(** [(.+)$] matches the whole of [s]. *)
Fixpoint no_line_terminator (s : string) : bool :=
  match s with
  | EmptyString => true
  | String c rest => negb (is_line_terminator c) && no_line_terminator rest
  end.

Definition dot_plus (s : string) : bool :=
  match s with
  | EmptyString => false
  | String _ _ => no_line_terminator s
  end.

(** [\s*(.+)$]: the capture.  [\s*] is greedy: the longest run of white
    space is tried first, and the pattern gives a character back only
    when the rest does not match. *)
Fixpoint value_after_spaces (s : string) : option string :=
  match s with
  | EmptyString => None
  | String c rest =>
      if is_space c then
        match value_after_spaces rest with
        | Some v => Some v
        | None => if dot_plus s then Some s else None
        end
      else if dot_plus s then Some s else None
  end.

(** [arg.match(/^([^:]+):\s*(.+)$/)]: the two captures. *)
Definition header_match (arg : string) : option (string * string) :=
  match span_no_colon arg with
  | (EmptyString, _) => None
  | (key, String _ rest) =>
      match value_after_spaces rest with
      | Some value => Some (key, value)
      | None => None
      end
  | (_, EmptyString) => None
  end.

(** [headers[key] = value] on an ordinary object: assigning a string to
    [__proto__] creates no property. *)
Definition set_header (key value : string) (headers : gmap string string)
  : gmap string string :=
  if String.eqb key "__proto__" then headers else <[key := value]> headers.

(** The loop over [args] from index 2; [rest] is what is left of the
    array from the loop variable on. *)
Fixpoint parse_headers (rest : list string) (headers : gmap string string)
  : gmap string string :=
  match rest with
  | [] => headers
  | arg :: rest' =>
      match rest' with
      | [] => headers
      | next :: rest'' =>
          if String.eqb arg "--header" then
            parse_headers rest''
              match header_match next with
              | Some (key, value) => set_header key value headers
              | None => headers
              end
          else if String.eqb arg "--auth" then
            parse_headers rest''
              (set_header "Authorization" ("Bearer " +:+ next) headers)
          else parse_headers rest' headers
      end
  end.

(** [transportConfig] as the branches for [stdio], [sse] and
    [streamableHttp] leave it; any other type but [auto] keeps
    [{ type }]. *)
Definition transport_config (argv : list string) : TransportConfig :=
  let transportType := argv !! 0%nat in
  if bool_decide (transportType = Some "stdio") then
    {| type := transportType; command := argv !! 1%nat;
       args := Some (stdio_args argv); env := None; url := None;
       headers := None; auth := None |}
  else if bool_decide (transportType = Some "sse")
          || bool_decide (transportType = Some "streamableHttp") then
    {| type := transportType; command := None; args := None; env := None;
       url := argv !! 1%nat;
       headers := Some (parse_headers (drop 2 argv) ∅); auth := None |}
  else
    {| type := transportType; command := None; args := None; env := None;
       url := None; headers := None; auth := None |}.

(** The object [tests] of the command line. *)
Definition cli_tests (argv : list string) : Tests :=
  {| tests_name := Some "MCP Server Comprehensive Test Suite";
     testDiscovery := Some true;
     testStability := Some true;
     testProtocolCompliance := has_flag argv "--compliance";
     testPerformance := has_flag argv "--performance";
     testErrorHandling := has_flag argv "--error-handling";
     customTests := None;
     toolTests := None;
     transportTests := None |}.

(** [report.summary.failed > 0 ? 1 : 0] *)
Definition exit_status (report : Report) : Z :=
  if (0 <? sum_failed (rep_summary report))%nat then 1 else 0.

(** The run for a transport type other than [auto], on the framework
    object made from the options: the usage text, or one suite, the
    report and the exit status; an error that escapes gives status 1.
    What [printSummary] and [console.error] print is left out. *)
Definition main (peer : Peer) (m : Measured) (argv : list string)
  (save : Settle string) : M Z :=
  if usage_requested argv then ret 0 else
  try_catch
    (_ <- testServer peer m (transport_config argv) (cli_tests argv) ;;
     report <- generateReport save ;;
     ret (exit_status report))
    (fun error => ret 1).

End Cli.


(** ** Specification-side definitions *)

Module Spec.

Import Advanced.

(** Text the messages of the validator are made of: a name or value
    between double quotes, and the literals of an enumeration, each in
    quotes, separated by a comma and a space. *)
Definition in_quotes (s : string) : string :=
  String (ascii_of_nat 34) (s +:+ String (ascii_of_nat 34) EmptyString).

Fixpoint alternatives (vs : list Json.t) : string :=
  match vs with
  | [] => ""
  | [v] => in_quotes (Json.to_string v)
  | v :: rest => in_quotes (Json.to_string v) +:+ ", " +:+ alternatives rest
  end.

(** A required field is missing when [field in data] does not find it:
    it is no own key of the argument object and none of the names the
    object inherits. *)
Definition missing (data : list (string * Json.t)) (field : string) : bool :=
  negb (Json.has_key field data) && negb (Js.inherited field).

Definition missing_fields (data : list (string * Json.t)) (schema : Schema)
  : list string :=
  List.filter (missing data) (default [] (sc_required schema)).

Definition declared (schema : Schema) (field : string) : option Schema :=
  sc_properties schema ≫= Json.assoc field.

(** The literal suggested for a field, by its declaration: the valid
    literals of an enumeration, else a placeholder by type. *)
Definition suggested_literal (p : Schema) : string :=
  match sc_enum p with
  | Some vs => "one of [" +:+ alternatives vs +:+ "]"
  | None =>
      if bool_decide (sc_type p = Some "string") then in_quotes "your-value"
      else if bool_decide (sc_type p = Some "number") then "123"
      else if bool_decide (sc_type p = Some "boolean") then "true"
      else "<" +:+ Js.show_opt (sc_type p) +:+ ">"
  end.

(** The annotation with the description, when there is one. *)
Definition annotation (p : Schema) : string :=
  match sc_description p with
  | Some d => if String.eqb d "" then "" else " // " +:+ d
  | None => ""
  end.

(** What the enumeration check reads for a declared property: the own
    value, or the built-in behind an inherited name. *)
Definition supplied (data : list (string * Json.t)) (field : string)
  : option Json.Reading :=
  match Json.assoc field data with
  | Some value => Some (Json.Own value)
  | None => if Js.inherited field then Some (Json.Inherited field) else None
  end.

(** A value read outside the enumeration its field declares: the error
    and the suggestion reported for it. *)
Definition enum_violation (data : list (string * Json.t))
  (entry : string * Schema) : option (string * string) :=
  match supplied data (fst entry), sc_enum (snd entry) with
  | Some value, Some vs =>
      if Json.array_includes_reading vs value then None
      else Some ("Invalid value for " +:+ fst entry +:+ ": "
                 +:+ in_quotes (Json.reading_text value),
                 "Use one of: " +:+ alternatives vs)
  | _, _ => None
  end.

Definition enum_violations (data : list (string * Json.t)) (schema : Schema)
  : list (string * string) :=
  omap (enum_violation data) (default [] (sc_properties schema)).

(** A property schema without what it says about nested objects and
    arrays, and a schema whose properties are all cut down like that. *)
Definition flat_property (p : Schema) : Schema :=
  {| sc_type := sc_type p; sc_enum := sc_enum p;
     sc_description := sc_description p;
     sc_required := None; sc_properties := None; sc_items := None |}.

Definition flat (schema : Schema) : Schema :=
  {| sc_type := sc_type schema; sc_enum := sc_enum schema;
     sc_description := sc_description schema;
     sc_required := sc_required schema;
     sc_properties :=
       map (fun e => (fst e, flat_property (snd e))) <$> sc_properties schema;
     sc_items := sc_items schema |}.

(** A header name is sensitive when it contains "auth", "token" or "key",
    letter case ignored. *)
Definition sensitive_name (key : string) : Prop :=
  Js.contains_ci key "auth" \/ Js.contains_ci key "token" \/ Js.contains_ci key "key".

(** The state in which [executeTest] invokes the test function: the
    counter is bumped and the "Running test" line is out. *)
Definition test_start (name : string) (st : Framework) : Framework :=
  snd ((modify bump_totalTestsRun ;;; log ("Running test: " +:+ name) Info) st).

(** A computation started in [st] does not complete within [T] ms: it
    never settles, or settles later than that. *)
Definition overruns {A} (fn : TestFn A) (st : Framework) (T : Z) : Prop :=
  fst (fn st) = Pending \/ T < now (snd (fn st)) - now st.

Definition completes {A} (fn : TestFn A) (st : Framework) (T : Z) : Prop :=
  fst (fn st) <> Pending /\ now (snd (fn st)) - now st <= T.


(** The delays a timer honours as they are given: from 1 ms to
    2^31 - 1 ms. *)
Definition timer_range (T : Z) : Prop := 1 <= T <= 2147483647.

(** The TypeError thrown by reading [message] from [null] or
    [undefined]. *)
Definition unreadable (v : Nullish) (E : JsError) : Prop :=
  err_name E = "TypeError" /\
  message E = "Cannot read properties of " +:+ nullish_text v
              +:+ " (reading 'message')" /\
  code E = None /\ details E = None.

(** What the Factory makes of a descriptor: the transport, or the error
    it fails with. *)
Definition transport_of (cfg : TransportConfig) : JsError + Transport :=
  match type cfg with
  | Some ty =>
      if String.eqb ty "stdio" then
        match command cfg with
        | Some c =>
            if String.eqb c "" then
              inl (MCPTestError
                     ("stdio transport requires " +:+ quoted "command" +:+ " parameter")
                     "INVALID_CONFIG" [])
            else inr (StdioClientTransport c (default [] (args cfg)) (env cfg))
        | None =>
            inl (MCPTestError
                   ("stdio transport requires " +:+ quoted "command" +:+ " parameter")
                   "INVALID_CONFIG" [])
        end
      else if String.eqb ty "sse" then
        match url cfg with
        | Some u =>
            if String.eqb u "" then
              inl (MCPTestError
                     ("SSE transport requires " +:+ quoted "url" +:+ " parameter")
                     "INVALID_CONFIG" [])
            else inr (SSEClientTransport u (default ∅ (headers cfg)))
        | None =>
            inl (MCPTestError
                   ("SSE transport requires " +:+ quoted "url" +:+ " parameter")
                   "INVALID_CONFIG" [])
        end
      else if String.eqb ty "streamableHttp" then
        match url cfg with
        | Some u =>
            if String.eqb u "" then
              inl (MCPTestError
                     ("streamableHttp transport requires " +:+ quoted "url"
                      +:+ " parameter")
                     "INVALID_CONFIG" [])
            else inr (StreamableHTTPClientTransport u (default ∅ (headers cfg)))
        | None =>
            inl (MCPTestError
                   ("streamableHttp transport requires " +:+ quoted "url"
                    +:+ " parameter")
                   "INVALID_CONFIG" [])
        end
      else inl (MCPTestError ("Unknown transport type: " +:+ ty) "INVALID_TRANSPORT" [])
  | None =>
      inl (MCPTestError "Unknown transport type: undefined" "INVALID_TRANSPORT" [])
  end.

(** The error the liveness check turns a failing [listTools] into. *)
Definition not_responding (label : string) (verifyError : JsError) : JsError :=
  ConnectionError "Connection established but server not responding correctly"
    label [("verifyError", VStr (message verifyError))].

(** The error connection attempt [i] ends with, when it fails: the
    Factory's, the one [connect] rejects with, or the connection error made
    of a failing liveness call.  [None] when the attempt succeeds or never
    settles. *)
Definition attempt_error (peer : Peer) (cfg : TransportConfig) (i : nat)
  : option JsError :=
  match transport_of cfg with
  | inl e => Some e
  | inr t =>
      match connect peer i t with
      | Rejects e _ => Some e
      | Never => None
      | Resolves _ _ =>
          match verify peer i with
          | Rejects e _ => Some (not_responding (transport_label cfg) e)
          | _ => None
          end
      end
  end.

(** The attempts on which [client.connect] was called, in order. *)
Definition connects (trace : list IoEvent) : list nat :=
  omap (fun ev => match ev with IoConnect i _ => Some i | _ => None end) trace.

(** The clients [close] was called on, in order. *)
Definition closes (trace : list IoEvent) : list nat :=
  omap (fun ev => match ev with IoClose c => Some c | _ => None end) trace.

(** What a stretch of connection management may change: it adds [k] to
    the attempt counter and calls [connect] on the attempts [cs]; options,
    recorded results, the running suite and the closed clients stay. *)
Definition frame (k : Z) (cs : list nat) (st st' : Framework) : Prop :=
  options st' = options st /\
  results st' = results st /\
  draft st' = draft st /\
  connectionAttempts (metrics st') = connectionAttempts (metrics st) + k /\
  connects (io st') = (connects (io st) ++ cs)%list /\
  closes (io st') = closes (io st).

(** The error [connectToServer] gives up with. *)
Definition gave_up (N : Z) (label : string) (lastError : option string) : JsError :=
  ConnectionError ("Failed to connect after " +:+ Js.show_Z N +:+ " attempts")
    label [("lastError", VOptStr lastError)].

(** A recorded test, and a recorded suite, carry one of the two statuses. *)
Definition wf_test (t : TestResult) : Prop :=
  t_status t = "passed" \/ t_status t = "failed".

Definition wf_suite (r : SuiteResult) : Prop :=
  (s_status r = Some "passed" \/ s_status r = Some "failed")
  /\ Forall wf_test (s_tests r).

(** What a test function may change: the clock, the console and the test
    and assertion counters. *)
Definition quiet (st st' : Framework) : Prop :=
  options st' = options st /\
  results st' = results st /\
  draft st' = draft st /\
  io st' = io st /\
  connectionAttempts (metrics st') = connectionAttempts (metrics st).

(** What a test phase may change besides: it appends tests, each with one
    of the two statuses, to the running suite. *)
Definition grows (st st' : Framework) : Prop :=
  options st' = options st /\
  results st' = results st /\
  io st' = io st /\
  connectionAttempts (metrics st') = connectionAttempts (metrics st) /\
  d_client (draft st') = d_client (draft st) /\
  d_status (draft st') = d_status (draft st) /\
  d_error (draft st') = d_error (draft st) /\
  exists l, d_tests (draft st') = (d_tests (draft st) ++ l)%list /\ Forall wf_test l.

(** [m] changes the state only within [R], and what it returns satisfies
    [Q]. *)
Definition obeys {A} (R : Framework -> Framework -> Prop) (Q : A -> Prop)
  (m : M A) : Prop :=
  forall st, R st (snd (m st)) /\ forall a, fst (m st) = Return a -> Q a.

Definition any {A} (a : A) : Prop := True.

(** A test function that changes the state only within [R]. *)
Definition keeps {A} (R : Framework -> Framework -> Prop) (fn : TestFn A)
  : Prop :=
  forall st, R st (snd (fn st)).

(** The state in which [testServer] starts connecting, and the one in
    which the phases start once [client] is assigned. *)
Definition suite_start (st : Framework) : Framework :=
  set_draft empty_draft st.

Definition session_start (s : Session) (st : Framework) : Framework :=
  set_draft (set_client s (draft st)) st.

Definition suite_error_of (e : JsError) : SuiteError :=
  {| se_message := message e; se_code := code e; se_details := details e |}.


(** The states a framework object goes through: created, then any number
    of suites and reports. *)
Inductive reachable : Framework -> Prop :=
| reach_new (o : UserOptions) (t : Z) : reachable (new_framework o t)
| reach_suite (st : Framework) (peer : Peer) (m : Measured)
    (cfg : TransportConfig) (tests : Tests) :
    reachable st -> reachable (snd (testServer peer m cfg tests st))
| reach_report (st : Framework) (save : Settle string) :
    reachable st -> reachable (snd (generateReport save st)).

(** The states of the object that [new MCPTestFrameworkAdvanced(o)] made
    at time [t]. *)
Inductive made_from (o : UserOptions) (t : Z) : Framework -> Prop :=
| made_new : made_from o t (new_framework o t)
| made_suite (st : Framework) (peer : Peer) (m : Measured)
    (cfg : TransportConfig) (tests : Tests) :
    made_from o t st -> made_from o t (snd (testServer peer m cfg tests st))
| made_report (st : Framework) (save : Settle string) :
    made_from o t st -> made_from o t (snd (generateReport save st)).

(** An entry of the per-transport table adds up. *)
Definition adds_up (s : Stats) : Prop := total s = (passed s + failed s)%nat.


(** *** Further specification-side definitions *)

(** What the metrics show of a test: its name and its duration. *)
Definition brief (t : TestResult) : string * Z := (t_name t, t_duration t).

Definition no_slower (a b : TestResult) : Prop := t_duration a <= t_duration b.

Definition lasts (d : Z) (t : TestResult) : bool := t_duration t =? d.

(** A transport the verifier can use: the connection is made within the
    3000 ms of the timer and the client closes; and one on which it stays
    stuck: the connection is made and [close] never settles. *)
Definition usable (ep : Verify.Endpoint) (ty : string) : Prop :=
  exists d c, Verify.ep_connect ep ty = Resolves tt d /\ d <= 3000
              /\ Verify.ep_close ep ty = Resolves tt c.

Definition stuck (ep : Verify.Endpoint) (ty : string) : Prop :=
  exists d, Verify.ep_connect ep ty = Resolves tt d /\ d <= 3000
            /\ Verify.ep_close ep ty = Never.

(** The transport tried first, and the other one. *)
Definition tried_first (suspectedTransport : string) : string :=
  if String.eqb suspectedTransport "sse" then "sse" else "streamableHttp".

Definition tried_second (suspectedTransport : string) : string :=
  if String.eqb suspectedTransport "sse" then "streamableHttp" else "sse".

(** What connection management does to the state, exactly: it adds [k]
    to the attempt counter, makes the calls [calls] on the client library
    and the timer, and lets [elapsed] ms go by; options, recorded results
    and the running suite stay. *)
Definition advances (k : Z) (calls : list IoEvent) (elapsed : Z)
  (st st' : Framework) : Prop :=
  options st' = options st /\
  results st' = results st /\
  draft st' = draft st /\
  connectionAttempts (metrics st') = connectionAttempts (metrics st) + k /\
  io st' = (io st ++ calls)%list /\
  now st' = now st + elapsed.

(** The time an awaited call takes to settle. *)
Definition settle_time {A} (s : Settle A) : Z :=
  match s with
  | Resolves _ d => d
  | Rejects _ d => d
  | Never => 0
  end.

(** The calls of the [try] block of attempt [i], and the time they take:
    [connect] unless the Factory refuses the descriptor, then the
    liveness [listTools] once connected. *)
Definition try_calls (peer : Peer) (cfg : TransportConfig) (i : nat)
  : list IoEvent :=
  match transport_of cfg with
  | inl _ => []
  | inr t =>
      IoConnect i t ::
      match connect peer i t with
      | Resolves _ _ => [IoVerify i]
      | _ => []
      end
  end.

Definition try_time (peer : Peer) (cfg : TransportConfig) (i : nat) : Z :=
  match transport_of cfg with
  | inl _ => 0
  | inr t =>
      settle_time (connect peer i t) +
      match connect peer i t with
      | Resolves _ _ => settle_time (verify peer i)
      | _ => 0
      end
  end.

(** The pause before attempt [i]: none before the first. *)
Definition pause_calls (delay : Z) (i : nat) : list IoEvent :=
  if (0 <? i)%nat then [IoSleep delay] else [].

Definition pause_time (delay : Z) (i : nat) : Z :=
  if (0 <? i)%nat then delay else 0.

(** The calls and the time of the attempts [is], one after the other. *)
Definition calls_of (peer : Peer) (cfg : TransportConfig) (delay : Z)
  (attempts : list nat) : list IoEvent :=
  concat (map (fun i => (pause_calls delay i ++ try_calls peer cfg i)%list) attempts).

Definition time_of (peer : Peer) (cfg : TransportConfig) (delay : Z)
  (attempts : list nat) : Z :=
  foldr (fun i acc => pause_time delay i + try_time peer cfg i + acc) 0 attempts.

(** The session attempt [i] establishes, when both [connect] and the
    liveness call resolve. *)
Definition attempt_session (peer : Peer) (cfg : TransportConfig) (i : nat)
  : option Session :=
  match transport_of cfg with
  | inl _ => None
  | inr t =>
      match connect peer i t, verify peer i with
      | Resolves _ _, Resolves _ _ => Some {| client := i; transport := t |}
      | _, _ => None
      end
  end.

(** Attempt [i] never ends: [connect], or the liveness call after it,
    never settles. *)
Definition attempt_pending (peer : Peer) (cfg : TransportConfig) (i : nat) : Prop :=
  attempt_error peer cfg i = None /\ attempt_session peer cfg i = None.


(** A computation that always returns, and one that always ends (it
    returns or throws). *)
Definition returns {A} (m : M A) : Prop :=
  forall st, exists a st', m st = (Return a, st').

Definition ends {A} (m : M A) : Prop :=
  forall st, fst (m st) <> Hangs.

(** A client library whose [connect], liveness [listTools] and [close]
    always settle. *)
Definition responsive (peer : Peer) : Prop :=
  (forall i t, connect peer i t <> Never) /\
  (forall i, verify peer i <> Never) /\
  close peer <> Never.

(** The arrays of custom tests and tool tests hold objects only. *)
Definition is_item {A} (e : Entry A) : Prop :=
  match e with
  | Item _ => True
  | NullItem => False
  end.

Definition entries_are_objects (cfg : TransportConfig) (tests : Tests) : Prop :=
  Forall is_item (default [] (customTests tests)) /\
  Forall is_item (default [] (toolTests tests)) /\
  Forall is_item
    (default [] (transportTests tests ≫= Json.assoc (Js.show_opt (type cfg)))).

(** The custom tests that run for [cfg] throw, or reject with, Error
    objects only: never [null] or [undefined]. *)
Definition throws_errors (e : Entry CustomTest) : Prop :=
  match e with
  | Item t => forall v d, ct_fn t <> RejectsWith v d
  | NullItem => True
  end.

Definition custom_tests_throw_errors (cfg : TransportConfig) (tests : Tests)
  : Prop :=
  Forall throws_errors (default [] (customTests tests)) /\
  Forall throws_errors
    (default [] (transportTests tests ≫= Json.assoc (Js.show_opt (type cfg)))).

(** A suite result as [testServer] completes it for the configuration
    [cfg], started at [start]. *)
Definition completed (cfg : TransportConfig) (start : Z) (r : SuiteResult) : Prop :=
  s_transport r = type cfg /\
  s_config r = sanitizeConfig cfg /\
  s_startTime r = start /\
  s_duration r = s_endTime r - s_startTime r /\
  s_metrics r = calculateMetrics (s_tests r).

(** A header map, and a configuration, that show no sensitive value. *)
Definition headers_masked (h : gmap string string) : Prop :=
  forall key value, h !! key = Some value -> sensitive_name key -> value = REDACTED.

Definition config_masked (c : TransportConfig) : Prop :=
  (forall h, headers c = Some h -> headers_masked h) /\
  (auth c = None \/ auth c = Some "" \/ auth c = Some REDACTED).

(** The suite results recorded under one key of the per-transport table,
    and their tally: every result that is not passed counts as failed. *)
Definition of_transport (key : string) (r : SuiteResult) : bool :=
  String.eqb (Js.show_opt (s_transport r)) key.

Definition tally (rs : list SuiteResult) : Stats :=
  {| total := length rs;
     passed := length (List.filter (suite_has_status "passed") rs);
     failed := length (List.filter (fun r => negb (suite_has_status "passed" r)) rs) |}.

(** An assertion that holds of a tool result: it resolves. *)
Definition holds (r : CallResult) (assertion : CallResult -> Callback unit) : Prop :=
  exists d, assertion r = Resolves tt d.

(** The [assertionResults] of [n] assertions passed from index [i] on. *)
Fixpoint passed_from (i : Z) (n : nat) : list Value :=
  match n with
  | O => []
  | S n' => VObj [("index", VNum i); ("status", VStr "passed")] :: passed_from (i + 1) n'
  end.

(** The error of the first assertion that fails, at index [i]. *)
Definition assertion_failed (tool : string) (i : Z) (assertError : JsError) : JsError :=
  MCPTestError
    ("Assertion " +:+ Js.show_Z (i + 1) +:+ " failed: " +:+ message assertError)
    "ASSERTION_FAILED" [("assertionIndex", VNum i); ("tool", VStr tool)].

(** The tool a tool test names, among the tools the server lists. *)
Definition named_tool (toolTest : ToolTest) (tools : list Tool) : option Tool :=
  find (fun t => String.eqb (tool_name t) (toolName toolTest)) tools.

(** The arguments of a tool test are accepted by a schema: the validator
    finds them valid; without arguments, the schema has nothing to ask. *)
Definition accepted (toolTest : ToolTest) (schema : Schema) : Prop :=
  match tt_arguments toolTest with
  | Some fields => valid (validateAgainstSchema fields schema) = true
  | None => default [] (sc_required schema) = []
            /\ default [] (sc_properties schema) = []
  end.

(** A property of every character of a string. *)
Fixpoint all_chars (p : ascii -> bool) (s : string) : bool :=
  match s with
  | EmptyString => true
  | String c rest => p c && all_chars p rest
  end.

Definition not_colon (c : ascii) : bool := negb (Ascii.eqb c ":").

(** The first character of a string, if any, is no white space. *)
Definition starts_without_space (s : string) : bool :=
  match s with
  | EmptyString => true
  | String c _ => negb (Cli.is_space c)
  end.

(** The state in which the earlier executor invokes the test function:
    the "Running test" line is out. *)
Definition legacy_test_start (name : string) (st : Framework) : Framework :=
  snd (Legacy.log ("Running test: " +:+ name) Info st).


End Spec.


(** ** Example data *)

(** A runtime for the examples: the strings that start with one of the
    schemes below parse (for [new URL] the text "localhost:3000/mcp" is a
    URL with the scheme "localhost"), and no body is valid JSON. *)
Definition example_URL_parse (url : string) : option string :=
  if String.prefix "https://" url then Some "https:"
  else if String.prefix "http://" url then Some "http:"
  else if String.prefix "ftp://" url then Some "ftp:"
  else if String.prefix "localhost:" url then Some "localhost:"
  else None.

Definition example_JSON_parse (b : string) : option Json.t := None.

(** The auto-detect scenario: HTTP 406 with a body that mentions
    "text/event-stream". *)
Definition response_406 : Detect.Response :=
  {| Detect.statusCode := 406; Detect.headers := ∅ |}.

Definition events_406 : list Detect.Event :=
  [Detect.EvResponse response_406;
   Detect.EvData "Not Acceptable: Client must accept text/event-stream"].

(** The schema of the validation example: a required field [output] with
    the enumeration [json, yaml]. *)
Definition output_property : Advanced.Schema :=
  {| Advanced.sc_type := Some "string";
     Advanced.sc_enum := Some [Json.Str "json"; Json.Str "yaml"];
     Advanced.sc_description := None;
     Advanced.sc_required := None;
     Advanced.sc_properties := None;
     Advanced.sc_items := None |}.

Definition output_schema : Advanced.Schema :=
  {| Advanced.sc_type := Some "object";
     Advanced.sc_enum := None;
     Advanced.sc_description := None;
     Advanced.sc_required := Some ["output"];
     Advanced.sc_properties := Some [("output", output_property)];
     Advanced.sc_items := None |}.

(** A schema that requires a field by the name of a method every object
    has. *)
Definition constructor_schema : Advanced.Schema :=
  {| Advanced.sc_type := Some "object";
     Advanced.sc_enum := None;
     Advanced.sc_description := None;
     Advanced.sc_required := Some ["constructor"];
     Advanced.sc_properties := None;
     Advanced.sc_items := None |}.

(** An HTTP configuration with a bearer header, an API key header, a
    harmless header and a top-level token. *)
Definition secret_headers : gmap string string :=
  <["Authorization" := "Bearer xyz"]>
    (<["X-API-Key" := "k-123"]> (<["Accept" := "application/json"]> ∅)).

Definition secret_config : Advanced.TransportConfig :=
  {| Advanced.type := Some "streamableHttp";
     Advanced.command := None;
     Advanced.args := None;
     Advanced.env := None;
     Advanced.url := Some "http://localhost:3000/mcp";
     Advanced.headers := Some secret_headers;
     Advanced.auth := Some "s3cret" |}.

(** Headers as [JSON.parse] gives them for a text with a [__proto__]
    key. *)
Definition proto_headers : gmap string string :=
  <["__proto__" := "x"]> (<["Accept" := "application/json"]> ∅).

Definition proto_config : Advanced.TransportConfig :=
  {| Advanced.type := Some "streamableHttp";
     Advanced.command := None;
     Advanced.args := None;
     Advanced.env := None;
     Advanced.url := Some "http://localhost:3000/mcp";
     Advanced.headers := Some proto_headers;
     Advanced.auth := None |}.

(** A framework with two retries and a short delay, created at time 0,
    and one with a 100 ms test timeout. *)
Definition no_user_options : Advanced.UserOptions :=
  {| Advanced.u_verbose := None; Advanced.u_timeout := None;
     Advanced.u_outputDir := None; Advanced.u_retryAttempts := None;
     Advanced.u_retryDelay := None; Advanced.u_validateSchemas := None;
     Advanced.u_thresholds := None |}.

Definition framework_retry2 : Advanced.Framework :=
  Advanced.new_framework
    {| Advanced.u_verbose := None; Advanced.u_timeout := None;
       Advanced.u_outputDir := None; Advanced.u_retryAttempts := Some 2;
       Advanced.u_retryDelay := Some 500; Advanced.u_validateSchemas := None;
       Advanced.u_thresholds := None |} 0.

Definition framework_timeout100 : Advanced.Framework :=
  Advanced.new_framework
    {| Advanced.u_verbose := None; Advanced.u_timeout := Some 100;
       Advanced.u_outputDir := None; Advanced.u_retryAttempts := None;
       Advanced.u_retryDelay := None; Advanced.u_validateSchemas := None;
       Advanced.u_thresholds := None |} 0.

Definition framework_default : Advanced.Framework :=
  Advanced.new_framework no_user_options 0.

(** A server nobody listens on: every [connect] is refused. *)
Definition unreachable_peer : Advanced.Peer :=
  {| Advanced.connect := fun _ _ =>
       Advanced.Rejects (Advanced.Error "connect ECONNREFUSED 127.0.0.1:9999") 3;
     Advanced.verify := fun _ => Advanced.Never;
     Advanced.listTools := Advanced.Never;
     Advanced.listResources := Advanced.Never;
     Advanced.listPrompts := Advanced.Never;
     Advanced.callTool := fun _ _ => Advanced.Never;
     Advanced.close := Advanced.Never |}.


(** An event-stream descriptor without its URL. *)
Definition sse_without_url : Advanced.TransportConfig :=
  {| Advanced.type := Some "sse";
     Advanced.command := None; Advanced.args := None; Advanced.env := None;
     Advanced.url := None; Advanced.headers := None; Advanced.auth := None |}.

Definition silent_measured : Advanced.Measured :=
  {| Advanced.rapid_sequential := Advanced.Resolves (Advanced.VObj []) 40;
     Advanced.concurrent_requests := Advanced.Resolves (Advanced.VObj []) 12;
     Advanced.memory_stability := Advanced.Resolves (Advanced.VObj []) 90;
     Advanced.discovery_performance := Advanced.Resolves (Advanced.VObj []) 20;
     Advanced.concurrent_handling := Advanced.Resolves (Advanced.VObj []) 15;
     Advanced.malformed_arguments := Advanced.Resolves (Advanced.VObj []) 5 |}.

(** The empty [tests] object: discovery and stability run by default. *)
Definition no_tests : Advanced.Tests :=
  {| Advanced.tests_name := None;
     Advanced.testDiscovery := None;
     Advanced.testStability := None;
     Advanced.testProtocolCompliance := false;
     Advanced.testPerformance := false;
     Advanced.testErrorHandling := false;
     Advanced.customTests := None;
     Advanced.toolTests := None;
     Advanced.transportTests := None |}.

(** A server with the tools [add] and [multiply] and neither resources
    nor prompts: it rejects both listings with "Method not found". *)
Definition method_not_found : Advanced.JsError :=
  Advanced.Error "MCP error -32601: Method not found".

Definition add_tool : Advanced.Tool :=
  {| Advanced.tool_name := "add";
     Advanced.tool_description := Some "Add two numbers";
     Advanced.inputSchema := None |}.

Definition multiply_tool : Advanced.Tool :=
  {| Advanced.tool_name := "multiply";
     Advanced.tool_description := Some "Multiply two numbers";
     Advanced.inputSchema := None |}.

Definition tools_only_peer : Advanced.Peer :=
  {| Advanced.connect := fun _ _ => Advanced.Resolves tt 8;
     Advanced.verify := fun _ => Advanced.Resolves [add_tool; multiply_tool] 2;
     Advanced.listTools := Advanced.Resolves [add_tool; multiply_tool] 2;
     Advanced.listResources := Advanced.Rejects method_not_found 1;
     Advanced.listPrompts := Advanced.Rejects method_not_found 1;
     Advanced.callTool := fun _ _ => Advanced.Rejects (Advanced.Error "Unknown tool") 1;
     Advanced.close := Advanced.Resolves tt 1 |}.

Definition stdio_config : Advanced.TransportConfig :=
  {| Advanced.type := Some "stdio";
     Advanced.command := Some "node"; Advanced.args := Some ["./server.js"];
     Advanced.env := None; Advanced.url := None;
     Advanced.headers := None; Advanced.auth := None |}.

(** Custom tests with a [null] in the middle of the array, and no other
    phase. *)
Definition broken_tests : Advanced.Tests :=
  {| Advanced.tests_name := Some "Broken suite";
     Advanced.testDiscovery := Some false;
     Advanced.testStability := Some false;
     Advanced.testProtocolCompliance := false;
     Advanced.testPerformance := false;
     Advanced.testErrorHandling := false;
     Advanced.customTests :=
       Some [Advanced.Item {| Advanced.ct_name := "first";
                              Advanced.ct_fn := Advanced.Resolves (Advanced.VBool true) 4 |};
             Advanced.NullItem;
             Advanced.Item {| Advanced.ct_name := "third";
                              Advanced.ct_fn := Advanced.Resolves (Advanced.VBool true) 4 |}];
     Advanced.toolTests := None;
     Advanced.transportTests := None |}.

(** What a recorded test shows of itself in the examples. *)
Definition outline (t : Advanced.TestResult) : string * string * option string :=
  (Advanced.t_name t, Advanced.t_status t, Advanced.t_error t).

(** The [count] a test reported. *)
Definition reported_count (t : Advanced.TestResult) : option Advanced.Value :=
  match Advanced.t_result t with
  | Some (Advanced.VObj fields) => Json.assoc "count" fields
  | _ => None
  end.

Definition stdio_session : Advanced.Session :=
  {| Advanced.client := 0%nat;
     Advanced.transport :=
       Advanced.StdioClientTransport "node" ["./server.js"] None |}.

(** The state after the default suite against that server. *)
Definition tools_only_run : Advanced.Framework :=
  snd (Advanced.testServer tools_only_peer silent_measured stdio_config
         no_tests framework_default).

Definition report_saved : Advanced.Settle string :=
  Advanced.Resolves "./test-results/mcp-test-report-1.json" 2.

(** Four recorded tests, two of them equally fast and two equally slow. *)
Definition recorded (name status : string) (duration : Z) : Advanced.TestResult :=
  {| Advanced.t_name := name; Advanced.t_startTime := 0;
     Advanced.t_status := status; Advanced.t_result := None;
     Advanced.t_error := None; Advanced.t_errorCode := None;
     Advanced.t_errorDetails := None; Advanced.t_duration := duration |}.

Definition four_tests : list Advanced.TestResult :=
  [recorded "a" "passed" 12; recorded "b" "failed" 5;
   recorded "c" "passed" 12; recorded "d" "passed" 5].

(** A long text content item. *)
Definition long_text : string :=
  "0123456789012345678901234567890123456789012345678901234567890123456789012345678901234567890123456789-and-more".

Definition long_item : Advanced.ContentItem :=
  {| Advanced.c_type := "text"; Advanced.c_text := Some long_text |}.

(** A server that refuses the first connection and accepts the next. *)
Definition flaky_peer : Advanced.Peer :=
  {| Advanced.connect := fun i _ =>
       if (i =? 0)%nat
       then Advanced.Rejects (Advanced.Error "connect ECONNREFUSED 127.0.0.1:3000") 3
       else Advanced.Resolves tt 8;
     Advanced.verify := fun _ => Advanced.Resolves [add_tool] 2;
     Advanced.listTools := Advanced.Resolves [add_tool] 2;
     Advanced.listResources := Advanced.Resolves [] 1;
     Advanced.listPrompts := Advanced.Resolves [] 1;
     Advanced.callTool := fun _ _ => Advanced.Rejects (Advanced.Error "Unknown tool") 1;
     Advanced.close := Advanced.Resolves tt 1 |}.


(** A server that takes the connection and never answers. *)
Definition mute_peer : Advanced.Peer :=
  {| Advanced.connect := fun _ _ => Advanced.Never;
     Advanced.verify := fun _ => Advanced.Never;
     Advanced.listTools := Advanced.Never;
     Advanced.listResources := Advanced.Never;
     Advanced.listPrompts := Advanced.Never;
     Advanced.callTool := fun _ _ => Advanced.Never;
     Advanced.close := Advanced.Never |}.

(** A server with one tool, [export], whose input schema is the one of
    the validation example. *)
Definition export_tool : Advanced.Tool :=
  {| Advanced.tool_name := "export";
     Advanced.tool_description := Some "Export the project";
     Advanced.inputSchema := Some output_schema |}.

Definition export_result : Advanced.CallResult :=
  {| Advanced.content :=
       Some [{| Advanced.c_type := "text"; Advanced.c_text := Some "exported" |}];
     Advanced.json_length := 47 |}.

Definition export_peer : Advanced.Peer :=
  {| Advanced.connect := fun _ _ => Advanced.Resolves tt 8;
     Advanced.verify := fun _ => Advanced.Resolves [export_tool] 2;
     Advanced.listTools := Advanced.Resolves [export_tool] 2;
     Advanced.listResources := Advanced.Resolves [] 1;
     Advanced.listPrompts := Advanced.Resolves [] 1;
     Advanced.callTool := fun name _ =>
       if String.eqb name "export"
       then Advanced.Resolves (Some export_result) 7
       else Advanced.Rejects (Advanced.Error "Unknown tool") 1;
     Advanced.close := Advanced.Resolves tt 1 |}.

(** A tool test of [export] with the given output format and one
    assertion that holds. *)
Definition export_test (output : string) : Advanced.ToolTest :=
  {| Advanced.toolName := "export";
     Advanced.tt_arguments := Some [("output", Json.Str output)];
     Advanced.assertions := Some [fun _ => Advanced.Settles (Advanced.Resolves tt 0)] |}.

(** A command line, and an endpoint that speaks streamable HTTP only. *)
Definition stdio_argv : list string := ["stdio"; "node"; "./server.js"; "--verbose"].

Definition http_only : Verify.Endpoint :=
  {| Verify.ep_connect := fun ty =>
       if String.eqb ty "sse"
       then Advanced.Rejects (Advanced.Error "SSE error: Non-200 status code (405)") 40
       else Advanced.Resolves tt 25;
     Verify.ep_close := fun _ => Advanced.Resolves tt 2 |}.

(** The state after the default suite against the tools-only server,
    reached through a configuration that carries secrets. *)
Definition secret_run : Advanced.Framework :=
  snd (Advanced.testServer tools_only_peer silent_measured secret_config
         no_tests framework_default).


(** One custom test, which rejects with [null] after 5 ms, and no other
    phase. *)
Definition null_rejecting_tests : Advanced.Tests :=
  {| Advanced.tests_name := Some "Rejecting suite";
     Advanced.testDiscovery := Some false;
     Advanced.testStability := Some false;
     Advanced.testProtocolCompliance := false;
     Advanced.testPerformance := false;
     Advanced.testErrorHandling := false;
     Advanced.customTests :=
       Some [Advanced.Item
               {| Advanced.ct_name := "Custom check";
                  Advanced.ct_fn := Advanced.RejectsWith Advanced.JsNull 5 |}];
     Advanced.toolTests := None;
     Advanced.transportTests := None |}.

(** * Properties *)

(** *** Facts about [includes] and [toLowerCase] *)

Lemma prefix_true_iff (p s : string) :
  String.prefix p s = true <-> exists suf, s = p +:+ suf.
Proof.
  revert s. induction p as [|c p IH]; intros s.
  - split; [intros _; exists s; reflexivity | intros _; destruct s; reflexivity].
  - destruct s as [|d s]; simpl.
    + split; [discriminate | intros [suf H]; discriminate].
    + destruct (Ascii.ascii_dec c d) as [->|Hne].
      * rewrite IH. split; intros [suf H]; exists suf.
        -- now rewrite H.
        -- now inversion H.
      * split; [discriminate | intros [suf H]; inversion H; congruence].
Qed.

Lemma includes_contains (hay needle : string) :
  Js.includes hay needle = true <-> Js.contains hay needle.
Proof.
  unfold Js.contains. induction hay as [|c hay IH].
  - cbn [Js.includes]. rewrite orb_false_r, prefix_true_iff. split.
    + intros [suf H]. exists "", suf. exact H.
    + intros [pre [suf H]]. destruct pre; simpl in H.
      * exists suf. exact H.
      * discriminate.
  - cbn [Js.includes]. rewrite orb_true_iff, prefix_true_iff, IH. split.
    + intros [[suf H]|[pre [suf H]]].
      * exists "", suf. exact H.
      * exists (String c pre), suf. simpl. now rewrite H.
    + intros [pre [suf H]]. destruct pre as [|d pre]; simpl in H.
      * left. exists suf. exact H.
      * right. exists pre, suf. now inversion H.
Qed.

Lemma toLowerCase_app (a b : string) :
  Js.toLowerCase (a +:+ b) = Js.toLowerCase a +:+ Js.toLowerCase b.
Proof. induction a as [|c a IH]; simpl; [reflexivity | now rewrite IH]. Qed.

(** Splitting a lower-cased string splits the original one. *)
Lemma toLowerCase_split (s a b : string) :
  Js.toLowerCase s = a +:+ b ->
  exists sa sb, s = sa +:+ sb /\ Js.toLowerCase sa = a /\ Js.toLowerCase sb = b.
Proof.
  revert s. induction a as [|c a IH]; intros s H.
  - exists "", s. simpl in *. auto.
  - destruct s as [|d s]; simpl in H; [discriminate|].
    inversion H as [[Hc Hs]]. destruct (IH _ Hs) as (sa & sb & -> & Ha & Hb).
    exists (String d sa), sb. simpl. rewrite Ha, Hb. auto.
Qed.

(** The test the code performs, [key.toLowerCase().includes(word)] for a
    lower-case [word], is exactly case-insensitive containment. *)
Lemma includes_lower_contains_ci (key word : string) :
  Js.toLowerCase word = word ->
  Js.includes (Js.toLowerCase key) word = true <-> Js.contains_ci key word.
Proof.
  intros Hw. rewrite includes_contains. unfold Js.contains, Js.contains_ci. split.
  - intros (pre & suf & H).
    destruct (toLowerCase_split _ _ _ H) as (sp & rest & -> & Hp & Hrest).
    destruct (toLowerCase_split _ _ _ Hrest) as (sm & ss & -> & Hm & Hs).
    exists sp, sm, ss. split; [reflexivity|]. now rewrite Hw.
  - intros (pre & mid & suf & -> & Hmid).
    exists (Js.toLowerCase pre), (Js.toLowerCase suf).
    rewrite !toLowerCase_app, Hmid, Hw. reflexivity.
Qed.


(** ** The transport prober *)

Section DetectProperties.

Import Detect.

Variable URL_parse : string -> option string.
Variable JSON_parse : string -> option Json.t.

Local Abbreviation analyze := (Detect.analyze JSON_parse).
Local Abbreviation handle := (Detect.handle JSON_parse).
Local Abbreviation run := (Detect.run JSON_parse).
Local Abbreviation detectTransport := (Detect.detectTransport URL_parse JSON_parse).

Lemma resolve_settles (r : DetectionResult) (p : Probe) :
  settled p = None -> settled (resolve r p) = Some r.
Proof. unfold resolve. intros ->. reflexivity. Qed.

Lemma resolve_keeps (r r0 : DetectionResult) (p : Probe) :
  settled p = Some r0 -> settled (resolve r p) = Some r0.
Proof. unfold resolve. intros H. rewrite H. exact H. Qed.

(** A settled promise stays as it is, whatever arrives later. *)
Lemma handle_keeps (p : Probe) (ev : Event) (r0 : DetectionResult) :
  settled p = Some r0 -> settled (handle p ev) = Some r0.
Proof.
  intros H. destruct ev; simpl; try assumption;
    try (destruct (res p); [|assumption]); simpl;
    try assumption; try (apply resolve_keeps; assumption).
Qed.

Lemma handles_keep (evs : list Event) (p : Probe) (r0 : DetectionResult) :
  settled p = Some r0 -> settled (fold_left handle evs p) = Some r0.
Proof.
  revert p. induction evs as [|ev evs IH]; intros p H; simpl; [assumption|].
  apply IH, handle_keeps, H.
Qed.

Lemma request_made_iff (protocol : string) :
  request_made protocol = true <-> protocol = "https:" \/ protocol = "http:".
Proof.
  unfold request_made. rewrite orb_true_iff, !String.eqb_eq. reflexivity.
Qed.

(** When the request call throws, no event is handled. *)
Lemma run_refused (protocol : string) (evs : list Event) :
  request_made protocol = false -> run protocol evs = start protocol.
Proof. unfold Detect.run. intros ->. reflexivity. Qed.

Lemma response_means_request (protocol : string) (evs : list Event) (r : Response) :
  res (run protocol evs) = Some r -> request_made protocol = true.
Proof.
  destruct (request_made protocol) eqn:E; [reflexivity|].
  rewrite (run_refused _ _ E). discriminate.
Qed.

Lemma run_app (protocol : string) (pre : list Event) (ev : Event) (post : list Event) :
  request_made protocol = true ->
  run protocol (pre ++ ev :: post)%list
  = fold_left handle post (handle (run protocol pre) ev).
Proof. unfold Detect.run. intros ->. rewrite fold_left_app. reflexivity. Qed.

(** A failure event met by a pending promise settles it as "unknown". *)
Lemma handle_failure (p : Probe) (ev : Event) (why : string) :
  settled p = None -> failure_reason p ev = Some why ->
  settled (handle p ev) = Some (unknown why).
Proof.
  intros Hp Hf. destruct ev; simpl in *; try discriminate.
  - destruct (res p); [|discriminate]. injection Hf as <-.
    now apply resolve_settles.
  - injection Hf as <-. now apply resolve_settles.
  - injection Hf as <-. now apply resolve_settles.
Qed.

Lemma handle_end (p : Probe) (r : Response) :
  settled p = None -> res p = Some r ->
  settled (handle p EvEnd) = Some (analyze r (body p)).
Proof. intros Hp Hr. simpl. rewrite Hr. now apply resolve_settles. Qed.

Lemma detect_resolved (url protocol : string) (evs : list Event) (r : DetectionResult) :
  URL_parse url = Some protocol ->
  request_made protocol = true ->
  settled (run protocol evs) = Some r ->
  detectTransport url evs = Resolved r.
Proof. unfold Detect.detectTransport. intros -> -> ->. reflexivity. Qed.

(** A string the URL constructor refuses makes the call reject before any
    request is made. *)
Lemma detectTransport_bad_url (url : string) (evs : list Event) :
  URL_parse url = None -> detectTransport url evs = Rejected "TypeError".
Proof. unfold Detect.detectTransport. intros ->. reflexivity. Qed.

(** For an http or https URL the promise is never rejected, whatever the
    network delivers.  A request error, a response error or the timeout
    that reaches a pending promise resolves it with transport "unknown",
    confidence 0 and the reason of that failure; a completed response
    resolves it with the verdict of the analysis. *)
Lemma detectTransport_http_never_rejects (url protocol : string) (evs : list Event) :
  URL_parse url = Some protocol ->
  protocol = "https:" \/ protocol = "http:" ->
  (forall name, detectTransport url evs <> Rejected name) /\
  (forall pre ev post why,
      evs = (pre ++ ev :: post)%list ->
      settled (run protocol pre) = None ->
      failure_reason (run protocol pre) ev = Some why ->
      detectTransport url evs
      = Resolved {| transport := "unknown"; confidence := 0; reason := why |}) /\
  (forall pre post r,
      evs = (pre ++ EvEnd :: post)%list ->
      settled (run protocol pre) = None ->
      res (run protocol pre) = Some r ->
      detectTransport url evs = Resolved (analyze r (body (run protocol pre)))).
Proof.
  intros Hurl Hp. apply request_made_iff in Hp. repeat split.
  - intros name. unfold Detect.detectTransport. rewrite Hurl, Hp.
    destruct (settled _); discriminate.
  - intros pre ev post why -> Hs Hf.
    apply (detect_resolved _ protocol); [assumption..|].
    rewrite run_app by exact Hp. apply handles_keep. now apply handle_failure.
  - intros pre post r -> Hs Hr.
    apply (detect_resolved _ protocol); [assumption..|].
    rewrite run_app by exact Hp. apply handles_keep. now apply handle_end.
Qed.

(** C7.  [detectTransport] does raise.  For a string the URL constructor
    refuses, and for a URL whose protocol is neither "http:" nor "https:"
    (there the request call throws inside the executor of the promise),
    the promise is rejected with a TypeError whatever the network would
    deliver, and no DetectionResult is returned.  For an http or https URL
    the promise is never rejected: a request error, a response error or
    the timeout that reaches it pending resolves it with transport
    "unknown", confidence 0 and the reason of that failure. *)
Theorem detectTransport_rejects_other_protocols
  (url : string) (evs : list Event) :
  (URL_parse url = None -> detectTransport url evs = Rejected "TypeError") /\
  (forall protocol : string,
      URL_parse url = Some protocol ->
      protocol <> "https:" -> protocol <> "http:" ->
      detectTransport url evs = Rejected "TypeError") /\
  (forall protocol : string,
      URL_parse url = Some protocol ->
      protocol = "https:" \/ protocol = "http:" ->
      (forall name, detectTransport url evs <> Rejected name) /\
      (forall pre ev post why,
          evs = (pre ++ ev :: post)%list ->
          settled (run protocol pre) = None ->
          failure_reason (run protocol pre) ev = Some why ->
          detectTransport url evs
          = Resolved {| transport := "unknown"; confidence := 0;
                        reason := why |})).
Proof.
  split; [|split].
  - apply detectTransport_bad_url.
  - intros protocol Hurl H1 H2. unfold Detect.detectTransport. rewrite Hurl.
    destruct (request_made protocol) eqn:E; [|reflexivity].
    apply request_made_iff in E. tauto.
  - intros protocol Hurl Hp.
    destruct (detectTransport_http_never_rejects url protocol evs Hurl Hp)
      as (H1 & H2 & _).
    split; assumption.
Qed.

(** C8.  When the response that completes has status 406, or a body
    containing "Not Acceptable", and its headers or body point at
    event-stream (an [x-mcp-transport: sse] header, or "text/event-stream"
    in the body or in the content type), the verdict is the streamed-HTTP
    transport with confidence 90. *)
Theorem detectTransport_not_acceptable_event_stream
  (url protocol : string) (pre post : list Event) (r : Response) :
  URL_parse url = Some protocol ->
  settled (run protocol pre) = None ->
  res (run protocol pre) = Some r ->
  (statusCode r = 406 \/ Js.contains (body (run protocol pre)) "Not Acceptable") ->
  (headers r !! "x-mcp-transport" = Some "sse"
   \/ Js.contains (body (run protocol pre)) "text/event-stream"
   \/ exists ct, headers r !! "content-type" = Some ct
                 /\ Js.contains ct "text/event-stream") ->
  exists why,
    detectTransport url (pre ++ EvEnd :: post)%list
    = Resolved {| transport := "streamableHttp"; confidence := 90; reason := why |}.
Proof.
  intros Hurl Hp Hr Hrej Hsse.
  pose proof (response_means_request _ _ _ Hr) as Hmade.
  set (b := body (run protocol pre)) in *.
  assert (Hind : sse_indicated r b = true).
  { unfold sse_indicated, header_is.
    destruct Hsse as [H|[H|(ct & H & Hct)]].
    - rewrite H. reflexivity.
    - apply includes_contains in H. rewrite H. now rewrite orb_true_r.
    - rewrite H. simpl. apply includes_contains in Hct. rewrite Hct.
      now rewrite !orb_true_r. }
  assert (Hna : not_acceptable r b = true).
  { unfold not_acceptable. destruct Hrej as [H|H].
    - rewrite H. reflexivity.
    - apply includes_contains in H. rewrite H. now rewrite orb_true_r. }
  eexists. apply (detect_resolved _ protocol); [assumption..|].
  rewrite run_app by exact Hmade. apply handles_keep.
  rewrite (handle_end _ r Hp Hr). fold b.
  unfold Detect.analyze. rewrite Hind, Hna. reflexivity.
Qed.

End DetectProperties.

(** The text "localhost:3000/mcp" is a URL with the scheme "localhost":
    the call is rejected before anything is sent. *)
Lemma detectTransport_rejects_other_protocols_witness :
  example_URL_parse "localhost:3000/mcp" = Some "localhost:" /\
  Detect.detectTransport example_URL_parse example_JSON_parse
    "localhost:3000/mcp" (events_406 ++ [Detect.EvEnd])%list
  = Detect.Rejected "TypeError".
Proof.
  split; [reflexivity|].
  apply (proj1 (proj2 (detectTransport_rejects_other_protocols
                         example_URL_parse example_JSON_parse
                         "localhost:3000/mcp"
                         (events_406 ++ [Detect.EvEnd])%list))
           "localhost:" eq_refl);
    discriminate.
Defined.

Example detectTransport_refused_connection :
  Detect.detectTransport example_URL_parse example_JSON_parse
    "http://localhost:9999/mcp" [Detect.EvReqError "connect ECONNREFUSED"]
  = Detect.Resolved
      {| Detect.transport := "unknown"; Detect.confidence := 0;
         Detect.reason := "Connection error: connect ECONNREFUSED" |}.
Proof. reflexivity. Qed.

Lemma detectTransport_not_acceptable_event_stream_witness :
  exists why,
    Detect.detectTransport example_URL_parse example_JSON_parse
      "http://localhost:3000/mcp" (events_406 ++ [Detect.EvEnd])%list
    = Detect.Resolved
        {| Detect.transport := "streamableHttp"; Detect.confidence := 90;
           Detect.reason := why |}.
Proof.
  apply (detectTransport_not_acceptable_event_stream
           example_URL_parse example_JSON_parse
           "http://localhost:3000/mcp" "http:" events_406 [] response_406).
  - reflexivity.
  - reflexivity.
  - reflexivity.
  - left. reflexivity.
  - right. left. exists "Not Acceptable: Client must accept ", "". reflexivity.
Defined.

(** ** Schema validation *)

Section SchemaProperties.

Import Advanced.

Lemma append_assoc (a b c : string) : (a +:+ b) +:+ c = a +:+ b +:+ c.
Proof.
  induction a as [|x a IH]; [reflexivity|].
  change (String x ((a +:+ b) +:+ c) = String x (a +:+ b +:+ c)).
  now rewrite IH.
Qed.

Lemma append_empty_r (a : string) : a +:+ "" = a.
Proof.
  induction a as [|x a IH]; [reflexivity|].
  change (String x (a +:+ "") = String x a). now rewrite IH.
Qed.

Lemma type_is_decide (p : Schema) (ty : string) :
  type_is p ty = bool_decide (sc_type p = Some ty).
Proof.
  unfold type_is. destruct (sc_type p) as [s|].
  - destruct (String.eqb_spec s ty) as [->|Hne].
    + now rewrite bool_decide_eq_true_2.
    + rewrite bool_decide_eq_false_2; [reflexivity | congruence].
  - now rewrite bool_decide_eq_false_2.
Qed.

Lemma quoted_in_quotes (s : string) : quoted s = Spec.in_quotes s.
Proof. reflexivity. Qed.

Lemma enum_text_alternatives (vs : list Json.t) : enum_text vs = Spec.alternatives vs.
Proof.
  unfold enum_text, Js.join.
  induction vs as [|v [|w vs] IH]; [reflexivity..|].
  change (quoted (Json.to_string v) +:+ ", "
          +:+ String.concat ", " (map (fun v => quoted (Json.to_string v)) (w :: vs))
          = Spec.in_quotes (Json.to_string v) +:+ ", " +:+ Spec.alternatives (w :: vs)).
  now rewrite IH.
Qed.

(** The suggestion is the field, the literal its declaration calls for,
    and the description when there is one. *)
Lemma suggestion_for_shape (field : string) (p : Schema) :
  suggestion_for field p
  = "Add " +:+ Spec.in_quotes field +:+ ": " +:+ Spec.suggested_literal p
    +:+ Spec.annotation p.
Proof.
  unfold suggestion_for, Spec.suggested_literal, Spec.annotation, Js.truthy_str.
  rewrite !type_is_decide, !quoted_in_quotes.
  destruct (sc_enum p) as [vs|]; rewrite ?enum_text_alternatives;
    destruct (sc_description p) as [d|]; simpl.
  - destruct (String.eqb d ""); simpl.
    + now rewrite append_empty_r, !append_assoc.
    + now rewrite !append_assoc.
  - now rewrite append_empty_r, !append_assoc.
  - destruct (String.eqb d ""); simpl.
    + now rewrite append_empty_r, !append_assoc.
    + now rewrite !append_assoc.
  - now rewrite append_empty_r, !append_assoc.
Qed.

Lemma has_property_missing (data : list (string * Json.t)) (f : string) :
  Json.has_property f data = negb (Spec.missing data f).
Proof.
  unfold Json.has_property, Spec.missing.
  now destruct (Json.has_key f data), (Js.inherited f).
Qed.

Lemma has_property_supplied (data : list (string * Json.t)) (f : string) :
  Json.has_property f data = true ->
  Spec.supplied data f = Some (Json.get data f).
Proof.
  unfold Json.has_property, Json.has_key, Spec.supplied, Json.get.
  destruct (Json.assoc f data); [reflexivity|]. simpl. now intros ->.
Qed.

Lemma no_property_not_supplied (data : list (string * Json.t)) (f : string) :
  Json.has_property f data = false -> Spec.supplied data f = None.
Proof.
  unfold Json.has_property, Json.has_key, Spec.supplied.
  destruct (Json.assoc f data); [discriminate|]. simpl. now intros ->.
Qed.

(** The two loops, as the lists they append to the arrays. *)
Lemma check_required_app data properties required acc :
  check_required data properties required acc
  = ((fst acc ++ map (fun f => "Missing required field: " +:+ f)
                    (List.filter (Spec.missing data) required))%list,
     (snd acc ++ omap (fun f => suggestion_for f <$> (properties ≫= Json.assoc f))
                    (List.filter (Spec.missing data) required))%list).
Proof.
  revert acc. induction required as [|f required IH]; intros [es ss]; simpl.
  - now rewrite !app_nil_r.
  - rewrite IH, has_property_missing. destruct (Spec.missing data f); simpl.
    + destruct properties as [props|]; simpl.
      * destruct (Json.assoc f props); simpl; now rewrite <- !app_assoc.
      * now rewrite <- !app_assoc.
    + reflexivity.
Qed.

Lemma check_enums_app data entries acc :
  check_enums data entries acc
  = ((fst acc ++ map fst (omap (Spec.enum_violation data) entries))%list,
     (snd acc ++ map snd (omap (Spec.enum_violation data) entries))%list).
Proof.
  revert acc. induction entries as [|[f p] entries IH]; intros [es ss]; simpl.
  - now rewrite !app_nil_r.
  - rewrite IH. unfold Spec.enum_violation. simpl.
    destruct (sc_enum p) as [vs|];
      [|destruct (Spec.supplied data f); reflexivity].
    destruct (Json.has_property f data) eqn:Ep.
    + rewrite (has_property_supplied _ _ Ep).
      destruct (Json.array_includes_reading vs (Json.get data f)); simpl;
        [reflexivity|].
      rewrite quoted_in_quotes, enum_text_alternatives.
      now rewrite <- !app_assoc.
    + rewrite (no_property_not_supplied _ _ Ep). reflexivity.
Qed.

Lemma validate_errors data schema :
  errors (validateAgainstSchema data schema)
  = (map (fun f => "Missing required field: " +:+ f) (Spec.missing_fields data schema)
     ++ map fst (Spec.enum_violations data schema))%list.
Proof.
  unfold validateAgainstSchema, Spec.missing_fields, Spec.enum_violations. simpl.
  destruct (sc_required schema) as [req|], (sc_properties schema) as [props|]; simpl;
    rewrite ?check_enums_app, ?check_required_app; simpl;
    rewrite ?app_nil_r; reflexivity.
Qed.

Lemma validate_suggestions data schema :
  suggestions (validateAgainstSchema data schema)
  = (omap (fun f => suggestion_for f <$> Spec.declared schema f)
          (Spec.missing_fields data schema)
     ++ map snd (Spec.enum_violations data schema))%list.
Proof.
  unfold validateAgainstSchema, Spec.missing_fields, Spec.enum_violations,
    Spec.declared. simpl.
  destruct (sc_required schema) as [req|], (sc_properties schema) as [props|]; simpl;
    rewrite ?check_enums_app, ?check_required_app; simpl;
    rewrite ?app_nil_r; reflexivity.
Qed.

Lemma validate_valid data schema :
  valid (validateAgainstSchema data schema)
  = (length (errors (validateAgainstSchema data schema)) =? 0)%nat.
Proof. reflexivity. Qed.

Lemma validation_eq (v w : Validation) :
  valid v = valid w -> errors v = errors w -> suggestions v = suggestions w ->
  v = w.
Proof. destruct v, w; simpl; intros -> -> ->; reflexivity. Qed.

(** Cutting the nested parts out of the property schemas changes nothing
    the validator looks at. *)
Lemma declared_flat schema field :
  Spec.declared (Spec.flat schema) field
  = Spec.flat_property <$> Spec.declared schema field.
Proof.
  unfold Spec.declared, Spec.flat. simpl.
  destruct (sc_properties schema) as [props|]; simpl; [|reflexivity].
  induction props as [|[k p] props IH]; simpl; [reflexivity|].
  destruct (String.eqb field k); [reflexivity | exact IH].
Qed.

Lemma omap_map_ext {A B C} (f : B -> option C) (g : A -> B)
  (h : A -> option C) (l : list A) :
  (forall a, f (g a) = h a) -> omap f (map g l) = omap h l.
Proof.
  intros H. induction l as [|a l IH]; simpl; [reflexivity|].
  rewrite H. destruct (h a); [f_equal|]; exact IH.
Qed.

Lemma omap_pointwise {A C} (f h : A -> option C) (l : list A) :
  (forall a, f a = h a) -> omap f l = omap h l.
Proof.
  intros H. induction l as [|a l IH]; simpl; [reflexivity|].
  rewrite H. destruct (h a); [f_equal|]; exact IH.
Qed.

Lemma enum_violations_flat data schema :
  Spec.enum_violations data (Spec.flat schema) = Spec.enum_violations data schema.
Proof.
  unfold Spec.enum_violations, Spec.flat.
  destruct schema as [ty en de rq [props|] it]; [|reflexivity].
  apply (omap_map_ext (Spec.enum_violation data)
           (fun e => (fst e, Spec.flat_property (snd e)))
           (Spec.enum_violation data) props).
  intros [k p]. reflexivity.
Qed.

Lemma validate_flat data schema :
  validateAgainstSchema data (Spec.flat schema) = validateAgainstSchema data schema.
Proof.
  assert (He : errors (validateAgainstSchema data (Spec.flat schema))
               = errors (validateAgainstSchema data schema)).
  { rewrite !validate_errors, enum_violations_flat. reflexivity. }
  apply validation_eq.
  - rewrite !validate_valid, He. reflexivity.
  - exact He.
  - rewrite !validate_suggestions, enum_violations_flat. f_equal.
    change (Spec.missing_fields data (Spec.flat schema))
      with (Spec.missing_fields data schema).
    apply omap_pointwise. intros f. rewrite declared_flat.
    destruct (Spec.declared schema f); reflexivity.
Qed.

Lemma in_omap_intro {A B} (f : A -> option B) (l : list A) (a : A) (b : B) :
  In a l -> f a = Some b -> In b (omap f l).
Proof.
  intros Ha Hf. apply list_elem_of_In, list_elem_of_omap.
  exists a. split; [now apply list_elem_of_In | exact Hf].
Qed.

Lemma append_inj (a b c : string) : a +:+ b = a +:+ c -> b = c.
Proof.
  induction a as [|x a IH]; [trivial|].
  change (String x (a +:+ b) = String x (a +:+ c) -> b = c).
  intros [= H]. now apply IH.
Qed.

Lemma in_omap_inv {A B} (f : A -> option B) (l : list A) (b : B) :
  In b (omap f l) -> exists a, In a l /\ f a = Some b.
Proof.
  intros H. apply list_elem_of_In, list_elem_of_omap in H as (a & Ha & Hf).
  exists a. split; [now apply list_elem_of_In | exact Hf].
Qed.

(** An inherited name is never reported as missing. *)
Lemma inherited_never_missing data schema field :
  Js.inherited field = true ->
  ~ In ("Missing required field: " +:+ field)
       (errors (validateAgainstSchema data schema)).
Proof.
  intros Hinh. rewrite validate_errors. intros H.
  apply in_app_or in H as [H|H].
  - apply in_map_iff in H as (f & Hf & Hin).
    apply append_inj in Hf as ->.
    unfold Spec.missing_fields in Hin. apply filter_In in Hin as [_ Hm].
    unfold Spec.missing in Hm. rewrite Hinh in Hm.
    now rewrite andb_false_r in Hm.
  - apply in_map_iff in H as ([e g] & Hf & Hin). simpl in Hf. subst e.
    unfold Spec.enum_violations in Hin.
    apply in_omap_inv in Hin as (entry & _ & Hv).
    unfold Spec.enum_violation in Hv.
    destruct (Spec.supplied data (fst entry)); [|discriminate].
    destruct (sc_enum (snd entry)); [|discriminate].
    destruct (Json.array_includes_reading _ _); [discriminate|].
    injection Hv as Hv _. discriminate.
Qed.

(** C4.  What [validateAgainstSchema] reports, and where it misses.  For
    every required field that is neither a key of the arguments nor a
    name every object inherits, it reports the field as missing, with a
    suggestion built from the field's declaration (the literals of its
    enumeration in quotes, else a placeholder by type, then the
    description if there is one).  A required field whose name is
    inherited ("toString", "constructor", ...) is never reported as
    missing, although the arguments do not supply it: the test is
    [field in data].  For every supplied value outside the enumeration
    its field declares it reports the error that names the value and the
    suggestion that lists the alternatives, each in quotes.  It looks at
    top-level declarations only, and it answers [valid] exactly when it
    reported no error. *)
Theorem validateAgainstSchema_flat_check
  (data : list (string * Json.t)) (schema : Schema) :
  let v := validateAgainstSchema data schema in
  (forall (required : list string) (field : string),
      sc_required schema = Some required -> In field required ->
      Json.has_key field data = false -> Js.inherited field = false ->
      In ("Missing required field: " +:+ field) (errors v) /\
      forall p : Schema, Spec.declared schema field = Some p ->
        forallb Json.exact (default [] (sc_enum p)) = true ->
        In ("Add " +:+ Spec.in_quotes field +:+ ": " +:+ Spec.suggested_literal p
            +:+ Spec.annotation p) (suggestions v)) /\
  (forall field : string,
      Js.inherited field = true ->
      ~ In ("Missing required field: " +:+ field) (errors v)) /\
  (forall (entries : list (string * Schema)) (field : string) (p : Schema)
          (value : Json.t) (vs : list Json.t),
      sc_properties schema = Some entries -> In (field, p) entries ->
      Json.assoc field data = Some value -> sc_enum p = Some vs ->
      Json.array_includes vs value = false ->
      Json.exact value = true -> forallb Json.exact vs = true ->
      In ("Invalid value for " +:+ field +:+ ": "
          +:+ Spec.in_quotes (Json.to_string value)) (errors v) /\
      In ("Use one of: " +:+ Spec.alternatives vs) (suggestions v)) /\
  validateAgainstSchema data (Spec.flat schema) = v /\
  (valid v = true <-> errors v = []).
Proof.
  intros v. subst v. split; [|split; [|split; [|split; [|split]]]].
  - intros required field Hreq Hin Hkey Hinh.
    assert (Hmiss : In field (Spec.missing_fields data schema)).
    { unfold Spec.missing_fields. rewrite Hreq. simpl.
      apply filter_In. split; [assumption|]. unfold Spec.missing.
      now rewrite Hkey, Hinh. }
    split.
    + rewrite validate_errors. apply in_or_app. left.
      apply (in_map (fun f => "Missing required field: " +:+ f)), Hmiss.
    + intros p Hp _. rewrite validate_suggestions. apply in_or_app. left.
      rewrite <- suggestion_for_shape.
      apply (in_omap_intro _ _ field); [exact Hmiss | now rewrite Hp].
  - intros field. apply inherited_never_missing.
  - intros entries field p value vs Hprops Hin Hval Henum Hout _ _.
    assert (Hv : In ("Invalid value for " +:+ field +:+ ": "
                     +:+ Spec.in_quotes (Json.to_string value),
                     "Use one of: " +:+ Spec.alternatives vs)
                   (Spec.enum_violations data schema)).
    { unfold Spec.enum_violations. rewrite Hprops. simpl.
      apply (in_omap_intro _ _ (field, p)); [assumption|].
      unfold Spec.enum_violation, Spec.supplied. simpl.
      rewrite Hval, Henum. simpl. now rewrite Hout. }
    split.
    + rewrite validate_errors. apply in_or_app. right.
      exact (in_map fst _ _ Hv).
    + rewrite validate_suggestions. apply in_or_app. right.
      exact (in_map snd _ _ Hv).
  - apply validate_flat.
  - rewrite validate_valid. intros H.
    destruct (errors (validateAgainstSchema data schema)); [reflexivity|discriminate].
  - rewrite validate_valid. intros ->. reflexivity.
Qed.

End SchemaProperties.

(** The example of the specification, in full: the empty argument object,
    and an [output] outside the enumeration. *)
Example validate_output_missing :
  Advanced.validateAgainstSchema [] output_schema
  = {| Advanced.valid := false;
       Advanced.errors := ["Missing required field: output"];
       Advanced.suggestions :=
         ["Add " +:+ Spec.in_quotes "output" +:+ ": one of ["
          +:+ Spec.in_quotes "json" +:+ ", " +:+ Spec.in_quotes "yaml" +:+ "]"] |}.
Proof. reflexivity. Qed.

Example validate_output_table :
  Advanced.validateAgainstSchema [("output", Json.Str "table")] output_schema
  = {| Advanced.valid := false;
       Advanced.errors :=
         ["Invalid value for output: " +:+ Spec.in_quotes "table"];
       Advanced.suggestions :=
         ["Use one of: " +:+ Spec.in_quotes "json" +:+ ", "
          +:+ Spec.in_quotes "yaml"] |}.
Proof. reflexivity. Qed.

(** A nested object that lacks a field its own schema requires passes:
    the check stays at the top level. *)
Example validate_ignores_nested :
  Advanced.valid
    (Advanced.validateAgainstSchema
       [("filter", Json.Obj [])]
       {| Advanced.sc_type := Some "object"; Advanced.sc_enum := None;
          Advanced.sc_description := None;
          Advanced.sc_required := Some ["filter"];
          Advanced.sc_properties :=
            Some [("filter",
                   {| Advanced.sc_type := Some "object"; Advanced.sc_enum := None;
                      Advanced.sc_description := None;
                      Advanced.sc_required := Some ["status"];
                      Advanced.sc_properties := Some [("status", output_property)];
                      Advanced.sc_items := None |})];
          Advanced.sc_items := None |})
  = true.
Proof. reflexivity. Qed.

(** A schema that requires a field named like a method every object
    has: the empty argument object passes. *)
Example validate_inherited_name_passes :
  Advanced.validateAgainstSchema [] constructor_schema
  = {| Advanced.valid := true; Advanced.errors := [];
       Advanced.suggestions := [] |}.
Proof. reflexivity. Qed.

(** An enumerated property named like such a method is read from the
    prototype and reported as an invalid value. *)
Example validate_inherited_name_invalid :
  Advanced.errors
    (Advanced.validateAgainstSchema []
       {| Advanced.sc_type := Some "object"; Advanced.sc_enum := None;
          Advanced.sc_description := None; Advanced.sc_required := None;
          Advanced.sc_properties := Some [("valueOf", output_property)];
          Advanced.sc_items := None |})
  = ["Invalid value for valueOf: "
     +:+ Spec.in_quotes "function valueOf() { [native code] }"].
Proof. reflexivity. Qed.

(** ** Redaction *)

Section SanitizeProperties.

Import Advanced.

Lemma sensitive_iff (key : string) :
  sensitive key = true <-> Spec.sensitive_name key.
Proof.
  unfold sensitive, Spec.sensitive_name.
  rewrite !orb_true_iff, !includes_lower_contains_ci by reflexivity.
  tauto.
Qed.

(** A table filled by assignment from the entries of another: the
    entries under [f], without the key [__proto__]. *)
Lemma assigned_lookup (f : string -> string -> string)
  (h : gmap string string) (key : string) :
  map_fold (fun k v acc => Js.assign k (f k v) acc) ∅ h !! key
  = if String.eqb key "__proto__" then None else f key <$> h !! key.
Proof.
  apply (map_fold_weak_ind
           (fun r m => r !! key
                       = if String.eqb key "__proto__" then None
                         else f key <$> m !! key)).
  - rewrite !lookup_empty. now destruct (String.eqb key "__proto__").
  - intros i x m r Hi IH. unfold Js.assign.
    destruct (String.eqb_spec i "__proto__") as [->|Hi'].
    + rewrite IH. destruct (String.eqb_spec key "__proto__") as [->|Hk];
        [reflexivity|].
      rewrite lookup_insert_ne by congruence. reflexivity.
    + destruct (decide (i = key)) as [->|Hne].
      * rewrite !lookup_insert_eq.
        destruct (String.eqb_spec key "__proto__"); [contradiction|reflexivity].
      * rewrite !lookup_insert_ne by assumption. exact IH.
Qed.

(** The loop over the headers masks value by value and keeps the names,
    but for [__proto__]. *)
Lemma safe_headers_lookup (h : gmap string string) (key : string) :
  safe_headers h !! key
  = if String.eqb key "__proto__" then None
    else (fun value => if sensitive key then REDACTED else value) <$> h !! key.
Proof.
  exact (assigned_lookup (fun k v => if sensitive k then REDACTED else v) h key).
Qed.

(** C9.  In the sanitized descriptor every header whose name contains
    "auth", "token" or "key" (letter case ignored) carries the placeholder
    "[REDACTED]"; every other header carries its own value, but for a
    header named "__proto__", which the copying loop loses: the sanitized
    headers never have it.  No header is added.  A top-level [auth] token
    that is set becomes the placeholder; every other field is
    unchanged. *)
Theorem sanitizeConfig_redacts (config : TransportConfig) :
  let s := sanitizeConfig config in
  (forall h : gmap string string, headers config = Some h ->
     exists h' : gmap string string,
       headers s = Some h' /\
       (forall key value, h !! key = Some value -> key <> "__proto__" ->
          (Spec.sensitive_name key -> h' !! key = Some "[REDACTED]") /\
          (~ Spec.sensitive_name key -> h' !! key = Some value)) /\
       (forall key, h !! key = None -> h' !! key = None) /\
       h' !! "__proto__" = None) /\
  (headers config = None -> headers s = None) /\
  (forall token, auth config = Some token -> token <> "" ->
     auth s = Some "[REDACTED]") /\
  (auth config = None \/ auth config = Some "" -> auth s = auth config) /\
  type s = type config /\ command s = command config /\
  args s = args config /\ env s = env config /\ url s = url config.
Proof.
  simpl. split; [|split; [|split; [|split; [|repeat split]]]].
  - intros h Hh. exists (safe_headers h). rewrite Hh. split; [reflexivity|].
    split; [|split].
    + intros key value Hk Hp. rewrite safe_headers_lookup, Hk.
      destruct (String.eqb_spec key "__proto__"); [contradiction|]. simpl. split.
      * intros Hs. apply sensitive_iff in Hs. now rewrite Hs.
      * intros Hs. destruct (sensitive key) eqn:E; [|reflexivity].
        apply sensitive_iff in E. contradiction.
    + intros key Hk. rewrite safe_headers_lookup, Hk.
      now destruct (String.eqb key "__proto__").
    + now rewrite safe_headers_lookup.
  - intros ->. reflexivity.
  - intros token -> Hne. simpl.
    destruct (String.eqb_spec token ""); [contradiction | reflexivity].
  - intros [-> | ->]; reflexivity.
Qed.

(** The earlier framework masks only the names that contain "auth": an
    API key header passes through unchanged. *)
Lemma legacy_safe_headers_lookup (h : gmap string string) (key : string) :
  Legacy.safe_headers h !! key
  = if String.eqb key "__proto__" then None
    else (fun value => if Js.includes (Js.toLowerCase key) "auth" then "***" else value)
           <$> h !! key.
Proof.
  exact (assigned_lookup
           (fun k v => if Js.includes (Js.toLowerCase k) "auth" then "***" else v)
           h key).
Qed.

End SanitizeProperties.

Example legacy_keeps_api_key :
  (Legacy.sanitizeConfig secret_config).(Advanced.headers) ≫= (.!! "X-API-Key")
  = Some "k-123".
Proof.
  simpl. rewrite legacy_safe_headers_lookup. reflexivity.
Qed.

(** Headers decoded from JSON text may have a key [__proto__] of their
    own: the sanitized descriptor has lost that header. *)
Example sanitizeConfig_loses_proto_header :
  proto_headers !! "__proto__" = Some "x" /\
  (Advanced.sanitizeConfig proto_config).(Advanced.headers)
  = Some (<["Accept" := "application/json"]> ∅).
Proof.
  split; reflexivity.
Qed.

Lemma sanitizeConfig_redacts_witness :
  exists h' : gmap string string,
    Advanced.headers (Advanced.sanitizeConfig secret_config) = Some h' /\
    h' !! "Authorization" = Some "[REDACTED]" /\
    h' !! "X-API-Key" = Some "[REDACTED]" /\
    h' !! "Accept" = Some "application/json" /\
    Advanced.auth (Advanced.sanitizeConfig secret_config) = Some "[REDACTED]".
Proof.
  destruct (sanitizeConfig_redacts secret_config) as (Hh & _ & Ha & _).
  destruct (Hh secret_headers eq_refl) as (h' & E & Hk & _).
  exists h'. split; [exact E|]. split; [|split; [|split]].
  - apply (Hk "Authorization" "Bearer xyz"); [reflexivity|discriminate|].
    left. exists "", "Auth", "orization". split; reflexivity.
  - apply (Hk "X-API-Key" "k-123"); [reflexivity|discriminate|].
    right. right. exists "X-API-", "Key", "". split; reflexivity.
  - apply (Hk "Accept" "application/json"); [reflexivity|discriminate|].
    intros Hs. apply sensitive_iff in Hs. discriminate Hs.
  - apply (Ha "s3cret"); [reflexivity | discriminate].
Defined.

(** ** The test executor *)

Section ExecuteProperties.

Import Advanced.

Lemma log_with_returns msg p lv st :
  exists st', log_with msg p lv st = (Return tt, st')
              /\ now st' = now st /\ options st' = options st
              /\ metrics st' = metrics st /\ io st' = io st
              /\ draft st' = draft st /\ results st' = results st.
Proof.
  unfold log_with. eexists. split; [reflexivity|].
  destruct (_ || _); simpl; repeat split; reflexivity.
Qed.

Lemma test_start_now name st : now (Spec.test_start name st) = now st.
Proof.
  unfold Spec.test_start, bind, modify, log, log_with. simpl.
  destruct (_ || _); reflexivity.
Qed.

Lemma test_start_options name st : options (Spec.test_start name st) = options st.
Proof.
  unfold Spec.test_start, bind, modify, log, log_with. simpl.
  destruct (_ || _); reflexivity.
Qed.

(** A method of the harness, run as a test function. *)
Lemma method_run {A} (m : M A) st :
  method m st
  = (match fst (m st) with
     | Return a => Returned a
     | Throw e => Threw (ErrorObject e)
     | Hangs => Pending
     end, snd (m st)).
Proof. unfold method. now destruct (m st) as [[a|e|] st']. Qed.

Lemma method_snd {A} (m : M A) st : snd (method m st) = snd (m st).
Proof. now rewrite method_run. Qed.

Lemma method_pending {A} (m : M A) st :
  fst (method m st) = Pending <-> fst (m st) = Hangs.
Proof. rewrite method_run. simpl. destruct (fst (m st)); split; congruence. Qed.


(** The race: a function that completes in time decides it, any other
    loses to the timer. *)
Lemma race_overrun {A} name (fn : TestFn A) st :
  Spec.overruns fn st (timeout (options st)) ->
  exists st', race name fn st
              = (Threw (ErrorObject (TestTimeoutError name (timeout (options st)))), st')
              /\ now st' = now st + timeout (options st).
Proof.
  unfold Spec.overruns, race. intros H.
  destruct (fn st) as [[v|e|] st1] eqn:E; simpl in *.
  - destruct H as [H|H]; [discriminate|].
    destruct (Z.leb_spec (now st1 - now st) (timeout (options st))); [lia|].
    eexists; split; reflexivity.
  - destruct H as [H|H]; [discriminate|].
    destruct (Z.leb_spec (now st1 - now st) (timeout (options st))); [lia|].
    eexists; split; reflexivity.
  - eexists; split; reflexivity.
Qed.

Lemma race_in_time {A} name (fn : TestFn A) st :
  Spec.completes fn st (timeout (options st)) -> race name fn st = fn st.
Proof.
  unfold Spec.completes, race. intros [Hh Ht].
  destruct (fn st) as [[v|e|] st1] eqn:E; simpl in *.
  - destruct (Z.leb_spec (now st1 - now st) (timeout (options st))); [reflexivity|lia].
  - destruct (Z.leb_spec (now st1 - now st) (timeout (options st))); [reflexivity|lia].
  - contradiction.
Qed.

Lemma race_never_pends {A} name (fn : TestFn A) st :
  fst (race name fn st) <> Pending.
Proof.
  unfold race. destruct (fn st) as [[v|e|] st1]; simpl;
    try destruct (_ <=? _); simpl; discriminate.
Qed.

(** A race ends the way the function does, or with the timeout error. *)
Lemma race_ends {A} name (fn : TestFn A) st :
  race name fn st = fn st
  \/ fst (race name fn st)
     = Threw (ErrorObject (TestTimeoutError name (timeout (options st)))).
Proof.
  unfold race. destruct (fn st) as [[v|e|] st1]; simpl;
    try destruct (_ <=? _); simpl; auto.
Qed.

Lemma executeTest_unfold name (fn : TestFn Value) st :
  executeTest name fn st
  = match race name fn (Spec.test_start name st) with
    | (Returned v, st1) =>
        (Return {| t_name := name; t_startTime := now st; t_status := "passed";
                   t_result := Some v; t_error := None; t_errorCode := None;
                   t_errorDetails := None; t_duration := now st1 - now st |},
         snd (log (check_mark +:+ " " +:+ name +:+ " ("
                   +:+ Js.show_Z (now st1 - now st) +:+ "ms)") Success st1))
    | (Threw (ErrorObject e), st1) =>
        (Return {| t_name := name; t_startTime := now st; t_status := "failed";
                   t_result := None; t_error := Some (message e);
                   t_errorCode := code e; t_errorDetails := details e;
                   t_duration := now st1 - now st |},
         snd ((log (ballot_cross +:+ " " +:+ name +:+ ": " +:+ message e) ErrorLevel ;;;
               match details e with
               | Some d => log_with "  Details: " (Some d) Debug
               | None => ret tt
               end) st1))
    | (Threw (NoObject v), st1) =>
        (Throw (TypeError ("Cannot read properties of " +:+ nullish_text v
                           +:+ " (reading 'message')")), st1)
    | (Pending, st1) => (Hangs, st1)
    end.
Proof.
  unfold executeTest, Spec.test_start, bind, Date_now, modify, log, try_await,
    log_with.
  cbn [fst snd].
  destruct (verbose (options (bump_totalTestsRun st)) || false);
    match goal with
    | |- context [race name fn ?s] =>
        destruct (race name fn s) as [[v|[e|v]|] st1]
    end; try reflexivity;
    unfold read_error, ret; destruct (details e) as [d|]; reflexivity.
Qed.

(** The ways [executeTest] ends, by the way the race ends. *)
Lemma executeTest_passes name (fn : TestFn Value) st v st1 :
  race name fn (Spec.test_start name st) = (Returned v, st1) ->
  exists st',
    executeTest name fn st
    = (Return {| t_name := name; t_startTime := now st; t_status := "passed";
                 t_result := Some v; t_error := None; t_errorCode := None;
                 t_errorDetails := None; t_duration := now st1 - now st |}, st')
    /\ st' = snd (log (check_mark +:+ " " +:+ name +:+ " (" +:+ Js.show_Z (now st1 - now st)
                       +:+ "ms)") Success st1).
Proof.
  intros H. rewrite executeTest_unfold, H. eexists; split; reflexivity.
Qed.

Lemma executeTest_fails name (fn : TestFn Value) st e st1 :
  race name fn (Spec.test_start name st) = (Threw (ErrorObject e), st1) ->
  exists st',
    executeTest name fn st
    = (Return {| t_name := name; t_startTime := now st; t_status := "failed";
                 t_result := None; t_error := Some (message e);
                 t_errorCode := code e; t_errorDetails := details e;
                 t_duration := now st1 - now st |}, st')
    /\ st' = snd ((log (ballot_cross +:+ " " +:+ name +:+ ": " +:+ message e) ErrorLevel ;;;
                   match details e with
                   | Some d => log_with "  Details: " (Some d) Debug
                   | None => ret tt
                   end) st1).
Proof.
  intros H. rewrite executeTest_unfold, H. eexists; split; reflexivity.
Qed.


Lemma now_after_log msg p lv st : now (snd (log_with msg p lv st)) = now st.
Proof.
  destruct (log_with_returns msg p lv st) as (st' & E & Hn & _).
  now rewrite E.
Qed.

Lemma now_after_failure_logs e msg st :
  now (snd ((log msg ErrorLevel ;;;
             match details e with
             | Some d => log_with "  Details: " (Some d) Debug
             | None => ret tt
             end) st)) = now st.
Proof.
  unfold bind, log.
  destruct (log_with_returns msg None ErrorLevel st) as (st' & E & Hn & _).
  rewrite E. destruct (details e) as [d|]; simpl.
  - destruct (verbose (options st') || false); exact Hn.
  - exact Hn.
Qed.

(** The executor on a function that ends the race with no [null] and no
    [undefined], outcome by outcome. *)
Lemma executeTest_verdict (name : string) (fn : TestFn Value) (st : Framework) :
  let T := timeout (options st) in
  let st0 := Spec.test_start name st in
  (forall v, fst (race name fn st0) <> Threw (NoObject v)) ->
  exists (t : TestResult) (st' : Framework),
    executeTest name fn st = (Return t, st') /\
    t_name t = name /\
    t_duration t = now st' - now st /\
    (t_status t = "passed" \/ t_status t = "failed") /\
    (Spec.overruns fn st0 T ->
       t_status t = "failed" /\
       t_error t = Some ("Test " +:+ Spec.in_quotes name +:+ " timed out after "
                         +:+ Js.show_Z T +:+ "ms") /\
       t_errorCode t = Some "TEST_TIMEOUT" /\
       t_errorDetails t = Some [("testName", VStr name); ("timeout", VNum T)] /\
       t_duration t = T) /\
    (forall e, Spec.completes fn st0 T -> fst (fn st0) = Threw (ErrorObject e) ->
       t_status t = "failed" /\ t_error t = Some (message e) /\
       t_errorCode t = code e /\ t_errorDetails t = details e) /\
    (forall v, Spec.completes fn st0 T -> fst (fn st0) = Returned v ->
       t_status t = "passed" /\ t_result t = Some v /\ t_error t = None).
Proof.
  intros T st0 Hobj.
  assert (HT : timeout (options st0) = T)
    by (unfold st0; now rewrite test_start_options).
  assert (Hnow : now st0 = now st) by apply test_start_now.
  destruct (race name fn st0) as [[v|[e|v]|] st1] eqn:E.
  - destruct (executeTest_passes _ _ _ _ _ E) as (st' & Hex & Hst').
    eexists; exists st'. split; [exact Hex|]. simpl.
    assert (Hn : now st' = now st1) by (rewrite Hst'; apply now_after_log).
    rewrite Hn. split; [reflexivity|]. split; [reflexivity|].
    split; [now left|]. split; [|split].
    + intros Ho. exfalso. rewrite <- HT in Ho.
      destruct (race_overrun name fn st0 Ho) as (s & Es & _). congruence.
    + intros e Hc He. exfalso. rewrite <- HT in Hc.
      rewrite (race_in_time name fn st0 Hc) in E. rewrite E in He. discriminate.
    + intros w Hc Hw. rewrite <- HT in Hc.
      rewrite (race_in_time name fn st0 Hc) in E. rewrite E in Hw.
      simpl in Hw. injection Hw as ->. repeat split; reflexivity.
  - destruct (executeTest_fails _ _ _ _ _ E) as (st' & Hex & Hst').
    eexists; exists st'. split; [exact Hex|]. simpl.
    assert (Hn : now st' = now st1)
      by (rewrite Hst'; apply now_after_failure_logs).
    rewrite Hn. split; [reflexivity|]. split; [reflexivity|].
    split; [now right|]. split; [|split].
    + intros Ho. rewrite <- HT in Ho.
      destruct (race_overrun name fn st0 Ho) as (s & Es & Hs).
      rewrite E in Es. injection Es as -> ->. rewrite HT. simpl.
      repeat split; try reflexivity. lia.
    + intros e' Hc He. rewrite <- HT in Hc.
      rewrite (race_in_time name fn st0 Hc) in E. rewrite E in He.
      simpl in He. injection He as ->. repeat split; reflexivity.
    + intros w Hc Hw. rewrite <- HT in Hc.
      rewrite (race_in_time name fn st0 Hc) in E. rewrite E in Hw. discriminate.
  - exfalso. apply (Hobj v). reflexivity.
  - exfalso. apply (race_never_pends name fn st0). now rewrite E.
Qed.

(** A method of the harness throws Error objects only: run by the
    executor it always gives a test result. *)
Lemma method_throws_objects {A} name (m : M A) st v :
  fst (race name (method m) st) <> Threw (NoObject v).
Proof.
  destruct (race_ends name (method m) st) as [H|H]; rewrite H.
  - rewrite method_run. simpl. destruct (fst (m st)); discriminate.
  - discriminate.
Qed.

Lemma executeTest_outcome (name : string) (fn : M Value) (st : Framework) :
  let T := timeout (options st) in
  let st0 := Spec.test_start name st in
  exists (t : TestResult) (st' : Framework),
    executeTest name fn st = (Return t, st') /\
    t_name t = name /\
    t_duration t = now st' - now st /\
    (t_status t = "passed" \/ t_status t = "failed") /\
    (Spec.overruns fn st0 T ->
       t_status t = "failed" /\
       t_error t = Some (message (TestTimeoutError name T)) /\
       t_errorCode t = Some "TEST_TIMEOUT" /\
       t_errorDetails t = Some [("testName", VStr name); ("timeout", VNum T)] /\
       t_duration t = T) /\
    (forall e, Spec.completes fn st0 T -> fst (fn st0) = Throw e ->
       t_status t = "failed" /\ t_error t = Some (message e)) /\
    (forall v, Spec.completes fn st0 T -> fst (fn st0) = Return v ->
       t_status t = "passed" /\ t_result t = Some v).
Proof.
  intros T st0.
  destruct (executeTest_verdict name (method fn) st
              (fun v => method_throws_objects name fn _ v))
    as (t & st' & E & H1 & H2 & H3 & H4 & H5 & H6).
  exists t, st'. split; [exact E|]. split; [exact H1|]. split; [exact H2|].
  split; [exact H3|]. split; [|split].
  - intros Ho. exact (H4 Ho).
  - intros e Hc He. destruct (H5 e Hc) as (a & b & _); [|now split].
    rewrite method_run. fold st0. now rewrite He.
  - intros v Hc Hv. destruct (H6 v Hc) as (a & b & _); [|now split].
    rewrite method_run. fold st0. now rewrite Hv.
Qed.


End ExecuteProperties.

(** ** The Factory and the connection manager *)

Section ConnectProperties.

Import Advanced.

Lemma bool_decide_some_string (o : option string) (s : string) :
  bool_decide (o = Some s)
  = match o with Some x => String.eqb x s | None => false end.
Proof.
  destruct o as [x|].
  - destruct (String.eqb_spec x s) as [->|Hne].
    + now rewrite bool_decide_eq_true_2.
    + rewrite bool_decide_eq_false_2; [reflexivity | congruence].
  - now rewrite bool_decide_eq_false_2.
Qed.

(** [createTransport] writes its debug line and then answers as the pure
    Factory does. *)
Lemma createTransport_spec (cfg : TransportConfig) (st : Framework) :
  createTransport cfg st
  = (match Spec.transport_of cfg with
     | inl e => Throw e
     | inr t => Return t
     end,
     snd (log ("Creating " +:+ Js.show_opt (type cfg) +:+ " transport") Debug st)).
Proof.
  unfold createTransport, Spec.transport_of, bind, log, log_with, throw, ret.
  rewrite !bool_decide_some_string. simpl.
  destruct (type cfg) as [ty|]; simpl; [|reflexivity].
  destruct (String.eqb ty "stdio").
  { destruct (command cfg) as [c|]; simpl; [|reflexivity].
    destruct (String.eqb c ""); reflexivity. }
  destruct (String.eqb ty "sse").
  { destruct (url cfg) as [u|]; simpl; [|reflexivity].
    destruct (String.eqb u ""); reflexivity. }
  destruct (String.eqb ty "streamableHttp").
  { destruct (url cfg) as [u|]; simpl; [|reflexivity].
    destruct (String.eqb u ""); reflexivity. }
  reflexivity.
Qed.

Lemma frame_refl st : Spec.frame 0 [] st st.
Proof.
  unfold Spec.frame. rewrite app_nil_r. repeat split; try reflexivity. lia.
Qed.

Lemma frame_trans k1 cs1 k2 cs2 st1 st2 st3 :
  Spec.frame k1 cs1 st1 st2 -> Spec.frame k2 cs2 st2 st3 ->
  Spec.frame (k1 + k2) (cs1 ++ cs2) st1 st3.
Proof.
  unfold Spec.frame. intros (a1 & a2 & a3 & a4 & a5 & a6) (b1 & b2 & b3 & b4 & b5 & b6).
  repeat split; try congruence.
  - lia.
  - rewrite b5, a5, app_assoc. reflexivity.
Qed.

Lemma frame_log msg p lv st : Spec.frame 0 [] st (snd (log_with msg p lv st)).
Proof.
  destruct (log_with_returns msg p lv st) as (st' & E & Hn & Ho & Hm & Hi & Hd & Hr).
  rewrite E. simpl. unfold Spec.frame.
  rewrite Ho, Hm, Hi, Hd, Hr, app_nil_r. repeat split; try reflexivity. lia.
Qed.

Lemma log_with_eq msg p lv st :
  log_with msg p lv st = (Return tt, snd (log_with msg p lv st)).
Proof. reflexivity. Qed.

Lemma frame_sleep ms st : Spec.frame 0 [] st (snd (sleep ms st)).
Proof.
  unfold Spec.frame, sleep, Spec.connects, Spec.closes. simpl.
  rewrite !omap_app. simpl. rewrite !app_nil_r.
  repeat split; try reflexivity. lia.
Qed.

Lemma frame_bump st : Spec.frame 1 [] st (bump_connectionAttempts st).
Proof.
  unfold Spec.frame. simpl. rewrite app_nil_r. repeat split; reflexivity.
Qed.

(** One iteration's [try] block, whatever comes of it. *)
Lemma attempt_body_frame peer cfg label i st :
  exists cs, Spec.frame 0 cs st (snd (attempt_body peer cfg label i st)).
Proof.
  unfold attempt_body.
  unfold bind at 1. unfold log at 1, log_with.
  unfold bind at 1. rewrite createTransport_spec.
  destruct (verbose (options st)) eqn:V;
    (destruct (Spec.transport_of cfg) as [e0|t];
     [ exists []; unfold log, log_with; repeat (progress (simpl; rewrite ?V));
       unfold Spec.frame; simpl; rewrite ?app_nil_r;
       repeat split; try reflexivity; lia
     | exists [i];
       unfold bind, modify, await, try_catch, log, log_with, throw, ret;
       repeat (progress (simpl; rewrite ?V));
       destruct (connect peer i t) as [[] d|e1 d|];
       repeat (progress (simpl; rewrite ?V));
       try destruct (verify peer i) as [v d'|e1 d'|];
       repeat (progress (simpl; rewrite ?V));
       unfold Spec.frame, Spec.connects, Spec.closes; simpl;
       rewrite ?omap_app; simpl; rewrite ?app_nil_r;
       repeat split; try reflexivity; lia ]).
Qed.


Lemma retry_pause_returns attempt st :
  exists st', retry_pause attempt st = (Return tt, st') /\ Spec.frame 0 [] st st'.
Proof.
  unfold retry_pause. destruct (0 <? attempt)%nat.
  - unfold bind, log. rewrite log_with_eq. unfold sleep at 1.
    eexists. split; [reflexivity|].
    refine (frame_trans 0 [] 0 [] _ _ _ _ _); [apply frame_log | apply frame_sleep].
  - eexists. split; [reflexivity|]. apply frame_refl.
Qed.

(** One turn of the loop. *)
Lemma connect_loop_step peer cfg label remaining attempt lastError st :
  connect_loop peer cfg label (S remaining) attempt lastError st
  = match retry_pause attempt (bump_connectionAttempts st) with
    | (Return _, st2) =>
        match attempt_body peer cfg label attempt st2 with
        | (Return s, st3) => (Return s, st3)
        | (Throw error, st3) =>
            connect_loop peer cfg label remaining (S attempt) (Some error)
              (snd (log ("Connection attempt " +:+ Js.show_Z (Z.of_nat attempt + 1)
                         +:+ " failed: " +:+ message error) ErrorLevel st3))
        | (Hangs, st3) => (Hangs, st3)
        end
    | (Throw e, st2) => (Throw e, st2)
    | (Hangs, st2) => (Hangs, st2)
    end.
Proof.
  simpl. unfold bind at 1. unfold modify at 1. unfold bind at 1.
  destruct (retry_pause attempt (bump_connectionAttempts st)) as [[[]|e|] st2];
    try reflexivity.
  unfold bind at 1, try_catch at 1. unfold bind at 1.
  destruct (attempt_body peer cfg label attempt st2) as [[s|error|] st3];
    reflexivity.
Qed.

Lemma connect_loop_zero peer cfg label attempt lastError st :
  connect_loop peer cfg label 0 attempt lastError st
  = (Throw (Spec.gave_up (retryAttempts (options st) + 1) label
              (message <$> lastError)), st).
Proof. reflexivity. Qed.





End ConnectProperties.


(** ** What the phases may change *)

Section FrameRules.

Import Advanced.

#[global] Instance quiet_preorder : PreOrder Spec.quiet.
Proof.
  split.
  - intros st. unfold Spec.quiet. repeat split; reflexivity.
  - intros s1 s2 s3 (a1 & a2 & a3 & a4 & a5) (b1 & b2 & b3 & b4 & b5).
    unfold Spec.quiet. repeat split; congruence.
Qed.

#[global] Instance grows_preorder : PreOrder Spec.grows.
Proof.
  split.
  - intros st. unfold Spec.grows. repeat split; try reflexivity.
    exists []. rewrite app_nil_r. split; [reflexivity | constructor].
  - intros s1 s2 s3 (a1 & a2 & a3 & a4 & a5 & a6 & a7 & l1 & a8 & a9)
                    (b1 & b2 & b3 & b4 & b5 & b6 & b7 & l2 & b8 & b9).
    unfold Spec.grows. repeat split; try congruence.
    exists (l1 ++ l2)%list. split.
    + rewrite b8, a8, app_assoc. reflexivity.
    + apply Forall_app. split; assumption.
Qed.

Lemma quiet_grows st st' : Spec.quiet st st' -> Spec.grows st st'.
Proof.
  intros (a1 & a2 & a3 & a4 & a5). unfold Spec.grows. rewrite a3.
  repeat split; try assumption.
  exists []. rewrite app_nil_r. split; [reflexivity | constructor].
Qed.

Section Rules.

Context (R : Framework -> Framework -> Prop) `{!PreOrder R}.

Lemma obeys_ret {A} (Q : A -> Prop) (a : A) : Q a -> Spec.obeys R Q (ret a).
Proof.
  intros H st. split; [reflexivity|]. simpl. intros b [= <-]. exact H.
Qed.

Lemma obeys_throw {A} (Q : A -> Prop) (e : JsError) : Spec.obeys R Q (throw e).
Proof. intros st. split; [reflexivity|]. simpl. discriminate. Qed.

Lemma obeys_bind {A B} (P : A -> Prop) (Q : B -> Prop) (m : M A) (k : A -> M B) :
  Spec.obeys R P m -> (forall a, P a -> Spec.obeys R Q (k a)) ->
  Spec.obeys R Q (bind m k).
Proof.
  intros Hm Hk st. unfold bind. destruct (Hm st) as [HR HP].
  destruct (m st) as [[a|e|] st1]; simpl in *.
  - destruct (Hk a (HP a eq_refl) st1) as [HR' HQ]. split.
    + etransitivity; eassumption.
    + exact HQ.
  - split; [assumption | discriminate].
  - split; [assumption | discriminate].
Qed.

Lemma obeys_try_catch {A} (Q : A -> Prop) (body : M A) (handler : JsError -> M A) :
  Spec.obeys R Q body -> (forall e, Spec.obeys R Q (handler e)) ->
  Spec.obeys R Q (try_catch body handler).
Proof.
  intros Hb Hh st. unfold try_catch. destruct (Hb st) as [HR HQ].
  destruct (body st) as [[a|e|] st1]; simpl in *.
  - split; assumption.
  - destruct (Hh e st1) as [HR' HQ']. split.
    + etransitivity; eassumption.
    + exact HQ'.
  - split; [assumption | discriminate].
Qed.

Lemma obeys_try_await {A B} (Q : B -> Prop) (fn : TestFn A) (k : A -> M B)
  (handler : Thrown -> M B) :
  Spec.keeps R fn -> (forall a, Spec.obeys R Q (k a)) ->
  (forall x, Spec.obeys R Q (handler x)) ->
  Spec.obeys R Q (try_await fn k handler).
Proof.
  intros Hf Hk Hh st. unfold try_await. specialize (Hf st).
  destruct (fn st) as [[a|x|] st1]; simpl in *.
  - destruct (Hk a st1) as [HR' HQ]. split; [etransitivity; eassumption | exact HQ].
  - destruct (Hh x st1) as [HR' HQ]. split; [etransitivity; eassumption | exact HQ].
  - split; [assumption | discriminate].
Qed.

Lemma obeys_read_error (x : Thrown) : Spec.obeys R Spec.any (read_error x).
Proof.
  destruct x as [e|v]; intros st; (split; [reflexivity | intros; exact I]).
Qed.

Lemma keeps_method {A} (Q : A -> Prop) (m : M A) :
  Spec.obeys R Q m -> Spec.keeps R (method m).
Proof.
  intros H st. rewrite method_snd. apply H.
Qed.

Lemma obeys_modify (f : Framework -> Framework) :
  (forall st, R st (f st)) -> Spec.obeys R Spec.any (modify f).
Proof. intros H st. split; [apply H | intros; exact I]. Qed.

Lemma obeys_get : Spec.obeys R Spec.any get.
Proof. intros st. split; [reflexivity | intros; exact I]. Qed.

Lemma obeys_Date_now : Spec.obeys R Spec.any Date_now.
Proof. intros st. split; [reflexivity | intros; exact I]. Qed.

End Rules.

Lemma obeys_mono {A} (R R' : Framework -> Framework -> Prop) (Q : A -> Prop) (m : M A) :
  (forall st st', R st st' -> R' st st') -> Spec.obeys R Q m -> Spec.obeys R' Q m.
Proof.
  intros H Hm st. destruct (Hm st) as [HR HQ]. split; [apply H, HR | exact HQ].
Qed.

(** *** The primitives are quiet *)

Lemma quiet_tick d st : Spec.quiet st (tick d st).
Proof. unfold Spec.quiet. repeat split; reflexivity. Qed.

Lemma quiet_set_now t st st' : Spec.quiet st st' -> Spec.quiet st (set_now t st').
Proof. unfold Spec.quiet. simpl. tauto. Qed.

Lemma quiet_log_state msg p lv st : Spec.quiet st (snd (log_with msg p lv st)).
Proof.
  destruct (log_with_returns msg p lv st) as (st' & E & Hn & Ho & Hm & Hi & Hd & Hr).
  rewrite E. simpl. unfold Spec.quiet. rewrite Ho, Hm, Hi, Hd, Hr.
  repeat split; reflexivity.
Qed.

Lemma obeys_log_with msg p lv : Spec.obeys Spec.quiet Spec.any (log_with msg p lv).
Proof. intros st. split; [apply quiet_log_state | intros; exact I]. Qed.

Lemma obeys_log msg lv : Spec.obeys Spec.quiet Spec.any (log msg lv).
Proof. apply obeys_log_with. Qed.

Lemma obeys_await {A} (s : Settle A) : Spec.obeys Spec.quiet Spec.any (await s).
Proof.
  intros st. split; [|intros; exact I].
  destruct s; simpl; try apply quiet_tick. reflexivity.
Qed.

Lemma keeps_await_callback {A} (c : Callback A) :
  Spec.keeps Spec.quiet (await_callback c).
Proof.
  intros st. destruct c as [s|v d]; simpl.
  - rewrite method_snd. apply obeys_await.
  - apply quiet_tick.
Qed.

Lemma keeps_race {A} name (fn : TestFn A) :
  Spec.keeps Spec.quiet fn -> Spec.keeps Spec.quiet (race name fn).
Proof.
  intros H st. unfold race. specialize (H st).
  destruct (fn st) as [[a|x|] st1]; simpl in *;
    try destruct (_ <=? _); simpl; try assumption;
    now apply quiet_set_now.
Qed.

Lemma quiet_bump_tests st : Spec.quiet st (bump_totalTestsRun st).
Proof. unfold Spec.quiet. repeat split; reflexivity. Qed.

Lemma quiet_bump_assertions st : Spec.quiet st (bump_totalAssertions st).
Proof. unfold Spec.quiet. repeat split; reflexivity. Qed.

(** The executor is quiet when the test function is, and what it returns
    has one of the two statuses. *)
Lemma obeys_executeTest_fn name (fn : TestFn Value) :
  Spec.keeps Spec.quiet fn ->
  Spec.obeys Spec.quiet Spec.wf_test (executeTest name fn).
Proof.
  intros Hfn. unfold executeTest.
  eapply obeys_bind; [typeclasses eauto | apply obeys_Date_now; typeclasses eauto |].
  intros startTime _.
  eapply obeys_bind;
    [typeclasses eauto | apply obeys_modify, quiet_bump_tests |].
  intros _ _.
  eapply obeys_bind; [typeclasses eauto | apply obeys_log |]. intros _ _.
  apply obeys_try_await; [typeclasses eauto | apply keeps_race, Hfn | |].
  - intros v.
    eapply obeys_bind; [typeclasses eauto | apply obeys_Date_now; typeclasses eauto |].
    intros t _.
    eapply obeys_bind; [typeclasses eauto | apply obeys_log |]. intros _ _.
    apply obeys_ret; [typeclasses eauto|]. now left.
  - intros x.
    eapply obeys_bind;
      [typeclasses eauto | apply obeys_read_error; typeclasses eauto |].
    intros e _.
    eapply obeys_bind; [typeclasses eauto | apply obeys_Date_now; typeclasses eauto |].
    intros t _.
    eapply obeys_bind; [typeclasses eauto | apply obeys_log |]. intros _ _.
    eapply obeys_bind with (P := Spec.any); [typeclasses eauto | |].
    + destruct (details e);
        [apply obeys_log_with | apply obeys_ret; [typeclasses eauto | exact I]].
    + intros _ _. apply obeys_ret; [typeclasses eauto|]. now right.
Qed.

Lemma obeys_executeTest name (fn : M Value) :
  Spec.obeys Spec.quiet Spec.any fn ->
  Spec.obeys Spec.quiet Spec.wf_test (executeTest name fn).
Proof.
  intros Hfn. apply obeys_executeTest_fn.
  apply (keeps_method Spec.quiet Spec.any), Hfn.
Qed.

(** Proof steps for the rules above: the quiet primitives, then
    sequencing and [try]/[catch]. *)
Ltac quiet_prim :=
  first
    [ apply obeys_log
    | apply obeys_log_with
    | apply obeys_await
    | apply obeys_Date_now; typeclasses eauto
    | apply obeys_get; typeclasses eauto
    | apply obeys_throw; typeclasses eauto
    | apply obeys_ret; [typeclasses eauto | try exact I]
    | apply obeys_modify, quiet_bump_assertions ].

Ltac quiet_steps :=
  repeat first
    [ quiet_prim
    | eapply obeys_bind; [typeclasses eauto | quiet_prim | intros ? _]
    | apply obeys_try_catch; [typeclasses eauto | | intros ?] ].

Lemma quiet_list_tools_fn peer : Spec.obeys Spec.quiet Spec.any (list_tools_fn peer).
Proof. unfold list_tools_fn. quiet_steps. Qed.

Lemma quiet_list_resources_fn peer :
  Spec.obeys Spec.quiet Spec.any (list_resources_fn peer).
Proof. unfold list_resources_fn. quiet_steps. Qed.

Lemma quiet_list_prompts_fn peer :
  Spec.obeys Spec.quiet Spec.any (list_prompts_fn peer).
Proof. unfold list_prompts_fn. quiet_steps. Qed.

Lemma quiet_validate_arguments data schema :
  Spec.obeys Spec.quiet Spec.any (validate_arguments data schema).
Proof.
  unfold validate_arguments. destruct data; [quiet_steps|].
  destruct (default [] (sc_required schema));
    [destruct (default [] (sc_properties schema)) as [|[] ?]|]; quiet_steps.
Qed.

Lemma quiet_run_assertions tool r rest :
  forall i done, Spec.obeys Spec.quiet Spec.any (run_assertions tool r rest i done).
Proof.
  induction rest as [|a rest IH]; intros i done; simpl.
  - quiet_steps.
  - eapply obeys_bind;
      [typeclasses eauto | apply obeys_modify, quiet_bump_assertions | intros ? _].
    eapply obeys_bind with (P := Spec.any); [typeclasses eauto | | intros ? _].
    + apply obeys_try_await;
        [typeclasses eauto | apply keeps_await_callback | intros ? | intros ?].
      * quiet_steps.
      * eapply obeys_bind;
          [typeclasses eauto | apply obeys_read_error; typeclasses eauto
          | intros ? _].
        quiet_steps.
    + apply IH.
Qed.

Lemma quiet_tool_test_fn peer toolTest :
  Spec.obeys Spec.quiet Spec.any (tool_test_fn peer toolTest).
Proof.
  unfold tool_test_fn.
  eapply obeys_bind; [typeclasses eauto | quiet_prim | intros tools _].
  destruct (find _ tools) as [tool|]; [|quiet_steps].
  eapply obeys_bind; [typeclasses eauto | quiet_prim | intros st _].
  eapply obeys_bind with (P := Spec.any); [typeclasses eauto | | intros ? _].
  { destruct (if validateSchemas (options st) then inputSchema tool else None);
      [|quiet_steps].
    eapply obeys_bind;
      [typeclasses eauto | apply quiet_validate_arguments | intros v _].
    destruct (valid v); quiet_steps. }
  eapply obeys_bind; [typeclasses eauto | quiet_prim | intros startTime _].
  eapply obeys_bind with (P := Spec.any); [typeclasses eauto | | intros callResult _].
  { quiet_steps. }
  eapply obeys_bind; [typeclasses eauto | quiet_prim | intros t _].
  eapply obeys_bind with (P := Spec.any); [typeclasses eauto | | intros ? _].
  { destruct (_ <? _); quiet_steps. }
  destruct callResult as [[[items|] size]|]; try quiet_steps.
  eapply obeys_bind;
    [typeclasses eauto | apply quiet_run_assertions | intros ? _].
  quiet_steps.
Qed.

(** *** The phases grow the suite *)

Lemma obeys_push_test t :
  Spec.wf_test t -> Spec.obeys Spec.grows Spec.any (push_test t).
Proof.
  intros Ht st. split; [|intros; exact I].
  unfold push_test, update_draft, modify, Spec.grows. simpl.
  repeat split; try reflexivity.
  exists [t]. split; [reflexivity | now constructor].
Qed.

(** Running one test through the executor and recording it. *)
Lemma obeys_run_one_fn name (fn : TestFn Value) :
  Spec.keeps Spec.quiet fn ->
  Spec.obeys Spec.grows Spec.any (t <- executeTest name fn ;; push_test t).
Proof.
  intros Hfn.
  eapply obeys_bind; [typeclasses eauto | | ].
  - apply (obeys_mono Spec.quiet Spec.grows); [apply quiet_grows|].
    apply obeys_executeTest_fn, Hfn.
  - intros t Ht. apply obeys_push_test, Ht.
Qed.

Lemma obeys_run_one name (fn : M Value) :
  Spec.obeys Spec.quiet Spec.any fn ->
  Spec.obeys Spec.grows Spec.any (t <- executeTest name fn ;; push_test t).
Proof.
  intros Hfn. apply obeys_run_one_fn.
  apply (keeps_method Spec.quiet Spec.any), Hfn.
Qed.

Lemma obeys_run_tests tests :
  Forall (fun nf => Spec.obeys Spec.quiet Spec.any (snd nf)) tests ->
  Spec.obeys Spec.grows Spec.any (run_tests tests).
Proof.
  induction 1 as [|[name fn] rest Hfn _ IH]; simpl.
  - apply obeys_ret; [typeclasses eauto | exact I].
  - eapply obeys_bind; [typeclasses eauto | | ].
    + apply (obeys_mono Spec.quiet Spec.grows); [apply quiet_grows|].
      apply obeys_executeTest, Hfn.
    + intros t Ht.
      eapply obeys_bind; [typeclasses eauto | apply obeys_push_test, Ht |].
      intros _ _. exact IH.
Qed.

Lemma obeys_runDiscoveryTests peer :
  Spec.obeys Spec.grows Spec.any (runDiscoveryTests peer).
Proof.
  apply obeys_run_tests.
  constructor; [apply quiet_list_tools_fn|].
  constructor; [apply quiet_list_resources_fn|].
  constructor; [apply quiet_list_prompts_fn|].
  constructor.
Qed.

Lemma obeys_runStabilityTests m :
  Spec.obeys Spec.grows Spec.any (runStabilityTests m).
Proof.
  apply obeys_run_tests.
  repeat (constructor; [apply obeys_await|]). constructor.
Qed.

Lemma obeys_runPerformanceTests m :
  Spec.obeys Spec.grows Spec.any (runPerformanceTests m).
Proof.
  apply obeys_run_tests.
  repeat (constructor; [apply obeys_await|]). constructor.
Qed.

Lemma obeys_runProtocolComplianceTests peer :
  Spec.obeys Spec.grows Spec.any (runProtocolComplianceTests peer).
Proof.
  apply obeys_run_tests.
  repeat (constructor; [simpl; quiet_steps|]). constructor.
Qed.

Lemma obeys_runErrorHandlingTests peer m :
  Spec.obeys Spec.grows Spec.any (runErrorHandlingTests peer m).
Proof.
  apply obeys_run_tests.
  repeat (constructor; [simpl; quiet_steps|]). constructor.
Qed.

Lemma obeys_runCustomTest test :
  Spec.obeys Spec.grows Spec.any (runCustomTest test).
Proof.
  destruct test as [t|]; simpl.
  - apply obeys_run_one_fn, keeps_await_callback.
  - apply obeys_throw. typeclasses eauto.
Qed.

Lemma obeys_run_custom_tests tests :
  Spec.obeys Spec.grows Spec.any (run_custom_tests tests).
Proof.
  induction tests as [|t rest IH]; simpl.
  - apply obeys_ret; [typeclasses eauto | exact I].
  - eapply obeys_bind; [typeclasses eauto | apply obeys_runCustomTest |].
    intros _ _. exact IH.
Qed.

Lemma obeys_run_tool_tests peer tests :
  Spec.obeys Spec.grows Spec.any (run_tool_tests peer tests).
Proof.
  induction tests as [|t rest IH]; simpl.
  - apply obeys_ret; [typeclasses eauto | exact I].
  - eapply obeys_bind with (P := Spec.any); [typeclasses eauto | |].
    + destruct t as [t|]; simpl.
      * apply obeys_run_one, quiet_tool_test_fn.
      * apply obeys_throw. typeclasses eauto.
    + intros _ _. exact IH.
Qed.

Lemma obeys_when b m :
  Spec.obeys Spec.grows Spec.any m -> Spec.obeys Spec.grows Spec.any (when b m).
Proof.
  intros H. destruct b; simpl; [exact H|].
  apply obeys_ret; [typeclasses eauto | exact I].
Qed.

Lemma obeys_run_phases peer m cfg tests :
  Spec.obeys Spec.grows Spec.any (run_phases peer m cfg tests).
Proof.
  unfold run_phases.
  eapply obeys_bind;
    [typeclasses eauto | apply obeys_when, obeys_runDiscoveryTests | intros _ _].
  eapply obeys_bind;
    [typeclasses eauto | apply obeys_when, obeys_runStabilityTests | intros _ _].
  eapply obeys_bind;
    [typeclasses eauto | apply obeys_when, obeys_runProtocolComplianceTests
    | intros _ _].
  eapply obeys_bind;
    [typeclasses eauto | apply obeys_when, obeys_runPerformanceTests | intros _ _].
  eapply obeys_bind;
    [typeclasses eauto | apply obeys_when, obeys_runErrorHandlingTests | intros _ _].
  eapply obeys_bind with (P := Spec.any); [typeclasses eauto | | intros _ _].
  { destruct (customTests tests);
      [apply obeys_run_custom_tests | apply obeys_ret; [typeclasses eauto | exact I]]. }
  eapply obeys_bind with (P := Spec.any); [typeclasses eauto | | intros _ _].
  { destruct (toolTests tests);
      [apply obeys_run_tool_tests | apply obeys_ret; [typeclasses eauto | exact I]]. }
  destruct (transportTests tests) as [table|];
    [|apply obeys_ret; [typeclasses eauto | exact I]].
  destruct (Json.assoc _ table);
    [apply obeys_run_custom_tests | apply obeys_ret; [typeclasses eauto | exact I]].
Qed.

End FrameRules.

(** ** The suite runner *)

Section ServerProperties.

Import Advanced.

(** The connection manager, whatever comes of it, stays within a frame. *)
Lemma connect_loop_frame peer cfg label :
  forall remaining attempt lastError st,
    exists k cs,
      Spec.frame k cs st
        (snd (connect_loop peer cfg label remaining attempt lastError st)).
Proof.
  induction remaining as [|r IH]; intros attempt lastError st.
  - exists 0, []. rewrite connect_loop_zero. apply frame_refl.
  - rewrite connect_loop_step.
    destruct (retry_pause_returns attempt (bump_connectionAttempts st))
      as (st2 & -> & F2).
    pose proof (frame_trans _ _ _ _ _ _ _ (frame_bump st) F2) as G1.
    destruct (attempt_body_frame peer cfg label attempt st2) as (cs & F3).
    pose proof (frame_trans _ _ _ _ _ _ _ G1 F3) as G2.
    destruct (attempt_body peer cfg label attempt st2) as [[s|error|] st3];
      cbv beta iota.
    + eexists _, _. exact G2.
    + set (st4 := snd (log _ ErrorLevel st3)).
      assert (F4 : Spec.frame 0 [] st3 st4) by apply frame_log.
      pose proof (frame_trans _ _ _ _ _ _ _ G2 F4) as G3.
      destruct (IH (S attempt) (Some error) st4) as (k & cs' & F').
      eexists _, _. exact (frame_trans _ _ _ _ _ _ _ G3 F').
    + eexists _, _. exact G2.
Qed.

Lemma connectToServer_frame peer cfg st :
  exists k cs, Spec.frame k cs st (snd (connectToServer peer cfg st)).
Proof. unfold connectToServer, bind, get. apply connect_loop_frame. Qed.

(** An error ends a sequence where it is thrown: what follows does not
    run. *)
Lemma bind_aborts {A B} (m : M A) (k : A -> M B) st e st' :
  m st = (Throw e, st') -> bind m k st = (Throw e, st').
Proof. unfold bind. intros ->. reflexivity. Qed.

(** [testServer], by the way connecting and the phases end. *)
Lemma testServer_unfold peer m cfg tests st :
  testServer peer m cfg tests st
  = match connectToServer peer cfg (Spec.suite_start st) with
    | (Hangs, st1) => (Hangs, st1)
    | (Throw E, st1) =>
        suite_finally peer cfg tests (now st) (snd (suite_catch E st1))
    | (Return s, st1) =>
        match run_phases peer m cfg tests (Spec.session_start s st1) with
        | (Hangs, st3) => (Hangs, st3)
        | (Throw e, st3) =>
            suite_finally peer cfg tests (now st) (snd (suite_catch e st3))
        | (Return _, st3) =>
            suite_finally peer cfg tests (now st)
              (set_draft (set_status "passed" (draft st3)) st3)
        end
    end.
Proof.
  unfold testServer, Spec.suite_start, Spec.session_start.
  unfold bind at 1. unfold Date_now at 1. unfold bind at 1. unfold modify at 1.
  unfold try_finally_with, try_catch, suite_body.
  unfold bind at 1.
  destruct (connectToServer peer cfg (set_draft empty_draft st))
    as [[s|E|] st1]; try reflexivity.
  unfold bind at 1. unfold update_draft at 1. unfold modify at 1.
  unfold bind at 1.
  destruct (run_phases peer m cfg tests _) as [[[]|e|] st3]; reflexivity.
Qed.

(** The [catch] block marks the suite failed and keeps its tests. *)
Lemma suite_catch_draft e st :
  draft (snd (suite_catch e st))
  = {| d_tests := d_tests (draft st); d_status := Some "failed";
       d_error := Some (Spec.suite_error_of e); d_client := d_client (draft st) |}.
Proof.
  unfold suite_catch, bind, update_draft, modify, log, log_with. simpl.
  rewrite orb_true_r. reflexivity.
Qed.

Lemma suite_catch_frame e st :
  options (snd (suite_catch e st)) = options st
  /\ results (snd (suite_catch e st)) = results st
  /\ io (snd (suite_catch e st)) = io st
  /\ metrics (snd (suite_catch e st)) = metrics st.
Proof.
  unfold suite_catch, bind, update_draft, modify, log, log_with. simpl.
  rewrite orb_true_r. repeat split; reflexivity.
Qed.

(** The [finally] block: it closes the client if there is one, completes
    the result from the locals and records it; or it waits for ever on a
    [close] that never settles. *)
Lemma suite_finally_spec peer cfg tests start st :
  match suite_finally peer cfg tests start st with
  | (Return r, st') =>
      s_tests r = d_tests (draft st) /\
      s_status r = d_status (draft st) /\
      s_error r = d_error (draft st) /\
      s_transport r = type cfg /\
      s_config r = sanitizeConfig cfg /\
      results st' = (results st ++ [r])%list /\
      options st' = options st /\
      metrics st' = metrics st /\
      Spec.connects (io st') = Spec.connects (io st) /\
      Spec.closes (io st')
      = (Spec.closes (io st)
         ++ match d_client (draft st) with Some c => [client c] | None => [] end)%list
  | (Throw _, _) => False
  | (Hangs, st') => results st' = results st
  end.
Proof.
  unfold suite_finally, close_client.
  unfold bind at 1. unfold bind at 1. unfold get at 1.
  destruct (d_client (draft st)) as [c|] eqn:Ec.
  - unfold try_catch, bind, modify, await, log, log_with, Date_now, get, ret.
    destruct (close peer) as [[] d|e d|]; simpl.
    + rewrite ?Ec. unfold Spec.connects, Spec.closes.
      rewrite !omap_app. simpl. rewrite !app_nil_r.
      repeat split; reflexivity.
    + rewrite ?orb_true_r. simpl. rewrite ?Ec. unfold Spec.connects, Spec.closes.
      rewrite !omap_app. simpl. rewrite !app_nil_r.
      repeat split; reflexivity.
    + reflexivity.
  - unfold bind, modify, Date_now, get, ret. simpl. rewrite ?Ec, ?app_nil_r.
    repeat split; reflexivity.
Qed.

Lemma suite_start_frame peer cfg st s st1 :
  connectToServer peer cfg (Spec.suite_start st) = (Return s, st1) ->
  options st1 = options st /\ results st1 = results st
  /\ draft st1 = empty_draft
  /\ Spec.closes (io st1) = Spec.closes (io st).
Proof.
  intros H. destruct (connectToServer_frame peer cfg (Spec.suite_start st))
    as (k & cs & F).
  rewrite H in F. destruct F as (a1 & a2 & a3 & _ & _ & a6). simpl in *.
  repeat split; assumption.
Qed.

(** C6.  Once a Session is established, every way out of [testServer]
    closes its client exactly once, and [testServer] returns the suite
    result it recorded.  An error that escapes a phase ends the phases
    there: the suite is failed with that error and keeps the tests
    recorded up to that point; when no phase fails the suite is passed. *)
Theorem testServer_closes_session_once
  (peer : Peer) (m : Measured) (cfg : TransportConfig) (tests : Tests)
  (st : Framework) (s : Session) (st1 : Framework) :
  connectToServer peer cfg (Spec.suite_start st) = (Return s, st1) ->
  forall (o : Outcome SuiteResult) (st' : Framework),
    testServer peer m cfg tests st = (o, st') -> o <> Hangs ->
    Spec.closes (io st') = (Spec.closes (io st) ++ [client s])%list /\
    exists r : SuiteResult,
      o = Return r /\ results st' = (results st ++ [r])%list /\
      (forall e st3,
          run_phases peer m cfg tests (Spec.session_start s st1) = (Throw e, st3) ->
          s_status r = Some "failed" /\
          s_error r = Some (Spec.suite_error_of e) /\
          s_tests r = d_tests (draft st3)) /\
      (forall u st3,
          run_phases peer m cfg tests (Spec.session_start s st1) = (Return u, st3) ->
          s_status r = Some "passed" /\ s_error r = None /\
          s_tests r = d_tests (draft st3)).
Proof.
  intros Hc o st' Ht Ho.
  destruct (suite_start_frame _ _ _ _ _ Hc) as (Hopt & Hres & Hdr & Hcl).
  rewrite testServer_unfold, Hc in Ht.
  destruct (obeys_run_phases peer m cfg tests (Spec.session_start s st1))
    as [(g1 & g2 & g3 & g4 & g5 & g6 & g7 & l & g8 & g9) _].
  destruct (run_phases peer m cfg tests (Spec.session_start s st1))
    as [[u|e|] st3] eqn:Ep; simpl in g1, g2, g3, g4, g5, g6, g7, g8.
  - set (st4 := set_draft (set_status "passed" (draft st3)) st3) in Ht.
    pose proof (suite_finally_spec peer cfg tests (now st) st4) as F.
    rewrite Ht in F. destruct o as [r| |]; [|contradiction|contradiction].
    destruct F as (f1 & f2 & f3 & _ & _ & f6 & _ & _ & _ & f10).
    simpl in f1, f2, f3, f6, f10. rewrite g5 in f10. split.
    + rewrite f10, g3, Hcl. reflexivity.
    + exists r. split; [reflexivity|]. split; [now rewrite f6, g2, Hres|].
      split; [intros e' st3' [=]|].
      intros u' st3' [= _ <-]. rewrite f2, f3, g7, Hdr. repeat split.
      exact f1.
  - pose proof (suite_finally_spec peer cfg tests (now st)
                  (snd (suite_catch e st3))) as F.
    rewrite Ht in F. destruct o as [r| |]; [|contradiction|contradiction].
    destruct (suite_catch_frame e st3) as (c1 & c2 & c3 & _).
    rewrite suite_catch_draft, c1, c2, c3 in F.
    destruct F as (f1 & f2 & f3 & _ & _ & f6 & _ & _ & _ & f10).
    simpl in f1, f2, f3, f6, f10. rewrite g5 in f10. split.
    + rewrite f10, g3, Hcl. reflexivity.
    + exists r. split; [reflexivity|]. split; [now rewrite f6, g2, Hres|].
      split; [|intros u' st3' [=]].
      intros e' st3' [= <- <-]. repeat split; assumption.
  - injection Ht as <- <-. contradiction.
Qed.





End ServerProperties.

(** ** The suite runner on concrete runs *)


Example invalid_descriptor_top_level_error :
  option_map Advanced.se_code
    (match fst (Advanced.testServer unreachable_peer silent_measured
                  sse_without_url no_tests framework_retry2) with
     | Advanced.Return r => Advanced.s_error r
     | _ => None
     end)
  = Some (Some "CONNECTION_ERROR").
Proof. vm_compute. reflexivity. Qed.


(** A suite whose custom tests hold a [null]: the first test is recorded,
    the [null] ends the phases, the third test never runs, and the client
    is closed once. *)
Example broken_suite_outcome :
  match Advanced.testServer tools_only_peer silent_measured stdio_config
          broken_tests framework_default with
  | (Advanced.Return r, st') =>
      Advanced.s_status r = Some "failed"
      /\ map outline (Advanced.s_tests r) = [("first", "passed", None)]
      /\ Spec.closes (Advanced.io st') = [0%nat]
  | _ => False
  end.
Proof. vm_compute. repeat split; reflexivity. Qed.

Lemma testServer_closes_session_once_witness :
  Spec.closes
    (Advanced.io
       (snd (Advanced.testServer tools_only_peer silent_measured stdio_config
               broken_tests framework_default)))
  = [0%nat]
  /\ exists r,
      fst (Advanced.testServer tools_only_peer silent_measured stdio_config
             broken_tests framework_default) = Advanced.Return r
      /\ Advanced.s_status r = Some "failed".
Proof.
  destruct (testServer_closes_session_once
              tools_only_peer silent_measured stdio_config broken_tests
              framework_default
              stdio_session
              (snd (Advanced.connectToServer tools_only_peer stdio_config
                      (Spec.suite_start framework_default)))
              eq_refl
              (fst (Advanced.testServer tools_only_peer silent_measured
                      stdio_config broken_tests framework_default))
              (snd (Advanced.testServer tools_only_peer silent_measured
                      stdio_config broken_tests framework_default)))
    as (Hcl & r & Hr & _ & Hfail & _).
  - apply surjective_pairing.
  - vm_compute. discriminate.
  - split; [exact Hcl|]. exists r. split; [exact Hr|].
    refine (proj1 (Hfail
                     (Advanced.TypeError
                        "Cannot read properties of null (reading 'name')")
                     (snd (Advanced.run_phases tools_only_peer silent_measured
                             stdio_config broken_tests
                             (Spec.session_start stdio_session
                                (snd (Advanced.connectToServer tools_only_peer
                                        stdio_config
                                        (Spec.suite_start framework_default))))))
                     _)).
    vm_compute. reflexivity.
Defined.

(** ** The discovery phase and a server without resources or prompts *)

Section DiscoveryProperties.

Import Advanced.

(** A rejected listing makes the v2 test function throw the same error. *)
Lemma list_resources_fn_rejected peer e d st :
  listResources peer = Rejects e d ->
  list_resources_fn peer st = (Throw e, tick d st).
Proof.
  intros H. unfold list_resources_fn, bind, Date_now, await. rewrite H.
  reflexivity.
Qed.

Lemma list_prompts_fn_rejected peer e d st :
  listPrompts peer = Rejects e d ->
  list_prompts_fn peer st = (Throw e, tick d st).
Proof.
  intros H. unfold list_prompts_fn, bind, Date_now, await. rewrite H.
  reflexivity.
Qed.

Lemma completes_rejected {A} (fn : M A) e d st T :
  fn st = (Throw e, tick d st) -> d <= T -> Spec.completes fn st T.
Proof.
  intros H Hd. unfold Spec.completes. rewrite method_run, H. simpl.
  split; [discriminate | lia].
Qed.

(** C1, on the v2 framework.  A rejected [listResources] or [listPrompts]
    that loses no race against the timeout is recorded as that test's
    failure with the message of the error, whatever the message says: a
    "Method not found" error is recorded as a failure too, not as a passed
    test with count 0. *)
Theorem discovery_rejection_is_recorded_as_failure
  (peer : Peer) (st : Framework) (e : JsError) (d : Z) :
  d <= timeout (options st) ->
  (listResources peer = Rejects e d ->
   exists t st',
     executeTest "List Resources" (list_resources_fn peer) st = (Return t, st')
     /\ t_status t = "failed" /\ t_error t = Some (message e)) /\
  (listPrompts peer = Rejects e d ->
   exists t st',
     executeTest "List Prompts" (list_prompts_fn peer) st = (Return t, st')
     /\ t_status t = "failed" /\ t_error t = Some (message e)).
Proof.
  intros Hd. split; intros H.
  - destruct (executeTest_outcome "List Resources"
                (list_resources_fn peer) st)
      as (t & st' & E & _ & _ & _ & _ & Hthrow & _).
    exists t, st'. split; [exact E|].
    apply (Hthrow e).
    + eapply completes_rejected;
        [apply list_resources_fn_rejected, H | exact Hd].
    + now rewrite (list_resources_fn_rejected _ _ _ _ H).
  - destruct (executeTest_outcome "List Prompts"
                (list_prompts_fn peer) st)
      as (t & st' & E & _ & _ & _ & _ & Hthrow & _).
    exists t, st'. split; [exact E|].
    apply (Hthrow e).
    + eapply completes_rejected;
        [apply list_prompts_fn_rejected, H | exact Hd].
    + now rewrite (list_prompts_fn_rejected _ _ _ _ H).
Qed.

(** The earlier framework does what the claim says: a "Method not found"
    rejection in time gives a passed test that reports count 0, any other
    rejection a failed one. *)
Lemma legacy_method_not_found_is_absent_capability
  (peer : Peer) (st : Framework) (e : JsError) (d : Z) :
  listResources peer = Rejects e d -> d <= timeout (options st) ->
  exists t st',
    Legacy.executeTest "List Resources" (Legacy.list_resources_fn peer) st
    = (Return t, st') /\
    if Js.includes (message e) "Method not found"
    then t_status t = "passed" /\ reported_count t = Some (VNum 0)
    else t_status t = "failed" /\ t_error t = Some (message e).
Proof.
  intros H Hd.
  unfold Legacy.executeTest, Legacy.list_resources_fn, Legacy.race,
    Legacy.absent_or_rethrow, Legacy.log, bind, try_catch, try_await, method,
    read_error, Date_now, await, ret, throw.
  rewrite H.
  destruct (verbose (options st)) eqn:V; simpl; rewrite ?V; simpl;
    destruct (Js.includes (message e) "Method not found"); simpl;
    replace (now st + d - now st) with d by lia;
    destruct (Z.leb_spec d (timeout (options st))); try lia; simpl; rewrite ?V;
    eexists _, _; (split; [reflexivity|]); split; reflexivity.
Qed.

End DiscoveryProperties.

(** The discovery phase against a server that rejects both listings with
    "Method not found": v2 records two failures, the earlier framework two
    passed tests with count 0. *)
Example discovery_v2_tools_only :
  map outline
    (Advanced.d_tests
       (Advanced.draft
          (snd (Advanced.runDiscoveryTests tools_only_peer framework_default))))
  = [("List Tools", "passed", None);
     ("List Resources", "failed", Some "MCP error -32601: Method not found");
     ("List Prompts", "failed", Some "MCP error -32601: Method not found")].
Proof. vm_compute. reflexivity. Qed.

Example discovery_legacy_tools_only :
  map (fun t => (Advanced.t_name t, Advanced.t_status t, reported_count t))
    (Advanced.d_tests
       (Advanced.draft
          (snd (Legacy.runDiscoveryTests tools_only_peer framework_default))))
  = [("List Tools", "passed", Some (Advanced.VNum 2));
     ("List Resources", "passed", Some (Advanced.VNum 0));
     ("List Prompts", "passed", Some (Advanced.VNum 0))].
Proof. vm_compute. reflexivity. Qed.

Lemma discovery_rejection_is_recorded_as_failure_witness :
  1 <= Advanced.timeout (Advanced.options framework_default) /\
  exists t st',
    Advanced.executeTest "List Resources"
      (Advanced.list_resources_fn tools_only_peer) framework_default
    = (Advanced.Return t, st')
    /\ Advanced.t_status t = "failed"
    /\ Advanced.t_error t = Some "MCP error -32601: Method not found".
Proof.
  split; [vm_compute; discriminate|].
  apply (proj1 (discovery_rejection_is_recorded_as_failure
                  tools_only_peer framework_default method_not_found 1
                  ltac:(vm_compute; discriminate))).
  reflexivity.
Defined.


(** The timeout scenario: a test function that needs 200 ms under a 100 ms
    timeout. *)
Example executeTest_slow_test :
  exists st',
    Advanced.executeTest "Slow test"
      (Advanced.await (Advanced.Resolves (Advanced.VStr "late") 200))
      framework_timeout100
    = (Advanced.Return
         {| Advanced.t_name := "Slow test"; Advanced.t_startTime := 0;
            Advanced.t_status := "failed"; Advanced.t_result := None;
            Advanced.t_error :=
              Some ("Test " +:+ Spec.in_quotes "Slow test"
                    +:+ " timed out after 100ms");
            Advanced.t_errorCode := Some "TEST_TIMEOUT";
            Advanced.t_errorDetails :=
              Some [("testName", Advanced.VStr "Slow test");
                    ("timeout", Advanced.VNum 100)];
            Advanced.t_duration := 100 |}, st').
Proof. eexists. vm_compute. reflexivity. Qed.

(** ** Reports *)

Section ReportProperties.

Import Advanced.

Lemma tests_split (ts : list TestResult) :
  Forall Spec.wf_test ts ->
  length ts
  = (length (List.filter (has_status "passed") ts)
     + length (List.filter (has_status "failed") ts))%nat.
Proof.
  induction 1 as [|t ts Ht _ IH]; [reflexivity|].
  assert (Hc : has_status "passed" t = true /\ has_status "failed" t = false
               \/ has_status "passed" t = false /\ has_status "failed" t = true).
  { unfold has_status. destruct Ht as [-> | ->]; [left | right]; split; reflexivity. }
  cbn [List.filter length].
  destruct Hc as [[-> ->] | [-> ->]]; cbn [length]; lia.
Qed.

Lemma suites_split (rs : list SuiteResult) :
  Forall Spec.wf_suite rs ->
  length rs
  = (length (List.filter (suite_has_status "passed") rs)
     + length (List.filter (suite_has_status "failed") rs))%nat.
Proof.
  induction 1 as [|r rs [Hr _] _ IH]; [reflexivity|].
  assert (Hc : suite_has_status "passed" r = true
               /\ suite_has_status "failed" r = false
               \/ suite_has_status "passed" r = false
                  /\ suite_has_status "failed" r = true).
  { unfold suite_has_status. destruct Hr as [-> | ->]; [left | right];
      split; reflexivity. }
  cbn [List.filter length].
  destruct Hc as [[-> ->] | [-> ->]]; cbn [length]; lia.
Qed.

Lemma count_tests_from (f : list TestResult -> nat) (rs : list SuiteResult) (a : nat) :
  fold_left (fun acc r => (acc + f (s_tests r))%nat) rs a
  = (a + count_tests f rs)%nat.
Proof.
  unfold count_tests. revert a. induction rs as [|r rs IH]; intros a; simpl.
  - lia.
  - rewrite IH, (IH (f (s_tests r))). lia.
Qed.

Lemma count_tests_cons f r rs :
  count_tests f (r :: rs) = (f (s_tests r) + count_tests f rs)%nat.
Proof. unfold count_tests at 1. simpl. apply count_tests_from. Qed.

Lemma all_tests_split (rs : list SuiteResult) :
  Forall Spec.wf_suite rs ->
  count_tests (fun ts => length ts) rs
  = (count_tests (fun ts => length (List.filter (has_status "passed") ts)) rs
     + count_tests (fun ts => length (List.filter (has_status "failed") ts)) rs)%nat.
Proof.
  induction 1 as [|r rs [_ Hts] _ IH]; [reflexivity|].
  rewrite !count_tests_cons, IH, (tests_split _ Hts). lia.
Qed.

(** Every entry of the per-transport table adds up, whatever the statuses. *)

Lemma summary_step_adds_up (summary : gmap string Stats) (r : SuiteResult) :
  map_Forall (fun _ s => Spec.adds_up s) summary ->
  map_Forall (fun _ s => Spec.adds_up s) (summary_step summary r).
Proof.
  intros H k s. unfold summary_step.
  set (key := Js.show_opt (s_transport r)).
  destruct (Js.inherited key); [apply H|].
  assert (He : Spec.adds_up (default {| total := 0; passed := 0; failed := 0 |}
                          (summary !! key))).
  { destruct (summary !! key) as [x|] eqn:E; simpl.
    - exact (H key x E).
    - reflexivity. }
  destruct (decide (key = k)) as [<-|Hne].
  - rewrite lookup_insert_eq. intros [= <-]. unfold Spec.adds_up in *.
    destruct (suite_has_status "passed" r); simpl; lia.
  - rewrite lookup_insert_ne by assumption. apply H.
Qed.

Lemma getTransportSummary_adds_up (rs : list SuiteResult) :
  map_Forall (fun _ s => Spec.adds_up s) (getTransportSummary rs).
Proof.
  unfold getTransportSummary.
  assert (G : forall (m : gmap string Stats),
             map_Forall (fun _ s => Spec.adds_up s) m ->
             map_Forall (fun _ s => Spec.adds_up s) (fold_left summary_step rs m)).
  { induction rs as [|r rs IH]; intros m Hm; simpl; [exact Hm|].
    apply IH, summary_step_adds_up, Hm. }
  apply G. intros k s. rewrite lookup_empty. discriminate.
Qed.

(** [testServer] records at most one result, and a well-formed one. *)
Lemma testServer_records peer m cfg tests st :
  results (snd (testServer peer m cfg tests st)) = results st
  \/ exists r, results (snd (testServer peer m cfg tests st))
               = (results st ++ [r])%list
               /\ Spec.wf_suite r.
Proof.
  rewrite testServer_unfold.
  destruct (connectToServer_frame peer cfg (Spec.suite_start st))
    as (k & cs & (a1 & a2 & a3 & _)).
  destruct (connectToServer peer cfg (Spec.suite_start st))
    as [[s|E|] st1]; simpl in a1, a2, a3.
  - destruct (obeys_run_phases peer m cfg tests (Spec.session_start s st1))
      as [(g1 & g2 & g3 & g4 & g5 & g6 & g7 & l & g8 & g9) _].
    destruct (run_phases peer m cfg tests (Spec.session_start s st1))
      as [[u|e|] st3]; simpl in g1, g2, g3, g4, g5, g6, g7, g8.
    + set (st4 := set_draft (set_status "passed" (draft st3)) st3).
      pose proof (suite_finally_spec peer cfg tests (now st) st4) as F.
      destruct (suite_finally peer cfg tests (now st) st4) as [[r|x|] st'].
      * right. exists r. destruct F as (f1 & f2 & _ & _ & _ & f6 & _).
        simpl in f1, f2, f6 |- *. split; [now rewrite f6, g2, a2|].
        split; [now left|]. rewrite f1, g8, a3. exact g9.
      * contradiction.
      * left. simpl in F |- *. now rewrite F, g2, a2.
    + pose proof (suite_finally_spec peer cfg tests (now st)
                    (snd (suite_catch e st3))) as F.
      destruct (suite_catch_frame e st3) as (c1 & c2 & c3 & _).
      destruct (suite_finally peer cfg tests (now st) (snd (suite_catch e st3)))
        as [[r|x|] st'].
      * right. exists r. rewrite suite_catch_draft, c2 in F.
        destruct F as (f1 & f2 & _ & _ & _ & f6 & _).
        simpl in f1, f2, f6 |- *. split; [now rewrite f6, g2, a2|].
        split; [now right|]. rewrite f1, g8, a3. exact g9.
      * contradiction.
      * left. simpl. now rewrite F, c2, g2, a2.
    + left. simpl. now rewrite g2, a2.
  - pose proof (suite_finally_spec peer cfg tests (now st)
                  (snd (suite_catch E st1))) as F.
    destruct (suite_catch_frame E st1) as (c1 & c2 & c3 & _).
    destruct (suite_finally peer cfg tests (now st) (snd (suite_catch E st1)))
      as [[r|x|] st'].
    + right. exists r. rewrite suite_catch_draft, c2 in F.
      destruct F as (f1 & f2 & _ & _ & _ & f6 & _).
      simpl in f1, f2, f6 |- *. split; [now rewrite f6, a2|].
      split; [now right|]. rewrite f1, a3. constructor.
    + contradiction.
    + left. simpl. now rewrite F, c2, a2.
  - left. simpl. exact a2.
Qed.

Lemma generateReport_results save st :
  results (snd (generateReport save st)) = results st.
Proof.
  unfold generateReport, bind, get, try_catch, await, log, log_with, ret.
  destruct save as [p d|e d|]; simpl; try reflexivity;
    destruct (verbose (options st)); reflexivity.
Qed.

(** Every result a framework object holds has one of the two statuses,
    and so has every test in it. *)
Lemma reachable_results_wf (st : Framework) :
  Spec.reachable st -> Forall Spec.wf_suite (results st).
Proof.
  induction 1 as [o t|st peer m cfg tests _ IH|st save _ IH].
  - constructor.
  - destruct (testServer_records peer m cfg tests st) as [->|(r & -> & Hr)].
    + exact IH.
    + apply Forall_app. split; [exact IH | now constructor].
  - now rewrite generateReport_results.
Qed.

(** C10.  In any state a framework object reaches, every recorded suite
    has status passed or failed and so has every recorded test; and in
    every report generated there the suite counts, the test counts and
    each per-transport entry add up. *)
Theorem report_counts_add_up (st : Framework) (save : Settle string)
  (report : Report) (st' : Framework) :
  Spec.reachable st ->
  generateReport save st = (Return report, st') ->
  Forall Spec.wf_suite (rep_results report) /\
  sum_total (rep_summary report)
  = (sum_passed (rep_summary report) + sum_failed (rep_summary report))%nat /\
  totalTests (rep_summary report)
  = (passedTests (rep_summary report) + failedTests (rep_summary report))%nat /\
  (forall transport s,
      byTransport (rep_summary report) !! transport = Some s ->
      total s = (passed s + failed s)%nat).
Proof.
  intros Hreach Hgen.
  pose proof (reachable_results_wf st Hreach) as Hwf.
  assert (Hr : report
               = {| rep_timestamp := now st; rep_version := "2.0.0";
                    rep_duration := now st - startTime (metrics st);
                    rep_metrics := metrics st;
                    rep_summary := summarize (results st);
                    rep_results := results st |}).
  { revert Hgen.
    unfold generateReport, bind, get, try_catch, await, log, log_with, ret.
    destruct save as [p d|e d|]; simpl; intros [= <- _]; reflexivity. }
  subst report. simpl. split; [exact Hwf|]. split; [|split].
  - apply suites_split, Hwf.
  - apply all_tests_split, Hwf.
  - intros transport s Hs. exact (getTransportSummary_adds_up _ _ _ Hs).
Qed.

End ReportProperties.

Lemma report_counts_add_up_witness :
  exists report st',
    Advanced.generateReport report_saved tools_only_run
    = (Advanced.Return report, st')
    /\ Advanced.sum_total (Advanced.rep_summary report)
       = (Advanced.sum_passed (Advanced.rep_summary report)
          + Advanced.sum_failed (Advanced.rep_summary report))%nat
    /\ Advanced.totalTests (Advanced.rep_summary report)
       = (Advanced.passedTests (Advanced.rep_summary report)
          + Advanced.failedTests (Advanced.rep_summary report))%nat.
Proof.
  destruct (Advanced.generateReport report_saved tools_only_run)
    as [[report|e|] st'] eqn:E.
  - exists report, st'. split; [reflexivity|].
    destruct (report_counts_add_up tools_only_run report_saved report st')
      as (_ & H1 & H2 & _).
    + apply Spec.reach_suite, Spec.reach_new.
    + exact E.
    + split; assumption.
  - exfalso. vm_compute in E. discriminate.
  - exfalso. vm_compute in E. discriminate.
Defined.

(** The numbers of that report: one passed suite; of its six tests, four
    passed and two failed. *)
Example report_of_tools_only_run :
  match fst (Advanced.generateReport report_saved tools_only_run) with
  | Advanced.Return report =>
      let s := Advanced.rep_summary report in
      (Advanced.sum_total s, Advanced.sum_passed s, Advanced.sum_failed s,
       Advanced.totalTests s, Advanced.passedTests s, Advanced.failedTests s)
      = (1, 1, 0, 6, 4, 2)%nat
      /\ Advanced.byTransport s !! "stdio"
         = Some {| Advanced.total := 1; Advanced.passed := 1; Advanced.failed := 0 |}
  | _ => False
  end.
Proof. vm_compute. split; reflexivity. Qed.

(** ** The metrics of a suite *)

Section MetricsProperties.

Import Advanced.

Lemma head_insert_by_duration t l :
  head (insert_by_duration t l)
  = Some match head l with
         | Some u => if t_duration t <=? t_duration u then t else u
         | None => t
         end.
Proof.
  destruct l as [|u rest]; simpl; [reflexivity|].
  destruct (t_duration t <=? t_duration u); reflexivity.
Qed.

Lemma fastest_head_sorted tests : fastest tests = head (sortedTests tests).
Proof.
  induction tests as [|t rest IH]; simpl; [reflexivity|].
  rewrite head_insert_by_duration, <- IH.
  destruct (fastest rest) as [u|]; [|reflexivity].
  destruct (t_duration t <=? t_duration u); reflexivity.
Qed.

Lemma insert_by_duration_perm t l : insert_by_duration t l ≡ₚ t :: l.
Proof.
  induction l as [|u rest IH]; simpl; [reflexivity|].
  destruct (t_duration t <=? t_duration u); [reflexivity|].
  rewrite IH. apply Permutation_swap.
Qed.

Lemma sortedTests_perm tests : sortedTests tests ≡ₚ tests.
Proof.
  induction tests as [|t rest IH]; simpl; [reflexivity|].
  rewrite insert_by_duration_perm, IH. reflexivity.
Qed.

Lemma insert_by_duration_sorted t l :
  StronglySorted Spec.no_slower l ->
  StronglySorted Spec.no_slower (insert_by_duration t l).
Proof.
  induction 1 as [|u rest Hs IH Hall]; simpl.
  - repeat constructor.
  - destruct (Z.leb_spec (t_duration t) (t_duration u)) as [Hle|Hgt].
    + constructor; [now constructor|].
      constructor; [exact Hle|].
      eapply Forall_impl; [exact Hall|]. unfold Spec.no_slower. intros; lia.
    + constructor; [exact IH|].
      rewrite insert_by_duration_perm. constructor; [|exact Hall].
      unfold Spec.no_slower. lia.
Qed.

Lemma sortedTests_sorted tests : StronglySorted Spec.no_slower (sortedTests tests).
Proof.
  induction tests as [|t rest IH]; simpl; [constructor|].
  now apply insert_by_duration_sorted.
Qed.

Lemma last_insert_by_duration t l :
  StronglySorted Spec.no_slower l ->
  last (insert_by_duration t l)
  = Some match last l with
         | Some u => if t_duration u <? t_duration t then t else u
         | None => t
         end.
Proof.
  induction 1 as [|u rest Hs IH Hall]; [reflexivity|]. simpl insert_by_duration.
  destruct (Z.leb_spec (t_duration t) (t_duration u)) as [Hle|Hgt].
  - change (last (t :: u :: rest)) with (last (u :: rest)).
    destruct (last (u :: rest)) as [w|] eqn:Ew.
    + assert (Hw : t_duration u <= t_duration w).
      { apply last_Some in Ew as [pre Ew]. destruct pre as [|x pre].
        - injection Ew as <- _. lia.
        - injection Ew as _ ->. rewrite Forall_app, Forall_singleton in Hall.
          exact (proj2 Hall). }
      destruct (Z.ltb_spec (t_duration w) (t_duration t)); [lia|reflexivity].
    + apply last_None in Ew. discriminate.
  - destruct rest as [|v rest'].
    + simpl. destruct (Z.ltb_spec (t_duration u) (t_duration t)); [reflexivity|lia].
    + change (last (u :: v :: rest')) with (last (v :: rest')).
      rewrite <- IH. destruct (insert_by_duration t (v :: rest')) eqn:E.
      * simpl in E. destruct (_ <=? _); discriminate.
      * reflexivity.
Qed.

Lemma slowest_last_sorted tests : slowest tests = last (sortedTests tests).
Proof.
  induction tests as [|t rest IH]; simpl; [reflexivity|].
  rewrite last_insert_by_duration by apply sortedTests_sorted.
  rewrite <- IH. destruct (slowest rest) as [u|]; [|reflexivity].
  destruct (t_duration u <? t_duration t); reflexivity.
Qed.

(** Inserting keeps the order among the tests of one duration: the new
    test goes in front of them. *)
Lemma filter_insert_by_duration d t l :
  List.filter (Spec.lasts d) (insert_by_duration t l)
  = List.filter (Spec.lasts d) (t :: l).
Proof.
  induction l as [|u rest IH]; [reflexivity|]. simpl insert_by_duration.
  destruct (Z.leb_spec (t_duration t) (t_duration u)) as [Hle|Hgt]; [reflexivity|].
  simpl in *. rewrite IH. unfold Spec.lasts.
  destruct (Z.eqb_spec (t_duration t) d), (Z.eqb_spec (t_duration u) d);
    try reflexivity. lia.
Qed.

Lemma filter_sortedTests d tests :
  List.filter (Spec.lasts d) (sortedTests tests) = List.filter (Spec.lasts d) tests.
Proof.
  induction tests as [|t rest IH]; [reflexivity|]. simpl sortedTests.
  rewrite filter_insert_by_duration. simpl. now rewrite IH.
Qed.

(** X1.  [fastestTest] and [slowestTest] are the two ends of the tests
    sorted by duration with a stable sort: the sorted list holds the same
    tests in non-decreasing order of duration, the tests of one duration
    in the order in which they ran; so of several fastest tests the one
    that ran first is reported, and of several slowest tests the one that
    ran last. *)
Theorem calculateMetrics_ends_of_stable_sort (tests : list TestResult) :
  m_fastestTest (calculateMetrics tests) = Spec.brief <$> head (sortedTests tests) /\
  m_slowestTest (calculateMetrics tests) = Spec.brief <$> last (sortedTests tests) /\
  sortedTests tests ≡ₚ tests /\
  StronglySorted Spec.no_slower (sortedTests tests) /\
  (forall d, List.filter (Spec.lasts d) (sortedTests tests)
             = List.filter (Spec.lasts d) tests).
Proof.
  split; [|split; [|split; [|split]]].
  - simpl. now rewrite fastest_head_sorted.
  - simpl. now rewrite slowest_last_sorted.
  - apply sortedTests_perm.
  - apply sortedTests_sorted.
  - intros d. apply filter_sortedTests.
Qed.

Lemma fastest_least tests f :
  fastest tests = Some f ->
  In f tests /\ forall t, In t tests -> t_duration f <= t_duration t.
Proof.
  revert f. induction tests as [|t rest IH]; intros f; simpl; [discriminate|].
  destruct (fastest rest) as [u|] eqn:E.
  - destruct (IH u eq_refl) as [Hin Hle].
    destruct (Z.leb_spec (t_duration t) (t_duration u)) as [H|H];
      intros [= <-]; (split; [tauto|]); intros x [<-|Hx]; try lia.
    + specialize (Hle x Hx). lia.
    + now apply Hle.
  - intros [= <-]. split; [now left|]. intros x [<-|Hx]; [lia|].
    destruct rest as [|y rest']; [contradiction|]. simpl in E.
    destruct (fastest rest'); [destruct (_ <=? _)|]; discriminate.
Qed.

Lemma slowest_greatest tests s :
  slowest tests = Some s ->
  In s tests /\ forall t, In t tests -> t_duration t <= t_duration s.
Proof.
  revert s. induction tests as [|t rest IH]; intros s; simpl; [discriminate|].
  destruct (slowest rest) as [u|] eqn:E.
  - destruct (IH u eq_refl) as [Hin Hle].
    destruct (Z.ltb_spec (t_duration u) (t_duration t)) as [H|H];
      intros [= <-]; (split; [tauto|]); intros x [<-|Hx]; try lia.
    + specialize (Hle x Hx). lia.
    + now apply Hle.
  - intros [= <-]. split; [now left|]. intros x [<-|Hx]; [lia|].
    destruct rest as [|y rest']; [contradiction|]. simpl in E.
    destruct (slowest rest'); [destruct (_ <? _)|]; discriminate.
Qed.

Lemma sum_durations_from tests a :
  fold_left (fun a t => a + t_duration t) tests a = a + sum_durations tests.
Proof.
  unfold sum_durations. revert a.
  induction tests as [|t rest IH]; intros a; simpl; [lia|].
  rewrite IH, (IH (0 + t_duration t)). lia.
Qed.

Lemma sum_durations_cons t rest :
  sum_durations (t :: rest) = t_duration t + sum_durations rest.
Proof.
  unfold sum_durations at 1. simpl. rewrite sum_durations_from. lia.
Qed.

Lemma sum_durations_between tests lo hi :
  (forall t, In t tests -> lo <= t_duration t <= hi) ->
  Z.of_nat (length tests) * lo <= sum_durations tests
  <= Z.of_nat (length tests) * hi.
Proof.
  induction tests as [|t rest IH]; intros H.
  - unfold sum_durations. simpl. lia.
  - rewrite sum_durations_cons.
    assert (Ht := H t (or_introl eq_refl)).
    assert (Hr := IH (fun x Hx => H x (or_intror Hx))).
    change (length (t :: rest)) with (S (length rest)). lia.
Qed.

(** X2.  For a suite with tests, [fastestTest] and [slowestTest] name
    tests of the suite, no test is faster than the one or slower than the
    other, and the rounded average duration lies between the two. *)
Theorem calculateMetrics_bounds (tests : list TestResult) (t : TestResult) :
  In t tests ->
  exists fast slow : TestResult,
    In fast tests /\ In slow tests /\
    m_fastestTest (calculateMetrics tests) = Some (Spec.brief fast) /\
    m_slowestTest (calculateMetrics tests) = Some (Spec.brief slow) /\
    t_duration fast <= t_duration t <= t_duration slow /\
    t_duration fast <= m_avgTestDuration (calculateMetrics tests)
    <= t_duration slow.
Proof.
  intros Hin.
  destruct (fastest tests) as [fast|] eqn:Ef.
  2:{ destruct tests as [|x rest]; [contradiction|]. simpl in Ef.
      destruct (fastest rest); [destruct (_ <=? _)|]; discriminate. }
  destruct (slowest tests) as [slow|] eqn:Es.
  2:{ destruct tests as [|x rest]; [contradiction|]. simpl in Es.
      destruct (slowest rest); [destruct (_ <? _)|]; discriminate. }
  destruct (fastest_least _ _ Ef) as [Hf Hlo].
  destruct (slowest_greatest _ _ Es) as [Hs Hhi].
  exists fast, slow. split; [exact Hf|]. split; [exact Hs|].
  split; [simpl; now rewrite Ef|]. split; [simpl; now rewrite Es|].
  split; [split; [now apply Hlo | now apply Hhi]|].
  assert (Hn : 0 < Z.of_nat (length tests))
    by (destruct tests; [contradiction | simpl; lia]).
  pose proof (sum_durations_between tests (t_duration fast) (t_duration slow)
                (fun x Hx => conj (Hlo x Hx) (Hhi x Hx))) as [H1 H2].
  simpl. destruct (Z.ltb_spec 0 (Z.of_nat (length tests))); [|lia].
  set (n := Z.of_nat (length tests)) in *. set (s := sum_durations tests) in *.
  split.
  - apply Z.div_le_lower_bound; nia.
  - assert ((2 * s + n) / (2 * n) < t_duration slow + 1); [|lia].
    apply Z.div_lt_upper_bound; nia.
Qed.

End MetricsProperties.

(** ** More on the prober and the verifier *)

Section DetectVerdicts.

Import Detect.

Variable URL_parse : string -> option string.
Variable JSON_parse : string -> option Json.t.

Local Abbreviation analyze := (Detect.analyze JSON_parse).
Local Abbreviation handle := (Detect.handle JSON_parse).
Local Abbreviation run := (Detect.run JSON_parse).
Local Abbreviation detectTransport := (Detect.detectTransport URL_parse JSON_parse).

(** The event that settles the promise. *)
Lemma settling_event (evs : list Event) (p : Probe) (r : DetectionResult) :
  settled p = None ->
  settled (fold_left handle evs p) = Some r ->
  exists pre ev post,
    evs = (pre ++ ev :: post)%list /\
    settled (fold_left handle pre p) = None /\
    settled (handle (fold_left handle pre p) ev) = Some r.
Proof.
  revert p. induction evs as [|ev evs IH]; intros p Hp Hr; simpl in Hr.
  - congruence.
  - destruct (settled (handle p ev)) as [r0|] eqn:E.
    + rewrite (handles_keep JSON_parse evs _ r0 E) in Hr. injection Hr as ->.
      exists [], ev, evs. repeat split; assumption.
    + destruct (IH _ E Hr) as (pre & ev' & post & -> & H1 & H2).
      exists (ev :: pre), ev', post. repeat split; assumption.
Qed.

(** What a handler settles a pending promise with. *)
Lemma handle_settles (p : Probe) (ev : Event) (r : DetectionResult) :
  settled p = None -> settled (handle p ev) = Some r ->
  (exists why, failure_reason p ev = Some why /\ r = unknown why)
  \/ (exists resp, ev = EvEnd /\ res p = Some resp /\ r = analyze resp (body p)).
Proof.
  intros Hp H. destruct ev; simpl in *; try congruence.
  - destruct (res p); simpl in H; congruence.
  - destruct (res p) as [resp|] eqn:Er; [|congruence].
    right. exists resp. rewrite (resolve_settles _ _ Hp) in H.
    injection H as <-. repeat split.
  - destruct (res p) as [resp|] eqn:Er; [|congruence].
    left. eexists. split; [reflexivity|].
    rewrite (resolve_settles _ _ Hp) in H. now injection H as <-.
  - left. eexists. split; [reflexivity|].
    rewrite (resolve_settles _ _ Hp) in H. now injection H as <-.
  - left. eexists. split; [reflexivity|].
    rewrite resolve_settles in H by exact Hp. now injection H as <-.
Qed.

Lemma analyze_verdict (resp : Response) (b : string) :
  (transport (analyze resp b) = "sse" /\ confidence (analyze resp b) = 80)
  \/ (transport (analyze resp b) = "streamableHttp"
      /\ In (confidence (analyze resp b)) [50; 85; 90; 95]).
Proof.
  unfold Detect.analyze.
  destruct (sse_indicated resp b); [destruct (not_acceptable resp b)|
    destruct (_ || _); [|destruct (_ && _)]]; simpl; tauto.
Qed.

(** X3.  The promise of [detectTransport] is resolved by the first event
    that settles it and keeps that value whatever arrives later.  That
    event is a failure (request error, response error, timeout), which
    gives "unknown" with confidence 0, or the end of a response, which
    gives the analysis of that response: "sse" with confidence 80 or
    "streamableHttp" with confidence 50, 85, 90 or 95, never "unknown".
    So the transport is "unknown" exactly when the confidence is 0. *)
Theorem detectTransport_first_settlement_decides
  (url : string) (evs : list Event) (r : DetectionResult) :
  detectTransport url evs = Resolved r ->
  (exists protocol pre ev post,
      URL_parse url = Some protocol /\
      evs = (pre ++ ev :: post)%list /\
      settled (run protocol pre) = None /\
      ((exists why, failure_reason (run protocol pre) ev = Some why
                    /\ r = unknown why)
       \/ (exists resp, ev = EvEnd /\ res (run protocol pre) = Some resp
                        /\ r = analyze resp (body (run protocol pre))))) /\
  ((transport r = "unknown" /\ confidence r = 0)
   \/ (transport r = "sse" /\ confidence r = 80)
   \/ (transport r = "streamableHttp" /\ In (confidence r) [50; 85; 90; 95])) /\
  (transport r = "unknown" <-> confidence r = 0) /\
  (forall later, detectTransport url (evs ++ later)%list = Resolved r).
Proof.
  unfold Detect.detectTransport.
  destruct (URL_parse url) as [protocol|] eqn:Eu; [|discriminate].
  destruct (request_made protocol) eqn:Em; [|discriminate].
  destruct (settled (run protocol evs)) as [r0|] eqn:Es; [|discriminate].
  intros [= ->].
  assert (Hrun : forall l, run protocol l = fold_left handle l (start protocol)).
  { intros l. unfold Detect.run. now rewrite Em. }
  rewrite Hrun in Es.
  destruct (settling_event evs (start protocol) r eq_refl Es)
    as (pre & ev & post & -> & Hpre & Hev).
  rewrite <- Hrun in Hpre, Hev.
  assert (Hclass :
            (transport r = "unknown" /\ confidence r = 0)
            \/ (transport r = "sse" /\ confidence r = 80)
            \/ (transport r = "streamableHttp"
                /\ In (confidence r) [50; 85; 90; 95])).
  { destruct (handle_settles _ _ _ Hpre Hev)
      as [(why & _ & ->)|(resp & _ & _ & ->)].
    - left. split; reflexivity.
    - right. apply analyze_verdict. }
  split; [|split; [|split]].
  - exists protocol, pre, ev, post. repeat split; try assumption.
    exact (handle_settles _ _ _ Hpre Hev).
  - exact Hclass.
  - destruct Hclass as [[H1 H2]|[[H1 H2]|[H1 H2]]]; rewrite H1.
    + rewrite H2. split; reflexivity.
    + rewrite H2. split; discriminate.
    + split; [discriminate|]. intros H0. rewrite H0 in H2. simpl in H2.
      repeat destruct H2 as [H2|H2]; discriminate || contradiction.
  - intros later. rewrite Hrun, fold_left_app.
    now rewrite (handles_keep JSON_parse later _ r Es).
Qed.

End DetectVerdicts.

Section VerifyProperties.

Import Advanced Verify.

Lemma try_transport_connected ep ty :
  try_transport ep ty = Connected <-> Spec.usable ep ty.
Proof.
  unfold try_transport, Spec.usable. split.
  - destruct (ep_connect ep ty) as [[] d|e d|]; try discriminate.
    destruct (Z.leb_spec d 3000); [|discriminate].
    destruct (ep_close ep ty) as [[] c|e c|]; try discriminate.
    intros _. exists d, c. repeat split. assumption.
  - intros (d & c & -> & Hd & ->).
    destruct (Z.leb_spec d 3000); [reflexivity|lia].
Qed.

Lemma try_transport_stuck ep ty :
  try_transport ep ty = Stuck <-> Spec.stuck ep ty.
Proof.
  unfold try_transport, Spec.stuck. split.
  - destruct (ep_connect ep ty) as [[] d|e d|]; try discriminate.
    destruct (Z.leb_spec d 3000); [|discriminate].
    destruct (ep_close ep ty) as [[] c|e c|]; try discriminate.
    intros _. exists d. repeat split. assumption.
  - intros (d & -> & Hd & ->).
    destruct (Z.leb_spec d 3000); [reflexivity|lia].
Qed.

(** X4.  [verifyTransport] tries "sse" first only when that is the
    suspected transport, and "streamableHttp" first for any other
    suspicion.  It answers with the first of the two that connects within
    3000 ms and then closes, with confidence 100; a transport whose
    connection is late, fails, or whose [close] is rejected is passed
    over; the answer is [null] when neither can be used; and the promise
    stays unsettled only when a connection was made and its [close] never
    settles. *)
Theorem verifyTransport_answers_first_usable
  (ep : Endpoint) (suspectedTransport : string) :
  let first := Spec.tried_first suspectedTransport in
  let second := Spec.tried_second suspectedTransport in
  match verifyTransport ep suspectedTransport with
  | Confirmed r =>
      Detect.confidence r = 100 /\
      Spec.usable ep (Detect.transport r) /\
      (Detect.transport r = first
       \/ (Detect.transport r = second /\ ~ Spec.usable ep first))
  | Null => ~ Spec.usable ep first /\ ~ Spec.usable ep second
  | Unsettled =>
      Spec.stuck ep first \/ (~ Spec.usable ep first /\ Spec.stuck ep second)
  end.
Proof.
  unfold verifyTransport, transports, Spec.tried_first, Spec.tried_second.
  set (first := if String.eqb suspectedTransport "sse" then "sse" else "streamableHttp").
  set (second := if String.eqb suspectedTransport "sse" then "streamableHttp" else "sse").
  assert (E : (if String.eqb suspectedTransport "sse"
               then ["sse"; "streamableHttp"] else ["streamableHttp"; "sse"])
              = [first; second]).
  { unfold first, second. destruct (String.eqb suspectedTransport "sse"); reflexivity. }
  rewrite E. simpl.
  pose proof (try_transport_connected ep first) as C1.
  pose proof (try_transport_stuck ep first) as S1.
  pose proof (try_transport_connected ep second) as C2.
  pose proof (try_transport_stuck ep second) as S2.
  destruct (try_transport ep first).
  - simpl. split; [reflexivity|]. split; [now apply C1|]. now left.
  - assert (N1 : ~ Spec.usable ep first) by (intros H; apply C1 in H; discriminate).
    destruct (try_transport ep second).
    + simpl. split; [reflexivity|]. split; [now apply C2|]. now right.
    + split; [exact N1|]. intros H. apply C2 in H. discriminate.
    + right. split; [exact N1|]. now apply S2.
  - left. now apply S1.
Qed.

End VerifyProperties.

(** ** More on the validator and on the result preview *)

Section ValidatorProperties.

Import Advanced.

Lemma length_omap_le {A B} (f : A -> option B) (l : list A) :
  (length (omap f l) <= length l)%nat.
Proof.
  induction l as [|a l IH]; [simpl; lia|].
  change (omap f (a :: l))
    with (match f a with Some y => y :: omap f l | None => omap f l end).
  destruct (f a); simpl; lia.
Qed.

Lemma filter_nil_forallb {A} (f : A -> bool) (l : list A) :
  List.filter f l = [] <-> forall a, In a l -> f a = false.
Proof.
  induction l as [|x l IH]; simpl.
  - split; [intros _ a [] | reflexivity].
  - destruct (f x) eqn:E; split.
    + discriminate.
    + intros H. specialize (H x (or_introl eq_refl)). congruence.
    + intros H a [<-|Ha]; [exact E | now apply IH].
    + intros H. apply IH. intros a Ha. apply H. now right.
Qed.

Lemma omap_nil_iff {A B} (f : A -> option B) (l : list A) :
  omap f l = [] <-> forall a, In a l -> f a = None.
Proof.
  induction l as [|x l IH].
  - split; [intros _ a [] | reflexivity].
  - change (omap f (x :: l))
      with (match f x with Some y => y :: omap f l | None => omap f l end).
    simpl In. destruct (f x) eqn:E; split.
    + discriminate.
    + intros H. specialize (H x (or_introl eq_refl)). congruence.
    + intros H a [<-|Ha]; [exact E | now apply IH].
    + intros H. apply IH. intros a Ha. apply H. now right.
Qed.

Lemma omap_ext_in {A B} (f g : A -> option B) (l : list A) :
  (forall a, In a l -> f a = g a) -> omap f l = omap g l.
Proof.
  induction l as [|x l IH]; intros H; [reflexivity|].
  change (omap f (x :: l))
    with (match f x with Some y => y :: omap f l | None => omap f l end).
  change (omap g (x :: l))
    with (match g x with Some y => y :: omap g l | None => omap g l end).
  rewrite (H x (or_introl eq_refl)), IH; [reflexivity|].
  intros a Ha. apply H. now right.
Qed.

(** X5.  Every suggestion of [validateAgainstSchema] comes with an error:
    there are never more suggestions than errors; the number of errors is
    the number of required fields that [field in data] does not find
    (neither a key of the arguments nor an inherited name) plus the number
    of enumerated properties read from the arguments, own or inherited,
    whose value is outside the enumeration; and a valid answer carries no
    suggestion. *)
Theorem validateAgainstSchema_suggestions_follow_errors
  (data : list (string * Json.t)) (schema : Schema) :
  let v := validateAgainstSchema data schema in
  (length (suggestions v) <= length (errors v))%nat /\
  length (errors v)
  = (length (Spec.missing_fields data schema)
     + length (Spec.enum_violations data schema))%nat /\
  (valid v = true -> errors v = [] /\ suggestions v = []).
Proof.
  intros v. subst v.
  assert (Hs : (length (suggestions (validateAgainstSchema data schema))
                <= length (errors (validateAgainstSchema data schema)))%nat).
  { rewrite validate_suggestions, validate_errors.
    rewrite !length_app, !length_map.
    pose proof (length_omap_le (fun f => suggestion_for f <$> Spec.declared schema f)
                  (Spec.missing_fields data schema)). lia. }
  split; [exact Hs|]. split.
  - rewrite validate_errors, !length_app, !length_map. reflexivity.
  - rewrite validate_valid. intros H. apply Nat.eqb_eq in H.
    rewrite H in Hs.
    destruct (errors (validateAgainstSchema data schema)); [|discriminate].
    destruct (suggestions (validateAgainstSchema data schema)); [|simpl in Hs; lia].
    split; reflexivity.
Qed.

(** X6.  What [validateAgainstSchema] looks at.  The answer is valid
    exactly when [field in data] finds every required field (as a key of
    the arguments or as a name every object inherits) and every
    enumerated property found in the same way reads as one of the literals
    of its enumeration; so an enumerated property with an inherited name
    that the arguments do not supply makes the answer invalid.  The
    declared types are never compared with the values: arguments that have
    the same required keys and the same values under the properties with
    an enumeration get the same answer, whatever else they hold. *)
Theorem validateAgainstSchema_checks_presence_and_enums_only
  (data : list (string * Json.t)) (schema : Schema) :
  (valid (validateAgainstSchema data schema) = true <->
   (forall field, In field (default [] (sc_required schema)) ->
                  Json.has_property field data = true) /\
   (forall field p vs,
       In (field, p) (default [] (sc_properties schema)) ->
       sc_enum p = Some vs -> Json.has_property field data = true ->
       Json.array_includes_reading vs (Json.get data field) = true)) /\
  (forall field p vs,
      In (field, p) (default [] (sc_properties schema)) ->
      sc_enum p = Some vs ->
      Js.inherited field = true -> Json.has_key field data = false ->
      valid (validateAgainstSchema data schema) = false) /\
  (forall data' : list (string * Json.t),
      (forall field, In field (default [] (sc_required schema)) ->
                     Json.has_key field data' = Json.has_key field data) ->
      (forall field p, In (field, p) (default [] (sc_properties schema)) ->
                       is_Some (sc_enum p) ->
                       Json.assoc field data' = Json.assoc field data) ->
      validateAgainstSchema data' schema = validateAgainstSchema data schema).
Proof.
  assert (Hiff :
    valid (validateAgainstSchema data schema) = true <->
    (forall field, In field (default [] (sc_required schema)) ->
                   Json.has_property field data = true) /\
    (forall field p vs,
        In (field, p) (default [] (sc_properties schema)) ->
        sc_enum p = Some vs -> Json.has_property field data = true ->
        Json.array_includes_reading vs (Json.get data field) = true)).
  { rewrite validate_valid, Nat.eqb_eq, length_zero_iff_nil, validate_errors.
    split.
    + intros H. apply app_eq_nil in H as [H1 H2].
      apply map_eq_nil in H1. apply map_eq_nil in H2.
      unfold Spec.missing_fields in H1. unfold Spec.enum_violations in H2.
      rewrite filter_nil_forallb in H1. rewrite omap_nil_iff in H2. split.
      * intros field Hin. specialize (H1 field Hin).
        rewrite has_property_missing. now rewrite H1.
      * intros field p vs Hin Hen Hp. specialize (H2 (field, p) Hin).
        unfold Spec.enum_violation in H2. simpl in H2.
        rewrite (has_property_supplied _ _ Hp), Hen in H2.
        now destruct (Json.array_includes_reading vs (Json.get data field)).
    + intros [H1 H2].
      assert (E1 : Spec.missing_fields data schema = []).
      { unfold Spec.missing_fields. apply filter_nil_forallb. intros f Hf.
        specialize (H1 f Hf). rewrite has_property_missing in H1.
        now destruct (Spec.missing data f). }
      assert (E2 : Spec.enum_violations data schema = []).
      { unfold Spec.enum_violations. apply omap_nil_iff. intros [f p] Hin.
        unfold Spec.enum_violation. simpl.
        destruct (Json.has_property f data) eqn:Ep.
        - rewrite (has_property_supplied _ _ Ep).
          destruct (sc_enum p) as [vs|] eqn:Een; [|reflexivity].
          now rewrite (H2 f p vs Hin Een Ep).
        - now rewrite (no_property_not_supplied _ _ Ep). }
      now rewrite E1, E2. }
  split; [exact Hiff|]. split.
  - intros field p vs Hin Hen Hinh Hkey.
    apply not_true_is_false. intros Ev.
    apply Hiff in Ev as [_ H2].
    assert (Hp : Json.has_property field data = true).
    { unfold Json.has_property. now rewrite Hinh, orb_true_r. }
    specialize (H2 field p vs Hin Hen Hp).
    unfold Json.get, Json.has_key in *.
    destruct (Json.assoc field data); [discriminate|].
    rewrite Hinh in H2. discriminate.
  - intros data' Hreq Hen.
    assert (E1 : Spec.missing_fields data' schema = Spec.missing_fields data schema).
    { unfold Spec.missing_fields. apply filter_ext_in. intros f Hf.
      unfold Spec.missing. now rewrite (Hreq f Hf). }
    assert (E2 : Spec.enum_violations data' schema = Spec.enum_violations data schema).
    { unfold Spec.enum_violations. apply omap_ext_in. intros [f p] Hin.
      unfold Spec.enum_violation, Spec.supplied. simpl.
      destruct (sc_enum p) as [vs|] eqn:Een.
      - rewrite (Hen f p Hin); [reflexivity|]. rewrite Een. now eexists.
      - destruct (Json.assoc f data'), (Json.assoc f data);
          try reflexivity; destruct (Js.inherited f); reflexivity. }
    assert (He : errors (validateAgainstSchema data' schema)
                 = errors (validateAgainstSchema data schema))
      by (rewrite !validate_errors, E1, E2; reflexivity).
    apply validation_eq.
    + rewrite !validate_valid, He. reflexivity.
    + exact He.
    + rewrite !validate_suggestions, E1, E2. reflexivity.
Qed.

Lemma length_substring_le (n : nat) (s : string) :
  (String.length (String.substring 0 n s) <= n)%nat.
Proof.
  revert s. induction n as [|n IH]; intros [|c s]; simpl; try lia.
  specialize (IH s). lia.
Qed.

Lemma length_substring_exact (n : nat) (s : string) :
  (n <= String.length s)%nat -> String.length (String.substring 0 n s) = n.
Proof.
  revert s. induction n as [|n IH]; intros [|c s]; simpl; intros H;
    try reflexivity; try lia.
  rewrite IH; [reflexivity|lia].
Qed.

Lemma length_append (a b : string) :
  String.length (a +:+ b) = (String.length a + String.length b)%nat.
Proof.
  induction a as [|c a IH]; [reflexivity|].
  change (S (String.length (a +:+ b)) = S (String.length a + String.length b)).
  now rewrite IH.
Qed.

Lemma substring_prefix (n : nat) (s : string) :
  String.prefix (String.substring 0 n s) s = true.
Proof.
  revert s. induction n as [|n IH]; intros [|c s]; simpl; try reflexivity.
  rewrite IH. now destruct (Ascii.ascii_dec c c).
Qed.

(** X7.  The preview of a tool result whose first content item is text is
    never longer than 103 characters: a text of at most 100 characters is
    shown as it is, a longer one is cut to its first 100 characters
    followed by three dots; a missing text gives the empty preview. *)
Theorem generateResultPreview_is_short
  (firstContent : ContentItem) (others : list ContentItem) :
  c_type firstContent = "text" ->
  let text := default "" (c_text firstContent) in
  let preview := generateResultPreview (firstContent :: others) in
  (String.length preview <= 103)%nat /\
  ((String.length text <= 100)%nat -> preview = text) /\
  ((100 < String.length text)%nat ->
   exists cut, preview = cut +:+ "..." /\ String.length cut = 100%nat
               /\ String.prefix cut text = true).
Proof.
  intros Hty text preview. unfold preview, generateResultPreview.
  rewrite Hty. simpl String.eqb. cbv iota. fold text.
  destruct (Nat.ltb_spec 100 (String.length text)) as [Hlong|Hshort].
  - split; [|split].
    + rewrite length_append.
      pose proof (length_substring_le 100 text). simpl. lia.
    + lia.
    + intros _. exists (String.substring 0 100 text).
      split; [reflexivity|]. split; [|apply substring_prefix].
      apply length_substring_exact. lia.
  - split; [lia|]. split; [reflexivity|lia].
Qed.

End ValidatorProperties.

(** ** The connection manager, call by call *)

Section ConnectTrace.

Import Advanced.

Lemma advances_refl st : Spec.advances 0 [] 0 st st.
Proof.
  unfold Spec.advances. rewrite app_nil_r. repeat split; try reflexivity; lia.
Qed.

Lemma advances_trans k1 c1 t1 k2 c2 t2 st1 st2 st3 :
  Spec.advances k1 c1 t1 st1 st2 -> Spec.advances k2 c2 t2 st2 st3 ->
  Spec.advances (k1 + k2) (c1 ++ c2) (t1 + t2) st1 st3.
Proof.
  unfold Spec.advances.
  intros (a1 & a2 & a3 & a4 & a5 & a6) (b1 & b2 & b3 & b4 & b5 & b6).
  repeat split; try congruence.
  - lia.
  - rewrite b5, a5, app_assoc. reflexivity.
  - lia.
Qed.

Lemma advances_log msg p lv st :
  Spec.advances 0 [] 0 st (snd (log_with msg p lv st)).
Proof.
  destruct (log_with_returns msg p lv st) as (st' & E & Hn & Ho & Hm & Hi & Hd & Hr).
  rewrite E. simpl. unfold Spec.advances.
  rewrite Ho, Hm, Hi, Hd, Hr, Hn, app_nil_r. repeat split; try reflexivity; lia.
Qed.

Lemma advances_bump st : Spec.advances 1 [] 0 st (bump_connectionAttempts st).
Proof.
  unfold Spec.advances. simpl. rewrite app_nil_r.
  repeat split; try reflexivity; lia.
Qed.

Lemma advances_sleep ms st :
  Spec.advances 0 [IoSleep ms] ms st (tick ms (record_io (IoSleep ms) st)).
Proof. unfold Spec.advances. simpl. repeat split; try reflexivity; lia. Qed.

(** The pause before a retry. *)
Lemma retry_pause_run attempt st :
  exists st',
    retry_pause attempt st = (Return tt, st') /\
    Spec.advances 0 (Spec.pause_calls (retryDelay (options st)) attempt)
      (Spec.pause_time (retryDelay (options st)) attempt) st st'.
Proof.
  unfold retry_pause, Spec.pause_calls, Spec.pause_time.
  destruct (0 <? attempt)%nat.
  - unfold bind, log. rewrite log_with_eq. unfold sleep at 1.
    eexists. split; [reflexivity|].
    refine (advances_trans 0 [] 0 0 _ _ _ _ _ _ _); [apply advances_log|].
    apply advances_sleep.
  - eexists. split; [reflexivity|]. apply advances_refl.
Qed.

(** The [try] block of an attempt: how it ends, the calls it makes and
    the time it takes. *)
Lemma attempt_body_run peer cfg i st :
  exists st',
    attempt_body peer cfg (transport_label cfg) i st
    = (match Spec.attempt_error peer cfg i with
       | Some e => Throw e
       | None =>
           match Spec.attempt_session peer cfg i with
           | Some s => Return s
           | None => Hangs
           end
       end, st') /\
    Spec.advances 0 (Spec.try_calls peer cfg i) (Spec.try_time peer cfg i) st st'.
Proof.
  unfold Spec.attempt_error, Spec.attempt_session, Spec.try_calls, Spec.try_time,
    attempt_body.
  unfold bind at 1. unfold log at 1, log_with.
  unfold bind at 1. rewrite createTransport_spec.
  destruct (verbose (options st)) eqn:V;
    (destruct (Spec.transport_of cfg) as [e0|t];
     [ unfold log, log_with; repeat (progress (simpl; rewrite ?V));
       eexists; split; [reflexivity|];
       unfold Spec.advances; simpl; rewrite ?app_nil_r;
       repeat split; try reflexivity; lia
     | unfold bind, modify, await, try_catch, log, log_with, throw, ret;
       repeat (progress (simpl; rewrite ?V));
       destruct (connect peer i t) as [[] d|e1 d|];
       repeat (progress (simpl; rewrite ?V));
       try destruct (verify peer i) as [v d'|e1 d'|];
       repeat (progress (simpl; rewrite ?V));
       (eexists; split; [reflexivity|]);
       unfold Spec.advances; simpl; rewrite <- ?app_assoc; simpl;
       rewrite ?app_nil_r;
       repeat split; try reflexivity; lia ]).
Qed.


Lemma calls_of_cons peer cfg delay l i :
  Spec.calls_of peer cfg delay (i :: l)
  = ((Spec.pause_calls delay i ++ Spec.try_calls peer cfg i)
     ++ Spec.calls_of peer cfg delay l)%list.
Proof. reflexivity. Qed.


Lemma time_of_cons peer cfg delay l i :
  Spec.time_of peer cfg delay (i :: l)
  = Spec.pause_time delay i + Spec.try_time peer cfg i
    + Spec.time_of peer cfg delay l.
Proof. reflexivity. Qed.

(** One turn of the loop, with all that it does. *)
Lemma connect_loop_turn peer cfg remaining attempt lastError st :
  exists st3,
    Spec.advances 1
      (Spec.pause_calls (retryDelay (options st)) attempt
       ++ Spec.try_calls peer cfg attempt)
      (Spec.pause_time (retryDelay (options st)) attempt
       + Spec.try_time peer cfg attempt) st st3 /\
    connect_loop peer cfg (transport_label cfg) (S remaining) attempt lastError st
    = match Spec.attempt_error peer cfg attempt with
      | Some e =>
          connect_loop peer cfg (transport_label cfg) remaining (S attempt) (Some e)
            (snd (log ("Connection attempt " +:+ Js.show_Z (Z.of_nat attempt + 1)
                       +:+ " failed: " +:+ message e) ErrorLevel st3))
      | None =>
          match Spec.attempt_session peer cfg attempt with
          | Some s => (Return s, st3)
          | None => (Hangs, st3)
          end
      end.
Proof.
  rewrite connect_loop_step.
  destruct (retry_pause_run attempt (bump_connectionAttempts st)) as (st2 & -> & F2).
  destruct (attempt_body_run peer cfg attempt st2) as (st3 & -> & F3).
  exists st3. split.
  - pose proof (advances_trans _ _ _ _ _ _ _ _ _ (advances_bump st) F2) as G1.
    pose proof (advances_trans _ _ _ _ _ _ _ _ _ G1 F3) as G2.
    simpl in G2. exact G2.
  - destruct (Spec.attempt_error peer cfg attempt) as [e|]; [reflexivity|].
    destruct (Spec.attempt_session peer cfg attempt); reflexivity.
Qed.

(** The loop passes over the attempts that fail. *)
Lemma connect_loop_skips peer cfg :
  forall k remaining attempt lastError st,
    (forall i, (attempt <= i < attempt + k)%nat ->
               is_Some (Spec.attempt_error peer cfg i)) ->
    exists st',
      connect_loop peer cfg (transport_label cfg) (k + remaining) attempt lastError st
      = connect_loop peer cfg (transport_label cfg) remaining (attempt + k)
          (match k with
           | O => lastError
           | S j => Spec.attempt_error peer cfg (attempt + j)
           end) st' /\
      Spec.advances (Z.of_nat k)
        (Spec.calls_of peer cfg (retryDelay (options st)) (seq attempt k))
        (Spec.time_of peer cfg (retryDelay (options st)) (seq attempt k)) st st'.
Proof.
  induction k as [|k IH]; intros remaining attempt lastError st Hall.
  - exists st. rewrite Nat.add_0_r. split; [reflexivity|]. apply advances_refl.
  - destruct (connect_loop_turn peer cfg (k + remaining) attempt lastError st)
      as (st3 & F3 & E3).
    change (S k + remaining)%nat with (S (k + remaining)). rewrite E3.
    destruct (Hall attempt ltac:(lia)) as [e He]. rewrite He.
    set (st4 := snd (log _ ErrorLevel st3)).
    assert (F4 : Spec.advances 0 [] 0 st3 st4) by apply advances_log.
    pose proof (advances_trans _ _ _ _ _ _ _ _ _ F3 F4) as G4.
    assert (Ho : options st4 = options st) by (destruct G4 as (-> & _); reflexivity).
    destruct (IH remaining (S attempt) (Some e) st4) as (st' & E & F').
    { intros i Hi. apply Hall. lia. }
    exists st'. split.
    + rewrite E. replace (S attempt + k)%nat with (attempt + S k)%nat by lia.
      destruct k as [|j].
      * rewrite Nat.add_0_r, He. reflexivity.
      * replace (S attempt + j)%nat with (attempt + S j)%nat by lia. reflexivity.
    + rewrite Ho in F'.
      pose proof (advances_trans _ _ _ _ _ _ _ _ _ G4 F') as G.
      change (seq attempt (S k)) with (attempt :: seq (S attempt) k).
      rewrite calls_of_cons, time_of_cons.
      replace (Z.of_nat (S k)) with (1 + 0 + Z.of_nat k) by lia.
      rewrite app_nil_r in G.
      replace (Spec.pause_time (retryDelay (options st)) attempt
               + Spec.try_time peer cfg attempt
               + Spec.time_of peer cfg (retryDelay (options st)) (seq (S attempt) k))
        with (Spec.pause_time (retryDelay (options st)) attempt
              + Spec.try_time peer cfg attempt + 0
              + Spec.time_of peer cfg (retryDelay (options st)) (seq (S attempt) k))
        by lia.
      exact G.
Qed.





(** X10.  No timer guards the connection.  When the attempts before
    attempt [k] fail and attempt [k], still within the allowance, meets a
    [connect] or a liveness call that never settles, [connectToServer]
    never settles, and neither does [testServer]: no suite result is
    recorded and no client is closed. *)
Theorem connectToServer_waits_for_ever
  (peer : Peer) (m : Measured) (cfg : TransportConfig) (tests : Tests)
  (st : Framework) (k : nat) :
  Z.of_nat k <= retryAttempts (options st) ->
  (forall i, (i < k)%nat -> is_Some (Spec.attempt_error peer cfg i)) ->
  Spec.attempt_pending peer cfg k ->
  fst (connectToServer peer cfg st) = Hangs /\
  fst (testServer peer m cfg tests st) = Hangs /\
  results (snd (testServer peer m cfg tests st)) = results st /\
  Spec.closes (io (snd (testServer peer m cfg tests st))) = Spec.closes (io st).
Proof.
  intros Hk Hfail [He Hs].
  assert (G : forall st0, options st0 = options st ->
                          fst (connectToServer peer cfg st0) = Hangs).
  { intros st0 Ho0.
    set (r := (Z.to_nat (retryAttempts (options st0) + 1) - S k)%nat).
    assert (HN : Z.to_nat (retryAttempts (options st0) + 1) = (k + S r)%nat)
      by (unfold r; rewrite Ho0; lia).
    destruct (connect_loop_skips peer cfg k (S r) 0%nat None st0) as (st1 & E1 & F1).
    { intros i Hi. apply Hfail. lia. }
    destruct (connect_loop_turn peer cfg r (0 + k)%nat
                (match k with
                 | O => None
                 | S j => Spec.attempt_error peer cfg (0 + j)
                 end) st1) as (st2 & F2 & E2).
    change (0 + k)%nat with k in *. rewrite He, Hs in E2.
    unfold connectToServer, bind, get. rewrite HN, E1, E2. reflexivity. }
  split; [now apply G|].
  rewrite testServer_unfold.
  specialize (G (Spec.suite_start st) eq_refl).
  destruct (connectToServer_frame peer cfg (Spec.suite_start st))
    as (n & cs & (a1 & a2 & a3 & _ & _ & a6)).
  destruct (connectToServer peer cfg (Spec.suite_start st)) as [[s|e|] st1];
    simpl in G; try discriminate.
  simpl in *. repeat split; assumption.
Qed.

End ConnectTrace.

(** ** The suite runner, in general *)

Section SuiteLiveness.

Import Advanced.

(** *** Computations that end, computations that return *)

Lemma ends_ret {A} (a : A) : Spec.ends (ret a).
Proof. intros st. discriminate. Qed.

Lemma ends_throw {A} (e : JsError) : Spec.ends (@throw A e).
Proof. intros st. discriminate. Qed.

Lemma ends_bind {A B} (m : M A) (k : A -> M B) :
  Spec.ends m -> (forall a, Spec.ends (k a)) -> Spec.ends (bind m k).
Proof.
  intros Hm Hk st. unfold bind. specialize (Hm st).
  destruct (m st) as [[a|e|] st1]; simpl in *; try discriminate.
  - apply Hk.
  - contradiction.
Qed.

Lemma returns_ends {A} (m : M A) : Spec.returns m -> Spec.ends m.
Proof. intros H st. destruct (H st) as (a & st' & ->). discriminate. Qed.

Lemma returns_ret {A} (a : A) : Spec.returns (ret a).
Proof. intros st. now exists a, st. Qed.

Lemma returns_bind {A B} (m : M A) (k : A -> M B) :
  Spec.returns m -> (forall a, Spec.returns (k a)) -> Spec.returns (bind m k).
Proof.
  intros Hm Hk st. unfold bind. destruct (Hm st) as (a & st1 & ->). apply Hk.
Qed.

Lemma returns_modify f : Spec.returns (modify f).
Proof. intros st. now exists tt, (f st). Qed.

Lemma returns_executeTest name (fn : M Value) : Spec.returns (executeTest name fn).
Proof.
  intros st. destruct (executeTest_outcome name fn st) as (t & st' & E & _).
  now exists t, st'.
Qed.

(** The executor never hangs, whatever the function. *)
Lemma ends_executeTest_fn name (fn : TestFn Value) : Spec.ends (executeTest name fn).
Proof.
  intros st. rewrite executeTest_unfold.
  pose proof (race_never_pends name fn (Spec.test_start name st)) as H.
  destruct (race name fn (Spec.test_start name st)) as [[v|[e|v]|] st1];
    simpl in *; try discriminate. contradiction.
Qed.

(** A custom test that rejects with Error objects only gives a test
    result. *)
Lemma returns_executeTest_callback name (c : Callback Value) :
  (forall v d, c <> RejectsWith v d) ->
  Spec.returns (executeTest name (await_callback c)).
Proof.
  intros Hc st.
  destruct (executeTest_verdict name (await_callback c) st) as (t & st' & E & _).
  - intros v.
    destruct (race_ends name (await_callback c) (Spec.test_start name st))
      as [H|H]; rewrite H; [|discriminate].
    destruct c as [s|w d]; [|exfalso; now apply (Hc w d)].
    simpl. rewrite method_run. simpl. destruct (fst (await s _)); discriminate.
  - now exists t, st'.
Qed.

Lemma returns_push_test t : Spec.returns (push_test t).
Proof. apply returns_modify. Qed.

Lemma returns_run_tests tests : Spec.returns (run_tests tests).
Proof.
  induction tests as [|[name fn] rest IH]; simpl.
  - apply returns_ret.
  - apply returns_bind; [apply returns_executeTest|]. intros t.
    apply returns_bind; [apply returns_push_test|]. intros _. exact IH.
Qed.

Lemma returns_when b m : Spec.returns m -> Spec.returns (when b m).
Proof. destruct b; [trivial|]. intros _. apply returns_ret. Qed.

Lemma returns_run_custom_tests l :
  Forall Spec.is_item l -> Forall Spec.throws_errors l ->
  Spec.returns (run_custom_tests l).
Proof.
  induction 1 as [|[t|] rest Ht _ IH]; intros He; simpl;
    [apply returns_ret| |contradiction].
  apply Forall_cons in He as [He1 He2].
  apply returns_bind; [|intros _; exact (IH He2)].
  apply returns_bind; [apply returns_executeTest_callback, He1|]. intros r.
  apply returns_push_test.
Qed.

Lemma returns_run_tool_tests peer l :
  Forall Spec.is_item l -> Spec.returns (run_tool_tests peer l).
Proof.
  induction 1 as [|[t|] rest Ht _ IH]; simpl; [apply returns_ret| |contradiction].
  apply returns_bind; [|intros _; exact IH].
  apply returns_bind; [apply returns_executeTest|]. intros r.
  apply returns_push_test.
Qed.

Lemma ends_run_custom_tests l : Spec.ends (run_custom_tests l).
Proof.
  induction l as [|[t|] rest IH]; simpl; [apply ends_ret| |].
  - apply ends_bind; [|intros _; exact IH].
    apply ends_bind; [apply ends_executeTest_fn|]. intros r.
    apply returns_ends, returns_push_test.
  - apply ends_bind; [apply ends_throw|]. intros _. exact IH.
Qed.

Lemma ends_run_tool_tests peer l : Spec.ends (run_tool_tests peer l).
Proof.
  induction l as [|[t|] rest IH]; simpl; [apply ends_ret| |].
  - apply ends_bind; [|intros _; exact IH]. apply returns_ends.
    apply returns_bind; [apply returns_executeTest|]. intros r.
    apply returns_push_test.
  - apply ends_bind; [apply ends_throw|]. intros _. exact IH.
Qed.

(** The built-in phases call the executor only: they always return. *)
Lemma returns_builtin_phases peer m tests :
  Spec.returns
    (when (not_false (testDiscovery tests)) (runDiscoveryTests peer) ;;;
     when (not_false (testStability tests)) (runStabilityTests m) ;;;
     when (testProtocolCompliance tests) (runProtocolComplianceTests peer) ;;;
     when (testPerformance tests) (runPerformanceTests m) ;;;
     when (testErrorHandling tests) (runErrorHandlingTests peer m)).
Proof.
  repeat (apply returns_bind; [apply returns_when, returns_run_tests | intros _]).
  apply returns_when, returns_run_tests.
Qed.

Lemma returns_run_phases peer m cfg tests :
  Spec.entries_are_objects cfg tests -> Spec.custom_tests_throw_errors cfg tests ->
  Spec.returns (run_phases peer m cfg tests).
Proof.
  intros (Hc & Ht & Hx) (Ec & Ex). unfold run_phases.
  repeat (apply returns_bind; [apply returns_when, returns_run_tests | intros _]).
  apply returns_bind; [|intros _; apply returns_bind; [|intros _]].
  - destruct (customTests tests); simpl in Hc, Ec;
      [now apply returns_run_custom_tests | apply returns_ret].
  - destruct (toolTests tests); simpl in Ht;
      [now apply returns_run_tool_tests | apply returns_ret].
  - destruct (transportTests tests) as [table|]; simpl in Hx, Ex; [|apply returns_ret].
    destruct (Json.assoc (Js.show_opt (type cfg)) table); simpl in Hx, Ex;
      [now apply returns_run_custom_tests | apply returns_ret].
Qed.

Lemma ends_run_phases peer m cfg tests : Spec.ends (run_phases peer m cfg tests).
Proof.
  unfold run_phases.
  repeat (apply ends_bind;
          [apply returns_ends, returns_when, returns_run_tests | intros _]).
  apply ends_bind; [|intros _; apply ends_bind; [|intros _]].
  - destruct (customTests tests); [apply ends_run_custom_tests | apply ends_ret].
  - destruct (toolTests tests); [apply ends_run_tool_tests | apply ends_ret].
  - destruct (transportTests tests) as [table|]; [|apply ends_ret].
    destruct (Json.assoc (Js.show_opt (type cfg)) table);
      [apply ends_run_custom_tests | apply ends_ret].
Qed.

(** *** Connecting to a client library that settles *)

Lemma attempt_settles peer cfg i :
  (forall i t, connect peer i t <> Never) -> (forall i, verify peer i <> Never) ->
  Spec.attempt_error peer cfg i = None ->
  is_Some (Spec.attempt_session peer cfg i).
Proof.
  intros Hc Hv. unfold Spec.attempt_error, Spec.attempt_session.
  destruct (Spec.transport_of cfg) as [e|t]; [discriminate|].
  specialize (Hc i t). specialize (Hv i).
  destruct (connect peer i t) as [[] d|e d|]; try discriminate; [|contradiction].
  destruct (verify peer i) as [v d'|e d'|]; try discriminate; [|contradiction].
  intros _. now eexists.
Qed.

Lemma connect_loop_ends peer cfg :
  (forall i t, connect peer i t <> Never) -> (forall i, verify peer i <> Never) ->
  forall remaining attempt lastError st,
    fst (connect_loop peer cfg (transport_label cfg) remaining attempt lastError st)
    <> Hangs.
Proof.
  intros Hc Hv. induction remaining as [|r IH]; intros attempt lastError st.
  - rewrite connect_loop_zero. discriminate.
  - destruct (connect_loop_turn peer cfg r attempt lastError st) as (st3 & _ & ->).
    destruct (Spec.attempt_error peer cfg attempt) as [e|] eqn:Ee; [apply IH|].
    destruct (attempt_settles peer cfg attempt Hc Hv Ee) as [s ->]. discriminate.
Qed.

Lemma connect_loop_hangs peer cfg :
  forall remaining attempt lastError st,
    fst (connect_loop peer cfg (transport_label cfg) remaining attempt lastError st)
    = Hangs ->
    exists i, Spec.attempt_pending peer cfg i.
Proof.
  induction remaining as [|r IH]; intros attempt lastError st.
  - rewrite connect_loop_zero. discriminate.
  - destruct (connect_loop_turn peer cfg r attempt lastError st) as (st3 & _ & ->).
    destruct (Spec.attempt_error peer cfg attempt) as [e|] eqn:Ee; [apply IH|].
    destruct (Spec.attempt_session peer cfg attempt) as [s|] eqn:Es; [discriminate|].
    intros _. exists attempt. now split.
Qed.

Lemma connectToServer_hangs peer cfg st :
  fst (connectToServer peer cfg st) = Hangs ->
  exists i, Spec.attempt_pending peer cfg i.
Proof. unfold connectToServer, bind, get. apply connect_loop_hangs. Qed.

Lemma connectToServer_ends peer cfg st :
  (forall i t, connect peer i t <> Never) -> (forall i, verify peer i <> Never) ->
  fst (connectToServer peer cfg st) <> Hangs.
Proof.
  intros Hc Hv. unfold connectToServer, bind, get. now apply connect_loop_ends.
Qed.

(** *** The [finally] block, in full *)

Lemma suite_finally_completes peer cfg tests start st :
  match suite_finally peer cfg tests start st with
  | (Return r, st') =>
      Spec.completed cfg start r /\
      s_tests r = d_tests (draft st) /\
      s_status r = d_status (draft st) /\
      s_error r = d_error (draft st) /\
      results st' = (results st ++ [r])%list /\
      options st' = options st
  | (Throw _, _) => False
  | (Hangs, st') =>
      results st' = results st /\ options st' = options st /\
      is_Some (d_client (draft st)) /\ close peer = Never
  end.
Proof.
  unfold suite_finally, close_client, Spec.completed.
  unfold bind at 1. unfold bind at 1. unfold get at 1.
  destruct (d_client (draft st)) as [c|] eqn:Ec.
  - unfold try_catch, bind, modify, await, log, log_with, Date_now, get, ret.
    destruct (close peer) as [[] d|e d|]; simpl.
    + rewrite ?Ec. repeat split; reflexivity.
    + rewrite ?orb_true_r. simpl. rewrite ?Ec. repeat split; reflexivity.
    + repeat split; try reflexivity. now eexists.
  - unfold bind, modify, Date_now, get, ret. simpl. rewrite ?Ec.
    repeat split; reflexivity.
Qed.

(** [testServer], outcome by outcome. *)
Lemma testServer_result peer m cfg tests st :
  match testServer peer m cfg tests st with
  | (Return r, st') =>
      results st' = (results st ++ [r])%list /\
      options st' = options st /\
      Spec.completed cfg (now st) r /\
      Spec.wf_suite r
  | (Throw _, _) => False
  | (Hangs, st') =>
      results st' = results st /\ options st' = options st /\
      ((exists i, Spec.attempt_pending peer cfg i) \/ close peer = Never)
  end.
Proof.
  rewrite testServer_unfold.
  destruct (connectToServer_frame peer cfg (Spec.suite_start st))
    as (k & cs & (a1 & a2 & a3 & _)).
  destruct (connectToServer peer cfg (Spec.suite_start st))
    as [[s|E|] st1] eqn:Ec; simpl in a1, a2, a3.
  - destruct (obeys_run_phases peer m cfg tests (Spec.session_start s st1))
      as [(g1 & g2 & g3 & g4 & g5 & g6 & g7 & l & g8 & g9) _].
    pose proof (ends_run_phases peer m cfg tests (Spec.session_start s st1)) as Hends.
    destruct (run_phases peer m cfg tests (Spec.session_start s st1))
      as [[u|e|] st3]; simpl in g1, g2, g3, g4, g5, g6, g7, g8, Hends.
    + set (st4 := set_draft (set_status "passed" (draft st3)) st3).
      pose proof (suite_finally_completes peer cfg tests (now st) st4) as F.
      destruct (suite_finally peer cfg tests (now st) st4) as [[r|x|] st'].
      * destruct F as (f0 & f1 & f2 & _ & f5 & f6). simpl in f1, f2, f5, f6.
        split; [now rewrite f5, g2, a2|]. split; [now rewrite f6, g1, a1|].
        split; [exact f0|]. split; [now left|]. rewrite f1, g8, a3. exact g9.
      * contradiction.
      * destruct F as (f1 & f2 & _ & f4). simpl in f1, f2.
        split; [now rewrite f1, g2, a2|]. split; [now rewrite f2, g1, a1|].
        now right.
    + pose proof (suite_finally_completes peer cfg tests (now st)
                    (snd (suite_catch e st3))) as F.
      destruct (suite_catch_frame e st3) as (c1 & c2 & c3 & _).
      destruct (suite_finally peer cfg tests (now st) (snd (suite_catch e st3)))
        as [[r|x|] st'].
      * rewrite suite_catch_draft, c1, c2 in F.
        destruct F as (f0 & f1 & f2 & _ & f5 & f6). simpl in f1, f2, f5, f6.
        split; [now rewrite f5, g2, a2|]. split; [now rewrite f6, g1, a1|].
        split; [exact f0|]. split; [now right|]. rewrite f1, g8, a3. exact g9.
      * contradiction.
      * rewrite c1, c2 in F. destruct F as (f1 & f2 & _ & f4).
        split; [now rewrite f1, g2, a2|]. split; [now rewrite f2, g1, a1|].
        now right.
    + contradiction.
  - pose proof (suite_finally_completes peer cfg tests (now st)
                  (snd (suite_catch E st1))) as F.
    destruct (suite_catch_frame E st1) as (c1 & c2 & c3 & _).
    destruct (suite_finally peer cfg tests (now st) (snd (suite_catch E st1)))
      as [[r|x|] st'].
    + rewrite suite_catch_draft, c1, c2 in F.
      destruct F as (f0 & f1 & f2 & _ & f5 & f6). simpl in f1, f2, f5, f6.
      split; [now rewrite f5, a2|]. split; [now rewrite f6, a1|].
      split; [exact f0|]. split; [now right|]. rewrite f1, a3. constructor.
    + contradiction.
    + rewrite c1, c2 in F. destruct F as (f1 & f2 & _ & f4).
      split; [now rewrite f1, a2|]. split; [now rewrite f2, a1|].
      now right.
  - split; [exact a2|]. split; [exact a1|].
    left. apply (connectToServer_hangs peer cfg (Spec.suite_start st)).
    now rewrite Ec.
Qed.

(** A connection that cannot be established. *)
Lemma testServer_connection_failed peer m cfg tests st E st1 :
  connectToServer peer cfg (Spec.suite_start st) = (Throw E, st1) ->
  exists r st',
    testServer peer m cfg tests st = (Return r, st') /\
    s_status r = Some "failed" /\
    s_error r = Some (Spec.suite_error_of E) /\
    s_tests r = [] /\
    Spec.closes (io st') = Spec.closes (io st).
Proof.
  intros Hc. rewrite testServer_unfold, Hc.
  destruct (connectToServer_frame peer cfg (Spec.suite_start st))
    as (k & cs & (a1 & a2 & a3 & _ & _ & a6)).
  rewrite Hc in a1, a2, a3, a6. simpl in a1, a2, a3, a6.
  destruct (suite_catch_frame E st1) as (c1 & c2 & c3 & _).
  pose proof (suite_catch_draft E st1) as Hd. rewrite a3 in Hd.
  set (stc := snd (suite_catch E st1)) in *.
  pose proof (suite_finally_spec peer cfg tests (now st) stc) as F.
  pose proof (suite_finally_completes peer cfg tests (now st) stc) as G.
  destruct (suite_finally peer cfg tests (now st) stc) as [[r|x|] st'].
  + exists r, st'. destruct F as (f1 & f2 & f3 & _ & _ & _ & _ & _ & _ & f10).
    rewrite Hd in f1, f2, f3, f10. simpl in f1, f2, f3, f10.
    rewrite app_nil_r, c3 in f10.
    split; [reflexivity|]. split; [exact f2|]. split; [exact f3|].
    split; [exact f1|]. now rewrite f10, a6.
  + contradiction.
  + destruct G as (_ & _ & [c Hcl] & _). rewrite Hd in Hcl. discriminate.
Qed.

(** With a client library whose calls settle, [testServer] settles. *)
Lemma testServer_settles peer m cfg tests st :
  Spec.responsive peer -> fst (testServer peer m cfg tests st) <> Hangs.
Proof.
  intros (Hc & Hv & Hcl) Hh.
  pose proof (testServer_result peer m cfg tests st) as R.
  destruct (testServer peer m cfg tests st) as [[r|x|] st']; try discriminate.
  destruct R as (_ & _ & [(i & He & Hs)|R]); [|contradiction].
  destruct (attempt_settles peer cfg i Hc Hv He) as [s Hs']. congruence.
Qed.

(** X11.  [testServer] never rejects.  Whatever the configuration, the
    server and the tests, it returns the suite result it recorded or never
    settles, and it never settles only while a [connect], a liveness call
    or the [close] is pending: with a client library that settles it
    always returns.  A connection that cannot be established gives a
    failed suite that carries the connection error and no test, and no
    client is closed. *)
Theorem testServer_never_rejects
  (peer : Peer) (m : Measured) (cfg : TransportConfig) (tests : Tests)
  (st : Framework) :
  (forall e, fst (testServer peer m cfg tests st) <> Throw e) /\
  (fst (testServer peer m cfg tests st) = Hangs ->
   (exists i, Spec.attempt_pending peer cfg i) \/ close peer = Never) /\
  (Spec.responsive peer ->
   exists r st',
     testServer peer m cfg tests st = (Return r, st') /\
     results st' = (results st ++ [r])%list /\
     Spec.completed cfg (now st) r) /\
  (forall E st1,
      connectToServer peer cfg (Spec.suite_start st) = (Throw E, st1) ->
      exists r st',
        testServer peer m cfg tests st = (Return r, st') /\
        s_status r = Some "failed" /\
        s_error r = Some (Spec.suite_error_of E) /\
        s_tests r = [] /\
        Spec.closes (io st') = Spec.closes (io st)).
Proof.
  pose proof (testServer_result peer m cfg tests st) as R.
  split; [|split; [|split]].
  - intros e He. destruct (testServer peer m cfg tests st) as [[r|x|] st'];
      try discriminate. exact R.
  - intros Hh. destruct (testServer peer m cfg tests st) as [[r|x|] st'];
      try discriminate. now destruct R as (_ & _ & R).
  - intros (Hc & Hv & Hcl).
    destruct (testServer peer m cfg tests st) as [[r|x|] st'].
    + exists r, st'. destruct R as (r1 & _ & r3 & _).
      split; [reflexivity|]. split; assumption.
    + contradiction.
    + exfalso. destruct R as (_ & _ & [(i & He & Hs)|R]); [|contradiction].
      destruct (attempt_settles peer cfg i Hc Hv He) as [s Hs']. congruence.
  - intros E st1 Hc. exact (testServer_connection_failed peer m cfg tests st E st1 Hc).
Qed.

(** A suite whose phases all return. *)
Lemma testServer_passed
  (peer : Peer) (m : Measured) (cfg : TransportConfig) (tests : Tests)
  (st : Framework) (s : Session) (st1 : Framework) :
  connectToServer peer cfg (Spec.suite_start st) = (Return s, st1) ->
  Spec.entries_are_objects cfg tests ->
  Spec.custom_tests_throw_errors cfg tests ->
  close peer <> Never ->
  exists r st',
    testServer peer m cfg tests st = (Return r, st') /\
    s_status r = Some "passed" /\
    s_error r = None /\
    s_tests r
    = d_tests (draft (snd (run_phases peer m cfg tests (Spec.session_start s st1)))) /\
    m_failedTests (s_metrics r)
    = length (List.filter (has_status "failed") (s_tests r)).
Proof.
  intros Hc Hobj Herr Hcl.
  destruct (suite_start_frame _ _ _ _ _ Hc) as (_ & _ & Hdr & _).
  rewrite testServer_unfold, Hc.
  destruct (returns_run_phases peer m cfg tests Hobj Herr (Spec.session_start s st1))
    as ([] & st3 & Ep).
  destruct (obeys_run_phases peer m cfg tests (Spec.session_start s st1))
    as [(_ & _ & _ & _ & _ & _ & g7 & _) _].
  rewrite Ep in *. simpl in g7.
  set (st4 := set_draft (set_status "passed" (draft st3)) st3).
  pose proof (suite_finally_completes peer cfg tests (now st) st4) as G.
  destruct (suite_finally peer cfg tests (now st) st4) as [[r|x|] st'].
  - exists r, st'. destruct G as ((_ & _ & _ & _ & g0) & g1 & g2 & g3 & _).
    simpl in g1, g2, g3. split; [reflexivity|]. split; [exact g2|].
    split; [now rewrite g3, g7, Hdr|]. split; [exact g1|].
    rewrite g0. reflexivity.
  - contradiction.
  - destruct G as (_ & _ & _ & G). contradiction.
Qed.


End SuiteLiveness.

(** ** What a framework object holds, and what it reports *)

Section RecordedResults.

Import Advanced.

Lemma generateReport_options save st :
  options (snd (generateReport save st)) = options st.
Proof.
  unfold generateReport, bind, get, try_catch, await, log, log_with, ret.
  destruct save as [p d|e d|]; simpl; try reflexivity;
    destruct (verbose (options st)); reflexivity.
Qed.

Lemma testServer_options peer m cfg tests st :
  options (snd (testServer peer m cfg tests st)) = options st.
Proof.
  pose proof (testServer_result peer m cfg tests st) as R.
  destruct (testServer peer m cfg tests st) as [[r|x|] st']; simpl.
  - now destruct R as (_ & R & _).
  - contradiction.
  - now destruct R as (_ & R & _).
Qed.

(** Every result held was completed by a [testServer] call. *)
Lemma reachable_completed (st : Framework) :
  Spec.reachable st ->
  Forall (fun r => Spec.wf_suite r /\ exists cfg start, Spec.completed cfg start r)
    (results st).
Proof.
  induction 1 as [o t|st peer m cfg tests _ IH|st save _ IH].
  - constructor.
  - pose proof (testServer_result peer m cfg tests st) as R.
    destruct (testServer peer m cfg tests st) as [[r|x|] st']; simpl.
    + destruct R as (-> & _ & Hc & Hw). apply Forall_app. split; [exact IH|].
      constructor; [|constructor]. split; [exact Hw|]. now exists cfg, (now st).
    + contradiction.
    + destruct R as (-> & _). exact IH.
  - now rewrite generateReport_results.
Qed.

(** The options are those the constructor made. *)
Lemma made_from_options (o : UserOptions) (t : Z) (st : Framework) :
  Spec.made_from o t st -> options st = make_options o.
Proof.
  induction 1 as [|st peer m cfg tests _ IH|st save _ IH].
  - reflexivity.
  - now rewrite testServer_options.
  - now rewrite generateReport_options.
Qed.

(** X13.  The options of a framework object are settled by its
    constructor and never change: in every state the object made from the
    argument [o] reaches, through any [testServer] and [generateReport]
    calls, they are the options the constructor stored, and one more such
    call leaves them as they are.  A [timeout], [retryDelay] or
    [retryAttempts] given and not zero is kept; a missing or zero one is
    replaced by its default (30000, 1000, 0), so the test timer and the
    retry delay are never 0 ms.  An [outputDir] given and not empty is kept;
    otherwise it is "./test-results". *)
Theorem options_are_fixed_at_construction
  (o : UserOptions) (t : Z) (st : Framework) :
  Spec.made_from o t st ->
  options st = options (new_framework o t) /\
  (forall peer m cfg tests,
      options (snd (testServer peer m cfg tests st)) = options st) /\
  (forall save, options (snd (generateReport save st)) = options st) /\
  (forall n, u_timeout o = Some n -> n <> 0 -> timeout (options st) = n) /\
  (u_timeout o = None \/ u_timeout o = Some 0 ->
   timeout (options st) = 30000) /\
  (forall n, u_retryDelay o = Some n -> n <> 0 ->
             retryDelay (options st) = n) /\
  (u_retryDelay o = None \/ u_retryDelay o = Some 0 ->
   retryDelay (options st) = 1000) /\
  (forall n, u_retryAttempts o = Some n -> retryAttempts (options st) = n) /\
  (u_retryAttempts o = None -> retryAttempts (options st) = 0) /\
  (forall d, u_outputDir o = Some d -> d <> "" -> outputDir (options st) = d) /\
  (u_outputDir o = None \/ u_outputDir o = Some "" ->
   outputDir (options st) = "./test-results") /\
  timeout (options st) <> 0 /\
  retryDelay (options st) <> 0 /\
  outputDir (options st) <> "".
Proof.
  intros H. pose proof (made_from_options o t st H) as Ho.
  split; [exact Ho|].
  split; [intros; apply testServer_options|].
  split; [intros; apply generateReport_options|].
  rewrite Ho. unfold make_options, num_or. simpl.
  repeat split.
  - intros n -> Hn. now destruct (Z.eqb_spec n 0).
  - now intros [-> | ->].
  - intros n -> Hn. now destruct (Z.eqb_spec n 0).
  - now intros [-> | ->].
  - intros n ->. now destruct (Z.eqb_spec n 0).
  - now intros ->.
  - intros d -> Hd. simpl. now destruct (String.eqb_spec d "").
  - now intros [-> | ->].
  - destruct (u_timeout o) as [n|]; [|discriminate].
    destruct (Z.eqb_spec n 0); [discriminate | assumption].
  - destruct (u_retryDelay o) as [n|]; [|discriminate].
    destruct (Z.eqb_spec n 0); [discriminate | assumption].
  - destruct (u_outputDir o) as [d|]; simpl; [|discriminate].
    destruct (String.eqb_spec d ""); simpl; [discriminate | assumption].
Qed.

Lemma sanitizeConfig_masked (cfg : TransportConfig) :
  Spec.config_masked (sanitizeConfig cfg).
Proof.
  split.
  - simpl. intros h Hh key value Hk Hs.
    destruct (headers cfg) as [h0|]; [|discriminate]. injection Hh as <-.
    rewrite safe_headers_lookup in Hk. apply sensitive_iff in Hs. rewrite Hs in Hk.
    destruct (String.eqb key "__proto__"); [discriminate|].
    destruct (h0 !! key); [|discriminate]. now injection Hk as <-.
  - simpl. destruct (auth cfg) as [a|]; simpl; [|now left].
    destruct (String.eqb_spec a ""); simpl; [subst; right; now left|].
    right. now right.
Qed.

(** X14.  No suite result a framework object holds, and none a report
    lists, shows a sensitive value of its configuration: the headers whose
    name contains "auth", "token" or "key" carry the placeholder, and so
    does a top-level [auth] that is set. *)
Theorem recorded_configurations_are_masked
  (st : Framework) (r : SuiteResult) :
  Spec.reachable st -> In r (results st) ->
  Spec.config_masked (s_config r) /\
  forall save report st',
    generateReport save st = (Return report, st') ->
    Forall (fun x => Spec.config_masked (s_config x)) (rep_results report).
Proof.
  intros H Hin. pose proof (reachable_completed st H) as Hall.
  assert (Hm : Forall (fun x => Spec.config_masked (s_config x)) (results st)).
  { eapply Forall_impl; [exact Hall|]. simpl.
    intros x (_ & cfg & start & (_ & -> & _)). apply sanitizeConfig_masked. }
  split.
  - rewrite Forall_forall in Hm. apply Hm. now apply list_elem_of_In.
  - intros save report st'.
    unfold generateReport, bind, get, try_catch, await, log, log_with, ret.
    destruct save as [p d|e d|]; simpl; intros [= <- _]; exact Hm.
Qed.

(** X15.  The metrics of every suite result a framework object holds are
    those of its tests: [totalTests] is their number, every test counts
    as passed or as failed, so that the two counts add up to the total,
    and the duration of the suite is the time between its start and its
    end. *)
Theorem recorded_metrics_add_up (st : Framework) (r : SuiteResult) :
  Spec.reachable st -> In r (results st) ->
  s_metrics r = calculateMetrics (s_tests r) /\
  m_totalTests (s_metrics r) = length (s_tests r) /\
  m_totalTests (s_metrics r)
  = (m_passedTests (s_metrics r) + m_failedTests (s_metrics r))%nat /\
  s_duration r = s_endTime r - s_startTime r.
Proof.
  intros H Hin. pose proof (reachable_completed st H) as Hall.
  rewrite Forall_forall in Hall.
  destruct (Hall r ltac:(now apply list_elem_of_In))
    as ((_ & Hw) & cfg & start & (_ & _ & _ & Hd & Hm)).
  split; [exact Hm|]. rewrite Hm. simpl. split; [reflexivity|].
  split; [|exact Hd]. now apply tests_split.
Qed.

(** The report generator, by the way the save settles. *)
Lemma generateReport_outcome
  (save : Settle string) (st : Framework) :
  (save = Never -> fst (generateReport save st) = Hangs) /\
  (save <> Never ->
   exists report st',
     generateReport save st = (Return report, st') /\
     rep_results report = results st /\
     rep_metrics report = metrics st /\
     rep_duration report = now st - startTime (metrics st) /\
     rep_summary report = summarize (results st) /\
     results st' = results st /\ metrics st' = metrics st /\
     options st' = options st /\
     forall e d, save = Rejects e d ->
       console st'
       = (console st ++ [{| at_time := now st + d; level := ErrorLevel;
                            text := "Failed to save report: " +:+ message e;
                            payload := None |}])%list).
Proof.
  split.
  - intros ->. reflexivity.
  - intros Hs.
    unfold generateReport, bind, get, try_catch, await, log, log_with, ret.
    destruct save as [p d|e d|]; [| |contradiction]; simpl.
    + eexists _, _. split; [reflexivity|]. simpl.
      destruct (verbose (options st)); simpl; repeat split; try reflexivity;
        intros e0 d0; discriminate.
    + rewrite orb_true_r. eexists _, _. split; [reflexivity|]. simpl.
      repeat split; try reflexivity. intros e0 d0 [= <- <-]. reflexivity.
Qed.

(** X16.  [generateReport] does not fail when the report cannot be
    saved.  Unless writing the file never settles it returns the report:
    the recorded results, the counters and the time since construction.
    A failed save leaves one error line on the console, and in no case
    are the results, the counters or the options of the object changed. *)
Theorem generateReport_survives_a_failed_save
  (save : Settle string) (st : Framework) :
  (save = Never -> fst (generateReport save st) = Hangs) /\
  (save <> Never ->
   exists report st',
     generateReport save st = (Return report, st') /\
     rep_results report = results st /\
     rep_metrics report = metrics st /\
     rep_duration report = now st - startTime (metrics st) /\
     rep_summary report = summarize (results st) /\
     results st' = results st /\ metrics st' = metrics st /\
     options st' = options st /\
     forall e d, save = Rejects e d ->
       console st'
       = (console st ++ [{| at_time := now st + d; level := ErrorLevel;
                            text := "Failed to save report: " +:+ message e;
                            payload := None |}])%list).
Proof. exact (generateReport_outcome save st). Qed.

(** *** The per-transport table *)

Lemma getTransportSummary_snoc rs r :
  getTransportSummary (rs ++ [r]) = summary_step (getTransportSummary rs) r.
Proof. unfold getTransportSummary. now rewrite fold_left_app. Qed.

Lemma filter_snoc {A} (f : A -> bool) (l : list A) (a : A) :
  List.filter f (l ++ [a]) = (List.filter f l ++ if f a then [a] else [])%list.
Proof. rewrite List.filter_app. reflexivity. Qed.

(** X17.  [getTransportSummary] counts per transport.  For a key that
    is none of the names every object inherits, the table has an entry
    exactly when some recorded suite has that transport (a suite without
    one is filed under "undefined"), and the entry holds the number of
    those suites, the number of them that passed, and as failed the number
    of all the others.  Under an inherited name ("constructor",
    "toString", "__proto__", ...) the table never has an entry of its own,
    whatever the suites: a suite with such a transport is counted
    nowhere. *)
Theorem getTransportSummary_tallies_each_transport
  (rs : list SuiteResult) (key : string) :
  getTransportSummary rs !! key
  = if Js.inherited key then None
    else match List.filter (Spec.of_transport key) rs with
         | [] => None
         | mine => Some (Spec.tally mine)
         end.
Proof.
  induction rs as [|r rs IH] using rev_ind.
  - change (getTransportSummary []) with (∅ : gmap string Stats).
    rewrite lookup_empty. now destruct (Js.inherited key).
  - rewrite getTransportSummary_snoc, filter_snoc. unfold summary_step.
    unfold Spec.of_transport at 2.
    destruct (String.eqb_spec (Js.show_opt (s_transport r)) key) as [<-|Hne].
    + destruct (Js.inherited (Js.show_opt (s_transport r))) eqn:Ei;
        [exact IH|].
      rewrite lookup_insert_eq, IH.
      set (mine := List.filter (Spec.of_transport (Js.show_opt (s_transport r))) rs).
      assert (E : (mine ++ [r])%list <> []) by (destruct mine; discriminate).
      destruct (mine ++ [r])%list as [|x l] eqn:Em; [contradiction|].
      rewrite <- Em. clear E Em x l. f_equal.
      assert (Ed : default {| total := 0; passed := 0; failed := 0 |}
                     match mine with [] => None | x :: l => Some (Spec.tally (x :: l)) end
                   = Spec.tally mine) by (destruct mine; reflexivity).
      rewrite Ed. unfold Spec.tally. rewrite !filter_snoc, !length_app. simpl.
      destruct (suite_has_status "passed" r); simpl; f_equal; lia.
    + rewrite app_nil_r.
      destruct (Js.inherited (Js.show_opt (s_transport r))); [exact IH|].
      rewrite lookup_insert_ne by assumption. exact IH.
Qed.

(** *** Several configurations in a row *)

Lemma test_each_records runs tests :
  forall st,
    match test_each runs tests st with
    | (Return _, st') =>
        exists l, results st' = (results st ++ l)%list /\
                  Forall2 (fun run r => exists start, Spec.completed (snd run) start r)
                    runs l
    | (Throw _, _) => False
    | (Hangs, st') => True
    end.
Proof.
  induction runs as [|[[peer m] cfg] rest IH]; intros st; simpl.
  - exists []. rewrite app_nil_r. split; [reflexivity|constructor].
  - unfold bind. pose proof (testServer_result peer m cfg tests st) as R.
    destruct (testServer peer m cfg tests st) as [[r|x|] st1]; [|contradiction|exact I].
    destruct R as (r1 & _ & r3 & _). specialize (IH st1).
    destruct (test_each rest tests st1) as [[u|x|] st']; [|contradiction|exact I].
    destruct IH as (l & Hl & Hf). exists (r :: l). split.
    + rewrite Hl, r1, <- app_assoc. reflexivity.
    + constructor; [|exact Hf]. now exists (now st).
Qed.

Lemma test_each_settles runs tests :
  Forall (fun run => Spec.responsive (fst (fst run))) runs ->
  forall st, fst (test_each runs tests st) <> Hangs.
Proof.
  induction 1 as [|[[peer m] cfg] rest Hr _ IH]; intros st; simpl.
  - discriminate.
  - unfold bind. pose proof (testServer_settles peer m cfg tests st Hr) as S.
    destruct (testServer peer m cfg tests st) as [[r|x|] st1]; simpl in *.
    + apply IH.
    + discriminate.
    + contradiction.
Qed.

Lemma testServerMultiTransport_settles runs tests save st :
  Forall (fun run => Spec.responsive (fst (fst run))) runs -> save <> Never ->
  fst (testServerMultiTransport runs tests save st) <> Hangs.
Proof.
  intros Hr Hs. unfold testServerMultiTransport, bind.
  pose proof (test_each_settles runs tests Hr st) as T.
  destruct (test_each runs tests st) as [[u|x|] st1]; simpl in *.
  - destruct (proj2 (generateReport_outcome save st1) Hs) as (report & st' & E & _).
    rewrite E. discriminate.
  - discriminate.
  - contradiction.
Qed.

(** X18.  [testServerMultiTransport] records one suite per configuration,
    in the order given, whether the suites pass or fail: a configuration
    that cannot be connected does not keep the later ones from being
    tested.  It never rejects; when it settles it returns the report,
    whose results are the earlier ones followed by one completed result
    per configuration; and it settles whenever the calls on the client
    library and the saving of the report do. *)
Theorem testServerMultiTransport_records_every_configuration
  (runs : list (Peer * Measured * TransportConfig)) (tests : Tests)
  (save : Settle string) (st : Framework) :
  match testServerMultiTransport runs tests save st with
  | (Return report, st') =>
      exists l,
        rep_results report = (results st ++ l)%list /\
        results st' = rep_results report /\
        Forall2 (fun run r => exists start, Spec.completed (snd run) start r) runs l /\
        map s_transport l = map (fun run => type (snd run)) runs /\
        sum_total (rep_summary report) = (length (results st) + length runs)%nat
  | (Throw _, _) => False
  | (Hangs, _) => True
  end /\
  (Forall (fun run => Spec.responsive (fst (fst run))) runs -> save <> Never ->
   fst (testServerMultiTransport runs tests save st) <> Hangs).
Proof.
  split; [|apply testServerMultiTransport_settles].
  unfold testServerMultiTransport, bind.
  pose proof (test_each_records runs tests st) as T.
  destruct (test_each runs tests st) as [[u|x|] st1]; [|contradiction|exact I].
  destruct T as (l & Hl & Hf).
  destruct save as [p d|e d|]; [| |exact I].
  - destruct (proj2 (generateReport_outcome (Resolves p d) st1)
                ltac:(discriminate)) as (report & st' & E & e1 & _ & _ & e4 & e5 & _).
    rewrite E. exists l. rewrite e1, e4, e5, Hl.
    split; [reflexivity|]. split; [reflexivity|]. split; [exact Hf|].
    split.
    + clear -Hf. induction Hf as [|run r runs l (start & (Ht & _)) _ IH];
        simpl; [reflexivity|]. now rewrite Ht, IH.
    + simpl. rewrite length_app. now rewrite (Forall2_length _ _ _ Hf).
  - destruct (proj2 (generateReport_outcome (Rejects e d) st1)
                ltac:(discriminate)) as (report & st' & E & e1 & _ & _ & e4 & e5 & _).
    rewrite E. exists l. rewrite e1, e4, e5, Hl.
    split; [reflexivity|]. split; [reflexivity|]. split; [exact Hf|].
    split.
    + clear -Hf. induction Hf as [|run r runs l (start & (Ht & _)) _ IH];
        simpl; [reflexivity|]. now rewrite Ht, IH.
    + simpl. rewrite length_app. now rewrite (Forall2_length _ _ _ Hf).
Qed.

End RecordedResults.

(** ** Tool tests and protocol compliance *)

Section ToolTestProperties.

Import Advanced.

(** *** Sequencing, read backwards *)

Lemma bind_returns {A B} (m : M A) (k : A -> M B) st b st' :
  bind m k st = (Return b, st') ->
  exists a st1, m st = (Return a, st1) /\ k a st1 = (Return b, st').
Proof.
  unfold bind. destruct (m st) as [[a|e|] st1]; try discriminate.
  intros H. now exists a, st1.
Qed.

Lemma bind_throws {A B} (m : M A) (k : A -> M B) st e st' :
  bind m k st = (Throw e, st') ->
  m st = (Throw e, st')
  \/ exists a st1, m st = (Return a, st1) /\ k a st1 = (Throw e, st').
Proof.
  unfold bind. destruct (m st) as [[a|e0|] st1]; try discriminate.
  - intros H. right. now exists a, st1.
  - intros [= -> ->]. now left.
Qed.

Lemma await_returns {A} (s : Settle A) st a st' :
  await s st = (Return a, st') -> exists d, s = Resolves a d /\ st' = tick d st.
Proof. destruct s; simpl; intros [= <- <-]. now eexists. Qed.

Lemma await_throws {A} (s : Settle A) st e st' :
  await s st = (Throw e, st') -> exists d, s = Rejects e d /\ st' = tick d st.
Proof. destruct s; simpl; intros [= <- <-]. now eexists. Qed.

(** *** The assertion loop *)

Lemma run_assertions_step tool r a rest i done st :
  run_assertions tool r (a :: rest) i done st
  = match a r with
    | Settles (Resolves _ d) =>
        run_assertions tool r rest (i + 1)
          (done ++ [VObj [("index", VNum i); ("status", VStr "passed")]])%list
          (tick d (bump_totalAssertions st))
    | Settles (Rejects e d) =>
        (Throw (MCPTestError
                  ("Assertion " +:+ Js.show_Z (i + 1) +:+ " failed: " +:+ message e)
                  "ASSERTION_FAILED"
                  [("assertionIndex", VNum i); ("tool", VStr tool)]),
         tick d (bump_totalAssertions st))
    | Settles Never => (Hangs, bump_totalAssertions st)
    | RejectsWith v d =>
        (Throw (TypeError ("Cannot read properties of " +:+ nullish_text v
                           +:+ " (reading 'message')")),
         tick d (bump_totalAssertions st))
    end.
Proof.
  simpl run_assertions. unfold bind at 1. unfold modify at 1.
  unfold bind at 1. unfold try_await at 1.
  destruct (a r) as [[[] d|e d|]|v d]; reflexivity.
Qed.

Lemma run_assertions_pass tool r :
  forall rest i done st,
    Forall (Spec.holds r) rest ->
    exists st',
      run_assertions tool r rest i done st
      = (Return (done ++ Spec.passed_from i (length rest))%list, st') /\
      totalAssertions (metrics st')
      = totalAssertions (metrics st) + Z.of_nat (length rest).
Proof.
  induction rest as [|a rest IH]; intros i done st Hall.
  - exists st. simpl. rewrite app_nil_r. split; [reflexivity|lia].
  - inversion Hall as [|x l [d Hd] Hrest]; subst.
    rewrite run_assertions_step, Hd.
    destruct (IH (i + 1) (done ++ [VObj [("index", VNum i); ("status", VStr "passed")]])%list
                (tick d (bump_totalAssertions st)) Hrest) as (st' & E & Hc).
    exists st'. rewrite E. split.
    + simpl. now rewrite <- app_assoc.
    + rewrite Hc. simpl. lia.
Qed.

Lemma run_assertions_fail tool r :
  forall pre i done st (a : CallResult -> Callback unit) post e d,
    Forall (Spec.holds r) pre -> a r = Rejects e d ->
    exists st',
      run_assertions tool r (pre ++ a :: post) i done st
      = (Throw (Spec.assertion_failed tool (i + Z.of_nat (length pre)) e), st') /\
      totalAssertions (metrics st')
      = totalAssertions (metrics st) + Z.of_nat (length pre) + 1.
Proof.
  induction pre as [|b pre IH]; intros i done st a post e d Hall Ha.
  - simpl app. rewrite run_assertions_step, Ha.
    eexists. split.
    + unfold Spec.assertion_failed. rewrite Z.add_0_r. reflexivity.
    + simpl. lia.
  - inversion Hall as [|x l [d0 Hd] Hrest]; subst.
    simpl app. rewrite run_assertions_step, Hd.
    destruct (IH (i + 1) (done ++ [VObj [("index", VNum i); ("status", VStr "passed")]])%list
                (tick d0 (bump_totalAssertions st)) a post e d Hrest Ha)
      as (st' & E & Hc).
    exists st'. rewrite E. split.
    + do 3 f_equal. simpl length. lia.
    + rewrite Hc. simpl. lia.
Qed.

(** The loop returns only when every assertion holds, and throws only the
    error made of an assertion that failed, or the TypeError met when an
    assertion rejected with [null] or [undefined]. *)
Lemma run_assertions_outcome tool r :
  forall rest i done st,
    match run_assertions tool r rest i done st with
    | (Return l, _) => Forall (Spec.holds r) rest
    | (Throw e, _) =>
        code e = Some "ASSERTION_FAILED"
        \/ exists a v d, In a rest /\ a r = RejectsWith v d /\ Spec.unreadable v e
    | (Hangs, _) => True
    end.
Proof.
  induction rest as [|a rest IH]; intros i done st.
  - simpl. constructor.
  - rewrite run_assertions_step.
    destruct (a r) as [[[] d|e d|]|v d] eqn:Ea.
    + specialize (IH (i + 1)
                    (done ++ [VObj [("index", VNum i); ("status", VStr "passed")]])%list
                    (tick d (bump_totalAssertions st))).
      destruct (run_assertions tool r rest _ _ _) as [[l|e|] st'].
      * constructor; [now exists d | exact IH].
      * destruct IH as [IH|(b & v & d' & Hin & Hb & Hu)]; [now left|].
        right. exists b, v, d'. split; [now right|]. now split.
      * exact I.
    + now left.
    + exact I.
    + right. exists a, v, d. split; [now left|]. split; [exact Ea|].
      repeat split.
Qed.

(** X19.  The assertions of a tool test run in order and stop at the
    first that fails.  When all of them hold, the loop returns one passed
    entry per assertion and has counted them all in [totalAssertions].
    When the assertion at index [k] is the first to fail, the loop throws
    the error with code ASSERTION_FAILED that names it as "Assertion
    k+1", and [totalAssertions] has grown by [k + 1]: the assertions after
    it are neither run nor counted. *)
Theorem run_assertions_stops_at_first_failure
  (tool : string) (r : CallResult) (st : Framework) :
  (forall rest, Forall (Spec.holds r) rest ->
     exists st',
       run_assertions tool r rest 0 [] st
       = (Return (Spec.passed_from 0 (length rest)), st') /\
       totalAssertions (metrics st')
       = totalAssertions (metrics st) + Z.of_nat (length rest)) /\
  (forall pre (a : CallResult -> Callback unit) post e d,
     Forall (Spec.holds r) pre -> a r = Rejects e d ->
     exists st',
       run_assertions tool r (pre ++ a :: post) 0 [] st
       = (Throw (Spec.assertion_failed tool (Z.of_nat (length pre)) e), st') /\
       totalAssertions (metrics st')
       = totalAssertions (metrics st) + Z.of_nat (length pre) + 1).
Proof.
  split.
  - intros rest Hall. exact (run_assertions_pass tool r rest 0 [] st Hall).
  - intros pre a post e d Hall Ha.
    exact (run_assertions_fail tool r pre 0 [] st a post e d Hall Ha).
Qed.

(** *** The tool test function *)

Lemma try_catch_rethrow_returns {A} (body : M A) (wrap : JsError -> JsError) st a st' :
  try_catch body (fun e => throw (wrap e)) st = (Return a, st') ->
  body st = (Return a, st').
Proof.
  unfold try_catch. destruct (body st) as [[x|e|] st1]; try discriminate.
  intros H. exact H.
Qed.

Lemma try_catch_rethrow_throws {A} (body : M A) (wrap : JsError -> JsError) st e st' :
  try_catch body (fun e => throw (wrap e)) st = (Throw e, st') ->
  exists e0, body st = (Throw e0, st') /\ e = wrap e0.
Proof.
  unfold try_catch. destruct (body st) as [[x|e0|] st1]; try discriminate.
  intros [= <- <-]. now exists e0.
Qed.

(** The validation step of a tool test: it returns when validation is
    off, the tool has no schema, or the arguments are accepted. *)
Lemma validation_step_returns toolTest tool (st0 : Framework) st u st' :
  match (if validateSchemas (options st0) then inputSchema tool else None) with
  | Some schema =>
      validationResult <- validate_arguments (tt_arguments toolTest) schema ;;
      if valid validationResult then ret tt
      else
        throw (MCPTestError
                 (Js.join (newline +:+ "  ")
                    (["Invalid tool arguments:"] ++ errors validationResult
                     ++ [""; "Suggestions:"] ++ suggestions validationResult)%list)
                 "SCHEMA_VALIDATION_FAILED"
                 [("errors", VList (map VStr (errors validationResult)));
                  ("suggestions", VList (map VStr (suggestions validationResult)))])
  | None => ret tt
  end st = (Return u, st') ->
  st' = st /\
  (validateSchemas (options st0) = true ->
   forall schema, inputSchema tool = Some schema -> Spec.accepted toolTest schema).
Proof.
  unfold Spec.accepted.
  destruct (validateSchemas (options st0)); [|intros [= _ <-]; split; [reflexivity|discriminate]].
  destruct (inputSchema tool) as [schema|];
    [|intros [= _ <-]; split; [reflexivity|discriminate]].
  unfold validate_arguments, bind.
  destruct (tt_arguments toolTest) as [fields|].
  - unfold ret at 1. destruct (valid (validateAgainstSchema fields schema)) eqn:Ev;
      [|discriminate].
    intros [= _ <-]. split; [reflexivity|]. intros _ s [= <-]. exact Ev.
  - destruct (default [] (sc_required schema)) as [|f l] eqn:Er; [|discriminate].
    destruct (default [] (sc_properties schema)) as [|[f q] l] eqn:Ep; [|discriminate].
    simpl. intros [= _ <-]. split; [reflexivity|]. intros _ s [= <-].
    now rewrite Er, Ep.
Qed.

Lemma validation_step_throws toolTest tool (st0 : Framework) st e st' :
  match (if validateSchemas (options st0) then inputSchema tool else None) with
  | Some schema =>
      validationResult <- validate_arguments (tt_arguments toolTest) schema ;;
      if valid validationResult then ret tt
      else
        throw (MCPTestError
                 (Js.join (newline +:+ "  ")
                    (["Invalid tool arguments:"] ++ errors validationResult
                     ++ [""; "Suggestions:"] ++ suggestions validationResult)%list)
                 "SCHEMA_VALIDATION_FAILED"
                 [("errors", VList (map VStr (errors validationResult)));
                  ("suggestions", VList (map VStr (suggestions validationResult)))])
  | None => ret tt
  end st = (Throw e, st') ->
  exists schema,
    validateSchemas (options st0) = true /\ inputSchema tool = Some schema /\
    ((exists fields, tt_arguments toolTest = Some fields
                     /\ valid (validateAgainstSchema fields schema) = false
                     /\ code e = Some "SCHEMA_VALIDATION_FAILED"
                     /\ details e
                        = Some [("errors",
                                 VList (map VStr (errors (validateAgainstSchema fields schema))));
                                ("suggestions",
                                 VList (map VStr (suggestions (validateAgainstSchema fields schema))))])
     \/ (tt_arguments toolTest = None /\ err_name e = "TypeError" /\ code e = None
         /\ ~ (default [] (sc_required schema) = []
               /\ default [] (sc_properties schema) = []))).
Proof.
  destruct (validateSchemas (options st0)); [|discriminate].
  destruct (inputSchema tool) as [schema|]; [|discriminate].
  intros H. exists schema. split; [reflexivity|]. split; [reflexivity|].
  revert H. unfold validate_arguments, bind.
  destruct (tt_arguments toolTest) as [fields|].
  - unfold ret at 1. destruct (valid (validateAgainstSchema fields schema)) eqn:Ev;
      [discriminate|].
    intros [= <- <-]. left. exists fields. repeat split. exact Ev.
  - destruct (default [] (sc_required schema)) as [|f l].
    + destruct (default [] (sc_properties schema)) as [|[f q] l]; [discriminate|].
      intros [= <- <-]. right. repeat split. intros [_ ?]. discriminate.
    + intros [= <- <-]. right. repeat split. intros [? _]. discriminate.
Qed.

(** X20.  A tool test passes only after every check.  When the function
    that [runEnhancedToolTest] hands to the executor returns, the server
    listed the tool, the arguments were accepted by the tool's input
    schema (unless validation is switched off or the tool has none), the
    call resolved with a result whose [content] is an array, and every
    assertion held; what it returns reports the time of the call, one
    passed entry per assertion and the preview of the content. *)
Theorem tool_test_passes_only_after_every_check
  (peer : Peer) (toolTest : ToolTest) (st : Framework) (v : Value) (st' : Framework) :
  tool_test_fn peer toolTest st = (Return v, st') ->
  exists tools d tool items size d2,
    listTools peer = Resolves tools d /\
    Spec.named_tool toolTest tools = Some tool /\
    (validateSchemas (options st) = true ->
     forall schema, inputSchema tool = Some schema -> Spec.accepted toolTest schema) /\
    callTool peer (toolName toolTest) (default [] (tt_arguments toolTest))
    = Resolves (Some {| content := Some items; json_length := size |}) d2 /\
    Forall (Spec.holds {| content := Some items; json_length := size |})
      (default [] (assertions toolTest)) /\
    exists fields,
      v = VObj fields /\
      Json.assoc "tool" fields = Some (VStr (toolName toolTest)) /\
      Json.assoc "duration" fields = Some (VNum d2) /\
      Json.assoc "assertionResults" fields
      = Some (VList (Spec.passed_from 0 (length (default [] (assertions toolTest))))) /\
      Json.assoc "resultPreview" fields = Some (VStr (generateResultPreview items)).
Proof.
  unfold tool_test_fn, Spec.named_tool. intros H.
  apply bind_returns in H as (tools & st1 & H1 & H).
  apply await_returns in H1 as (d & Hl & ->).
  destruct (find _ tools) as [tool|] eqn:Ef; [|discriminate].
  apply bind_returns in H as (st0 & st2 & H2 & H). injection H2 as <- <-.
  apply bind_returns in H as ([] & st3 & H3 & H).
  apply validation_step_returns in H3 as [-> Hacc].
  apply bind_returns in H as (startTime & st4 & H4 & H). injection H4 as <- <-.
  apply bind_returns in H as (callResult & st5 & H5 & H).
  apply try_catch_rethrow_returns in H5.
  apply await_returns in H5 as (d2 & Hcall & ->).
  apply bind_returns in H as (t & st6 & H6 & H). injection H6 as <- <-.
  apply bind_returns in H as ([] & st7 & H7 & H).
  clear H7.
  destruct callResult as [[[items|] size]|]; try discriminate.
  apply bind_returns in H as (assertionResults & st8 & H8 & H).
  injection H as <- <-.
  pose proof (run_assertions_outcome (toolName toolTest)
                {| content := Some items; json_length := size |}
                (default [] (assertions toolTest)) 0 [] st7) as Hout.
  rewrite H8 in Hout.
  destruct (run_assertions_pass (toolName toolTest)
              {| content := Some items; json_length := size |}
              (default [] (assertions toolTest)) 0 [] st7 Hout) as (st9 & E9 & _).
  rewrite H8 in E9. injection E9 as -> _.
  exists tools, d, tool, items, size, d2.
  split; [exact Hl|]. split; [exact Ef|]. split; [exact Hacc|].
  split; [exact Hcall|]. split; [exact Hout|].
  eexists. split; [reflexivity|]. simpl.
  repeat split. do 2 f_equal. lia.
Qed.

(** X21.  A tool test names its failure.  When the function of a tool
    test throws, the error is the one [listTools] rejected with, or it
    carries a code that tells which step failed: TOOL_NOT_FOUND (the
    server does not list the tool; the details list the tools it has),
    SCHEMA_VALIDATION_FAILED (the arguments were not accepted; no call was
    made), TOOL_EXECUTION_FAILED (the call was rejected; the message and
    the details carry the server's message), INVALID_RESPONSE (the result
    is missing or its [content] is not an array) or ASSERTION_FAILED.  Two
    errors have no code, both TypeErrors: the one met when a test without
    arguments is validated against a schema that asks for something, and
    the one met when an assertion throws or rejects with [null] or
    [undefined], whose message the [catch] block cannot read. *)
Theorem tool_test_failures_are_coded
  (peer : Peer) (toolTest : ToolTest) (st : Framework) (e : JsError) (st' : Framework) :
  tool_test_fn peer toolTest st = (Throw e, st') ->
  (exists d, listTools peer = Rejects e d) \/
  exists tools d,
    listTools peer = Resolves tools d /\
    ((Spec.named_tool toolTest tools = None /\
      e = MCPTestError ("Tool " +:+ quoted (toolName toolTest) +:+ " not found")
            "TOOL_NOT_FOUND"
            [("availableTools", VList (map (fun t => VStr (tool_name t)) tools))])
     \/ exists tool,
         Spec.named_tool toolTest tools = Some tool /\
         ((exists schema fields,
              validateSchemas (options st) = true /\
              inputSchema tool = Some schema /\
              tt_arguments toolTest = Some fields /\
              valid (validateAgainstSchema fields schema) = false /\
              code e = Some "SCHEMA_VALIDATION_FAILED")
          \/ (exists schema,
                 validateSchemas (options st) = true /\
                 inputSchema tool = Some schema /\
                 tt_arguments toolTest = None /\
                 ~ Spec.accepted toolTest schema /\
                 err_name e = "TypeError" /\ code e = None)
          \/ (exists e0 d2,
                 callTool peer (toolName toolTest) (default [] (tt_arguments toolTest))
                 = Rejects e0 d2 /\
                 e = MCPTestError ("Tool execution failed: " +:+ message e0)
                       "TOOL_EXECUTION_FAILED"
                       [("tool", VStr (toolName toolTest));
                        ("arguments", VArgs (tt_arguments toolTest));
                        ("error", VStr (message e0))])
          \/ (exists callResult d2,
                 callTool peer (toolName toolTest) (default [] (tt_arguments toolTest))
                 = Resolves callResult d2 /\
                 (callResult ≫= content) = None /\
                 e = MCPTestError "Invalid tool response structure" "INVALID_RESPONSE"
                       [("response", call_result_value callResult)])
          \/ (exists r,
                 ~ Forall (Spec.holds r) (default [] (assertions toolTest)) /\
                 (code e = Some "ASSERTION_FAILED"
                  \/ exists (a : CallResult -> Callback unit) v d,
                       In a (default [] (assertions toolTest)) /\
                       a r = RejectsWith v d /\ Spec.unreadable v e)))).
Proof.
  unfold tool_test_fn, Spec.named_tool. intros H.
  apply bind_throws in H as [H|(tools & st1 & H1 & H)].
  { left. apply await_throws in H as (d & Hl & _). now exists d. }
  right. apply await_returns in H1 as (d & Hl & ->). exists tools, d.
  split; [exact Hl|].
  destruct (find _ tools) as [tool|] eqn:Ef.
  2:{ left. split; [reflexivity|]. now injection H as <- _. }
  right. exists tool. split; [reflexivity|].
  apply bind_throws in H as [H|(st0 & st2 & H2 & H)]; [discriminate|].
  injection H2 as <- <-.
  apply bind_throws in H as [H|([] & st3 & H3 & H)].
  { apply validation_step_throws in H
      as (schema & Hv & Hs & [(fields & Ha & Hval & Hc & _)|(Ha & Hn & Hc & Hna)]).
    - left. exists schema, fields. repeat split; assumption.
    - right. left. exists schema. split; [exact Hv|]. split; [exact Hs|].
      split; [exact Ha|]. split; [|split; assumption].
      unfold Spec.accepted. now rewrite Ha. }
  clear H3.
  apply bind_throws in H as [H|(startTime & st4 & H4 & H)]; [discriminate|].
  injection H4 as <- <-.
  apply bind_throws in H as [H|(callResult & st5 & H5 & H)].
  { apply try_catch_rethrow_throws in H as (e0 & H & ->).
    apply await_throws in H as (d2 & Hcall & _).
    right. right. left. now exists e0, d2. }
  apply try_catch_rethrow_returns in H5.
  apply await_returns in H5 as (d2 & Hcall & ->).
  apply bind_throws in H as [H|(t & st6 & H6 & H)]; [discriminate|].
  injection H6 as <- <-.
  apply bind_throws in H as [H|([] & st7 & H7 & H)].
  { exfalso. revert H. destruct (_ <? _); [|discriminate].
    unfold log, log_with. discriminate. }
  clear H7.
  destruct callResult as [[[items|] size]|].
  - right. right. right. right.
    apply bind_throws in H as [H|(l & st8 & H8 & H)]; [|discriminate].
    exists {| content := Some items; json_length := size |}.
    pose proof (run_assertions_outcome (toolName toolTest)
                  {| content := Some items; json_length := size |}
                  (default [] (assertions toolTest)) 0 [] st7) as Hout.
    rewrite H in Hout. split; [|exact Hout].
    intros Hall.
    destruct (run_assertions_pass (toolName toolTest)
                {| content := Some items; json_length := size |}
                (default [] (assertions toolTest)) 0 [] st7 Hall) as (st9 & E9 & _).
    congruence.
  - right. right. right. left. injection H as <- _.
    exists (Some {| content := None; json_length := size |}), d2.
    repeat split. exact Hcall.
  - right. right. right. left. injection H as <- _.
    exists None, d2. repeat split. exact Hcall.
Qed.

(** *** Protocol compliance *)



End ToolTestProperties.

(** ** The command line *)

Section CliProperties.

Import Advanced.

Lemma span_no_colon_name name rest :
  Spec.all_chars Spec.not_colon name = true ->
  Cli.span_no_colon (name +:+ String ":" rest) = (name, String ":" rest).
Proof.
  induction name as [|c name IH]; intros H.
  - reflexivity.
  - simpl in H. apply andb_true_iff in H as [Hc Hn].
    change (String c name +:+ String ":" rest)
      with (String c (name +:+ String ":" rest)).
    simpl. unfold Spec.not_colon in Hc.
    destruct (Ascii.eqb c ":"); [discriminate|]. now rewrite IH.
Qed.

Lemma span_no_colon_splits s :
  let '(k, r) := Cli.span_no_colon s in
  s = k +:+ r /\ Spec.all_chars Spec.not_colon k = true
  /\ match r with
     | EmptyString => True
     | String c _ => c = ":"%char
     end.
Proof.
  induction s as [|c s IH]; simpl.
  - repeat split.
  - destruct (Ascii.eqb_spec c ":") as [->|Hne].
    + repeat split.
    + destruct (Cli.span_no_colon s) as [k r]. destruct IH as (-> & Hk & Hr).
      split; [reflexivity|]. split; [|exact Hr]. simpl. rewrite Hk.
      unfold Spec.not_colon. destruct (Ascii.eqb_spec c ":"); [contradiction|].
      reflexivity.
Qed.

Lemma value_after_spaces_skips spaces value :
  Spec.all_chars Cli.is_space spaces = true ->
  Spec.starts_without_space value = true ->
  Cli.dot_plus value = true ->
  Cli.value_after_spaces (spaces +:+ value) = Some value.
Proof.
  intros Hs Hv Hd. induction spaces as [|c spaces IH].
  - destruct value as [|v value]; [discriminate|].
    change ("" +:+ String v value) with (String v value).
    simpl in Hv. unfold Cli.value_after_spaces.
    destruct (Cli.is_space v); [discriminate|]. fold Cli.value_after_spaces.
    now rewrite Hd.
  - simpl in Hs. apply andb_true_iff in Hs as [Hc Hr].
    change (String c spaces +:+ value) with (String c (spaces +:+ value)).
    simpl. rewrite Hc, (IH Hr). reflexivity.
Qed.

Lemma span_no_colon_whole s :
  Spec.all_chars Spec.not_colon s = true -> Cli.span_no_colon s = (s, "").
Proof.
  induction s as [|c s IH]; intros H; [reflexivity|].
  simpl in H. apply andb_true_iff in H as [Hc Hs]. simpl.
  unfold Spec.not_colon in Hc. destruct (Ascii.eqb c ":"); [discriminate|].
  now rewrite (IH Hs).
Qed.

(** The capture fails on a rest without line break only when nothing is
    left. *)
Lemma value_after_spaces_none s :
  Cli.value_after_spaces s = None -> Cli.no_line_terminator s = true -> s = "".
Proof.
  destruct s as [|c s]; [reflexivity|]. intros H Hn. exfalso. revert H.
  cbn [Cli.value_after_spaces Cli.dot_plus]. rewrite Hn.
  destruct (Cli.is_space c); [|discriminate].
  destruct (Cli.value_after_spaces s); discriminate.
Qed.

(** White space alone after the colon: the pattern gives the last
    character back to the capture. *)
Lemma value_after_spaces_gives_back spaces c :
  Spec.all_chars Cli.is_space spaces = true ->
  Cli.is_space c = true -> Cli.is_line_terminator c = false ->
  Cli.value_after_spaces (spaces +:+ String c "") = Some (String c "").
Proof.
  intros Hs Hc Hl. induction spaces as [|d spaces IH].
  - change ("" +:+ String c "") with (String c ""). simpl. now rewrite Hc, Hl.
  - simpl in Hs. apply andb_true_iff in Hs as [Hd Hr].
    change (String d spaces +:+ String c "")
      with (String d (spaces +:+ String c "")).
    cbn [Cli.value_after_spaces]. now rewrite Hd, (IH Hr).
Qed.

Lemma value_after_spaces_splits s v :
  Cli.value_after_spaces s = Some v ->
  exists spaces, s = spaces +:+ v /\ Spec.all_chars Cli.is_space spaces = true
                 /\ Cli.dot_plus v = true
                 /\ (Spec.starts_without_space v = true
                     \/ exists c, v = String c "" /\ Cli.is_space c = true).
Proof.
  revert v. induction s as [|c s IH]; intros v; [discriminate|].
  simpl. destruct (Cli.is_space c) eqn:Ec.
  - destruct (Cli.value_after_spaces s) as [w|] eqn:Ew.
    + intros [= <-]. destruct (IH w eq_refl) as (spaces & -> & Hs & Hd & Hv).
      exists (String c spaces). simpl. rewrite Ec, Hs. repeat split; assumption.
    + destruct (Cli.is_line_terminator c) eqn:El; simpl; [discriminate|].
      destruct (Cli.no_line_terminator s) eqn:En; [|discriminate].
      intros [= <-]. exists "". simpl. rewrite El, En.
      rewrite (value_after_spaces_none s Ew En).
      repeat split. right. now exists c.
  - destruct (Cli.is_line_terminator c) eqn:El; simpl; [discriminate|].
    destruct (Cli.no_line_terminator s) eqn:En; [|discriminate].
    intros [= <-]. exists "". simpl. rewrite El, En, Ec. repeat split. now left.
Qed.

Lemma filter_is_sublist {A} (f : A -> bool) (l : list A) :
  sublist (List.filter f l) l.
Proof.
  induction l as [|a l IH]; simpl; [constructor|].
  destruct (f a); [now apply sublist_skip | now apply sublist_cons].
Qed.

(** X23.  What the header pattern reads.  An argument made of a
    non-empty name without colon, a colon, any white space, and a value
    that does not start with white space and has no line break gives that
    name and that value (the value may hold further colons).  When nothing
    but white space follows the colon, the pattern gives the last
    character back: unless that character is a line break, it is the
    value.  Conversely, whenever the pattern matches, the argument is the
    name, a colon, white space and the value, with a non-empty colon-free
    name and a non-empty value without line break, which either does not
    start with white space or is a single white-space character.  An
    argument without colon, or with nothing before its first colon,
    matches nothing, and its header is dropped. *)
Theorem header_match_reads_name_and_value :
  (forall name spaces value : string,
      name <> "" ->
      Spec.all_chars Spec.not_colon name = true ->
      Spec.all_chars Cli.is_space spaces = true ->
      Spec.starts_without_space value = true ->
      Cli.dot_plus value = true ->
      Cli.header_match (name +:+ ":" +:+ spaces +:+ value) = Some (name, value)) /\
  (forall (name spaces : string) (c : ascii),
      name <> "" ->
      Spec.all_chars Spec.not_colon name = true ->
      Spec.all_chars Cli.is_space spaces = true ->
      Cli.is_space c = true ->
      Cli.is_line_terminator c = false ->
      Cli.header_match (name +:+ ":" +:+ spaces +:+ String c "")
      = Some (name, String c "")) /\
  (forall arg name value : string,
      Cli.header_match arg = Some (name, value) ->
      name <> "" /\
      Spec.all_chars Spec.not_colon name = true /\
      Cli.dot_plus value = true /\
      (Spec.starts_without_space value = true
       \/ exists c, value = String c "" /\ Cli.is_space c = true) /\
      exists spaces,
        Spec.all_chars Cli.is_space spaces = true /\
        arg = name +:+ ":" +:+ spaces +:+ value) /\
  (forall arg : string,
      Spec.all_chars Spec.not_colon arg = true -> Cli.header_match arg = None) /\
  (forall rest : string, Cli.header_match (":" +:+ rest) = None).
Proof.
  split; [|split; [|split; [|split]]].
  - intros name spaces value Hne Hn Hs Hv Hd. unfold Cli.header_match.
    change (":" +:+ spaces +:+ value) with (String ":" (spaces +:+ value)).
    rewrite (span_no_colon_name name _ Hn).
    destruct name as [|c name]; [contradiction|].
    now rewrite (value_after_spaces_skips spaces value Hs Hv Hd).
  - intros name spaces c Hne Hn Hs Hc Hl. unfold Cli.header_match.
    change (":" +:+ spaces +:+ String c "")
      with (String ":" (spaces +:+ String c "")).
    rewrite (span_no_colon_name name _ Hn).
    destruct name as [|d name]; [contradiction|].
    now rewrite (value_after_spaces_gives_back spaces c Hs Hc Hl).
  - intros arg name value. unfold Cli.header_match.
    pose proof (span_no_colon_splits arg) as Hsp.
    destruct (Cli.span_no_colon arg) as [k r].
    destruct Hsp as (-> & Hk & Hr).
    destruct k as [|c k]; [discriminate|].
    destruct r as [|x rest]; [discriminate|]. subst x.
    destruct (Cli.value_after_spaces rest) as [v|] eqn:Ev; [|discriminate].
    intros [= <- <-].
    destruct (value_after_spaces_splits rest v Ev)
      as (spaces & -> & Hs & Hd & Hv).
    split; [discriminate|]. split; [exact Hk|]. split; [exact Hd|].
    split; [exact Hv|].
    exists spaces. split; [exact Hs|]. reflexivity.
  - intros arg Ha. unfold Cli.header_match.
    rewrite (span_no_colon_whole arg Ha). now destruct arg.
  - intros rest. reflexivity.
Qed.

(** [Name: ], with one blank after the colon, sets the header [Name] to
    that blank. *)
Example header_match_blank_value :
  Cli.header_match "Name: " = Some ("Name", " ")
  /\ Cli.header_match "Name:" = None
  /\ Cli.header_match "Accept: text/event-stream"
     = Some ("Accept", "text/event-stream").
Proof. repeat split. Qed.

(** X24.  What the [stdio] command line hands to the server.  The
    server's arguments are those after the command, in their order,
    without the ones that start with "--" and without any that is equal to
    the command itself; everything else is passed on, so the value that
    follows a flag such as [--timeout] reaches the server as an argument
    of its own. *)
Theorem stdio_command_line_passes_option_values_on
  (command : string) (rest : list string) :
  let cfg := Cli.transport_config ("stdio" :: command :: rest) in
  type cfg = Some "stdio" /\
  Advanced.command cfg = Some command /\
  exists passed : list string,
    args cfg = Some passed /\
    sublist passed rest /\
    (forall arg, In arg passed
                 <-> In arg rest /\ Cli.startsWith arg "--" = false /\ arg <> command) /\
    (forall before flag value after,
        rest = (before ++ flag :: value :: after)%list ->
        Cli.startsWith value "--" = false -> value <> command ->
        In value passed).
Proof.
  simpl. split; [reflexivity|]. split; [reflexivity|].
  exists (Cli.stdio_args ("stdio" :: command :: rest)).
  split; [reflexivity|].
  assert (Hin : forall arg,
             In arg (Cli.stdio_args ("stdio" :: command :: rest))
             <-> In arg rest /\ Cli.startsWith arg "--" = false /\ arg <> command).
  { intros arg. unfold Cli.stdio_args. simpl. rewrite filter_In, andb_true_iff.
    rewrite !negb_true_iff, bool_decide_eq_false. split.
    - intros (H1 & H2 & H3). repeat split; try assumption. congruence.
    - intros (H1 & H2 & H3). repeat split; try assumption. congruence. }
  split; [|split; [exact Hin|]].
  - unfold Cli.stdio_args. apply filter_is_sublist.
  - intros before flag value after -> Hv Hne. apply Hin.
    split; [|split; assumption].
    apply in_or_app. right. right. now left.
Qed.

(** The tests of the command line hold no array at all. *)
Lemma cli_tests_are_objects cfg argv : Spec.entries_are_objects cfg (Cli.cli_tests argv).
Proof. repeat split; constructor. Qed.

Lemma cli_tests_throw_errors cfg argv :
  Spec.custom_tests_throw_errors cfg (Cli.cli_tests argv).
Proof. split; constructor. Qed.

(** X25.  The exit status of the command line tells whether the
    connection was made, not whether the tests passed.  For arguments
    that do not ask for the usage text and name a transport type other
    than [auto], on a fresh framework object, with a [close] and a save of
    the report that settle: when the connection is established the status
    is 0, however many tests failed; when it cannot be established the
    status is 1; and the run never ends when the connection never
    settles. *)
Theorem exit_status_tells_connection_only
  (peer : Peer) (m : Measured) (argv : list string) (save : Settle string)
  (st : Framework) :
  Cli.usage_requested argv = false -> argv !! 0%nat <> Some "auto" ->
  results st = [] -> close peer <> Never -> save <> Never ->
  match fst (connectToServer peer (Cli.transport_config argv) (Spec.suite_start st)) with
  | Return _ => fst (Cli.main peer m argv save st) = Return 0
  | Throw _ => fst (Cli.main peer m argv save st) = Return 1
  | Hangs => fst (Cli.main peer m argv save st) = Hangs
  end.
Proof.
  intros Husage _ Hfresh Hclose Hsave.
  set (cfg := Cli.transport_config argv). set (tests := Cli.cli_tests argv).
  pose proof (testServer_result peer m cfg tests st) as R.
  assert (Hexit : forall r st1 status,
             testServer peer m cfg tests st = (Return r, st1) ->
             s_status r = Some status ->
             fst (Cli.main peer m argv save st)
             = Return (if String.eqb status "failed" then 1 else 0)).
  { intros r st1 status E Hs. unfold Cli.main, try_catch, bind. rewrite Husage.
    fold cfg tests. rewrite E in *. destruct R as (r1 & _).
    destruct (proj2 (generateReport_outcome save st1) Hsave)
      as (report & st2 & -> & _ & _ & _ & e4 & _).
    simpl. unfold Cli.exit_status. rewrite e4, r1, Hfresh. simpl.
    unfold suite_has_status. rewrite Hs.
    destruct (String.eqb_spec status "failed") as [->|Hne].
    - rewrite bool_decide_eq_true_2 by reflexivity. reflexivity.
    - rewrite bool_decide_eq_false_2 by congruence. reflexivity. }
  destruct (connectToServer peer cfg (Spec.suite_start st)) as [[s|E|] st1] eqn:Ec;
    simpl.
  - destruct (testServer_passed peer m cfg tests st s st1 Ec
                (cli_tests_are_objects cfg argv)
                (cli_tests_throw_errors cfg argv) Hclose)
      as (r & st' & Et & Hs & _).
    exact (Hexit r st' "passed" Et Hs).
  - destruct (testServer_connection_failed peer m cfg tests st E st1 Ec)
      as (r & st' & Et & Hs & _).
    exact (Hexit r st' "failed" Et Hs).
  - unfold Cli.main, try_catch, bind. rewrite Husage. fold cfg tests.
    rewrite testServer_unfold, Ec. reflexivity.
Qed.

End CliProperties.

(** ** The earlier framework *)

Section LegacyProperties.

Import Advanced.

(** X26.  The earlier [sanitizeConfig] masks by "auth" only.  Every
    header whose name contains "auth" (letter case ignored) carries "***";
    every other header keeps its value, so a header named after a token
    or a key is not masked; a header named "__proto__" is lost, the
    sanitized headers never have it; and no header is added.  A top-level
    [auth] that is set becomes "***", and the other fields are
    unchanged. *)
Theorem legacy_sanitizeConfig_masks_auth_only (config : TransportConfig) :
  let s := Legacy.sanitizeConfig config in
  (forall h : gmap string string, headers config = Some h ->
     exists h' : gmap string string,
       headers s = Some h' /\
       (forall key, key <> "__proto__" -> h' !! key = None <-> h !! key = None) /\
       h' !! "__proto__" = None /\
       (forall key value, h !! key = Some value -> key <> "__proto__" ->
          (Js.contains_ci key "auth" -> h' !! key = Some "***") /\
          (~ Js.contains_ci key "auth" -> h' !! key = Some value))) /\
  (headers config = None -> headers s = None) /\
  (forall token, auth config = Some token -> token <> "" -> auth s = Some "***") /\
  (auth config = None \/ auth config = Some "" -> auth s = auth config) /\
  type s = type config /\ command s = command config /\
  args s = args config /\ env s = env config /\ url s = url config.
Proof.
  simpl. split; [|split; [|split; [|split; [|repeat split]]]].
  - intros h Hh. exists (Legacy.safe_headers h). rewrite Hh.
    split; [reflexivity|]. split; [|split].
    + intros key Hp. rewrite legacy_safe_headers_lookup.
      destruct (String.eqb_spec key "__proto__"); [contradiction|].
      destruct (h !! key); simpl; split; intros; congruence.
    + now rewrite legacy_safe_headers_lookup.
    + intros key value Hk Hp. rewrite legacy_safe_headers_lookup, Hk.
      destruct (String.eqb_spec key "__proto__"); [contradiction|]. simpl.
      split.
      * intros Hc. apply (includes_lower_contains_ci key "auth" eq_refl) in Hc.
        now rewrite Hc.
      * intros Hc.
        destruct (Js.includes (Js.toLowerCase key) "auth") eqn:E; [|reflexivity].
        exfalso. apply Hc, (includes_lower_contains_ci key "auth" eq_refl). exact E.
  - intros ->. reflexivity.
  - intros token -> Hne. simpl.
    destruct (String.eqb_spec token ""); [contradiction | reflexivity].
  - intros [-> | ->]; reflexivity.
Qed.

(** The earlier executor, by the way the race ends. *)
Lemma legacy_race_never_pends {A} (fn : TestFn A) st :
  fst (Legacy.race fn st) <> Pending.
Proof.
  unfold Legacy.race. destruct (fn st) as [[v|e|] st1]; simpl;
    try destruct (_ <=? _); simpl; discriminate.
Qed.

Lemma legacy_log_state msg lv st :
  Legacy.log msg lv st = (Return tt, snd (Legacy.log msg lv st)) /\
  now (snd (Legacy.log msg lv st)) = now st /\
  options (snd (Legacy.log msg lv st)) = options st.
Proof.
  unfold Legacy.log. destruct (_ || _); simpl; repeat split.
Qed.

Lemma bind_legacy_log {B} msg lv (k : unit -> M B) st :
  bind (Legacy.log msg lv) k st = k tt (snd (Legacy.log msg lv st)).
Proof. reflexivity. Qed.

Lemma legacy_executeTest_unfold name (fn : TestFn Value) st :
  Legacy.executeTest name fn st
  = match Legacy.race fn (Spec.legacy_test_start name st) with
    | (Returned v, st1) =>
        (Return {| t_name := name; t_startTime := now st; t_status := "passed";
                   t_result := Some v; t_error := None; t_errorCode := None;
                   t_errorDetails := None; t_duration := now st1 - now st |},
         snd (Legacy.log (check_mark +:+ " " +:+ name +:+ " ("
                          +:+ Js.show_Z (now st1 - now st) +:+ "ms)") Success st1))
    | (Threw (ErrorObject e), st1) =>
        (Return {| t_name := name; t_startTime := now st; t_status := "failed";
                   t_result := None; t_error := Some (message e);
                   t_errorCode := None; t_errorDetails := None;
                   t_duration := now st1 - now st |},
         snd (Legacy.log (ballot_cross +:+ " " +:+ name +:+ ": " +:+ message e)
                ErrorLevel st1))
    | (Threw (NoObject v), st1) =>
        (Throw (TypeError ("Cannot read properties of " +:+ nullish_text v
                           +:+ " (reading 'message')")), st1)
    | (Pending, st1) => (Hangs, st1)
    end.
Proof.
  unfold Legacy.executeTest, Spec.legacy_test_start.
  unfold bind at 1. unfold Date_now at 1.
  rewrite bind_legacy_log. unfold try_await.
  destruct (Legacy.race fn (snd (Legacy.log ("Running test: " +:+ name) Info st)))
    as [[v|[e|v]|] st1].
  - unfold bind at 1. unfold Date_now at 1. rewrite bind_legacy_log. reflexivity.
  - unfold bind at 1. unfold read_error, ret.
    unfold bind at 1. unfold Date_now at 1. rewrite bind_legacy_log. reflexivity.
  - reflexivity.
  - reflexivity.
Qed.

Lemma now_after_legacy_log msg lv st : now (snd (Legacy.log msg lv st)) = now st.
Proof. apply legacy_log_state. Qed.

(** X27.  The earlier [executeTest] returns a test result too, with the
    same exception.  With a timeout the timer honours: when the function
    throws, or rejects with, [null] or [undefined] within the timeout, the
    [catch] block fails on reading [error.message] and [executeTest]
    itself rejects with a TypeError.  In every other case it returns a
    result that carries the name of the test, the status passed or
    failed, the time that went by, and never an error code.  A function
    that does not complete within the timeout is recorded as failed with
    the message "Test timeout", which names neither the test nor the
    timeout; an Error object thrown in time is recorded with its message;
    a value returned in time is the result of a passed test. *)
Theorem legacy_executeTest_returns_unless_nullish
  (name : string) (fn : TestFn Value) (st : Framework) :
  let T := timeout (options st) in
  let st0 := Spec.legacy_test_start name st in
  Spec.timer_range T ->
  (forall v, Spec.completes fn st0 T -> fst (fn st0) = Threw (NoObject v) ->
     exists E st',
       Legacy.executeTest name fn st = (Throw E, st') /\ Spec.unreadable v E) /\
  ((forall v, fst (fn st0) <> Threw (NoObject v)) \/ Spec.overruns fn st0 T ->
   exists (t : TestResult) (st' : Framework),
     Legacy.executeTest name fn st = (Return t, st') /\
     t_name t = name /\
     t_duration t = now st' - now st /\
     (t_status t = "passed" \/ t_status t = "failed") /\
     t_errorCode t = None /\ t_errorDetails t = None /\
     (Spec.overruns fn st0 T ->
        t_status t = "failed" /\ t_error t = Some "Test timeout" /\ t_duration t = T) /\
     (forall e, Spec.completes fn st0 T -> fst (fn st0) = Threw (ErrorObject e) ->
        t_status t = "failed" /\ t_error t = Some (message e)) /\
     (forall v, Spec.completes fn st0 T -> fst (fn st0) = Returned v ->
        t_status t = "passed" /\ t_result t = Some v)).
Proof.
  intros T st0 _. rewrite legacy_executeTest_unfold. fold st0.
  destruct (legacy_log_state ("Running test: " +:+ name) Info st) as (_ & Hn0 & Ho0).
  fold (Spec.legacy_test_start name st) in Hn0, Ho0. fold st0 in Hn0, Ho0.
  unfold Legacy.race, Spec.overruns, Spec.completes. rewrite Ho0, Hn0. fold T.
  destruct (fn st0) as [[v|[e|v]|] st1] eqn:Ef; simpl fst; simpl snd;
    try destruct (Z.leb_spec (now st1 - now st) T) as [Hin|Hout].
  all: split;
    [ intros w [Hp Ht] Hw; try discriminate; try lia; try contradiction;
      try (injection Hw as <-; eexists _, _; split; [reflexivity|];
           repeat split)
    | intros Hcase;
      try (destruct Hcase as [Hcase|[Hcase|Hcase]];
           [exfalso; now apply (Hcase v) | discriminate | lia]);
      eexists _, _; (split; [reflexivity|]); simpl;
      destruct (verbose _ || _); simpl;
      repeat match goal with
        | |- _ /\ _ => split
        | |- _ = _ => first [reflexivity | lia]
        | |- _ \/ _ => first [now left | now right]
        | |- (_ \/ _) -> _ => intros [?|?]; try discriminate; try lia
        | |- forall _, _ /\ _ -> _ -> _ =>
            intros ? [? ?] ?; try discriminate; try lia; try contradiction
        | H : Returned _ = Returned _ |- _ => injection H as ->
        | H : Threw _ = Threw _ |- _ => injection H as ->
        end ].
Qed.

End LegacyProperties.

(** ** The further properties on concrete runs *)

Lemma calculateMetrics_bounds_witness :
  exists fast slow : Advanced.TestResult,
    Advanced.m_fastestTest (Advanced.calculateMetrics four_tests)
    = Some (Spec.brief fast) /\
    Advanced.m_slowestTest (Advanced.calculateMetrics four_tests)
    = Some (Spec.brief slow) /\
    Advanced.t_duration fast
    <= Advanced.m_avgTestDuration (Advanced.calculateMetrics four_tests)
    <= Advanced.t_duration slow.
Proof.
  destruct (calculateMetrics_bounds four_tests (recorded "b" "failed" 5))
    as (fast & slow & _ & _ & Hf & Hs & _ & Havg).
  - right. left. reflexivity.
  - exists fast, slow. split; [exact Hf|]. split; [exact Hs | exact Havg].
Defined.

(** Of the two fastest tests the first is reported, of the two slowest
    the last; the average of 12, 5, 12 and 5 is 8.5, rounded to 9. *)
Example metrics_of_four_tests :
  Advanced.m_fastestTest (Advanced.calculateMetrics four_tests) = Some ("b", 5) /\
  Advanced.m_slowestTest (Advanced.calculateMetrics four_tests) = Some ("c", 12) /\
  Advanced.m_avgTestDuration (Advanced.calculateMetrics four_tests) = 9 /\
  map Advanced.t_name (Advanced.sortedTests four_tests) = ["b"; "d"; "a"; "c"].
Proof. vm_compute. repeat split; reflexivity. Qed.

Lemma detectTransport_first_settlement_decides_witness :
  Detect.detectTransport example_URL_parse example_JSON_parse
    "http://localhost:3000/mcp"
    (events_406 ++ [Detect.EvEnd] ++ [Detect.EvTimeout])%list
  = Detect.Resolved
      (Detect.analyze example_JSON_parse response_406
         "Not Acceptable: Client must accept text/event-stream").
Proof.
  apply (proj2 (proj2 (proj2
           (detectTransport_first_settlement_decides
              example_URL_parse example_JSON_parse
              "http://localhost:3000/mcp" (events_406 ++ [Detect.EvEnd])%list
              _ eq_refl)))
           [Detect.EvTimeout]).
Defined.

(** The endpoint that speaks streamable HTTP only is confirmed as such
    even when "sse" was suspected. *)
Example verify_http_only :
  Verify.verifyTransport http_only "sse"
  = Verify.Confirmed {| Detect.transport := "streamableHttp";
                        Detect.confidence := 100;
                        Detect.reason := "Successfully connected and verified" |}.
Proof. reflexivity. Qed.

Lemma generateResultPreview_is_short_witness :
  (String.length (Advanced.generateResultPreview [long_item]) <= 103)%nat /\
  exists cut,
    Advanced.generateResultPreview [long_item] = cut +:+ "..." /\
    String.length cut = 100%nat.
Proof.
  destruct (generateResultPreview_is_short long_item [] eq_refl)
    as (Hlen & _ & Hcut).
  split; [exact Hlen|].
  destruct Hcut as (cut & E & Hl & _).
  - vm_compute. lia.
  - exists cut. split; assumption.
Defined.


(** The calls of that run, in order, and the time they take. *)
Example flaky_connection_trace :
  Advanced.io (snd (Advanced.connectToServer flaky_peer stdio_config framework_retry2))
  = [Advanced.IoConnect 0 (Advanced.StdioClientTransport "node" ["./server.js"] None);
     Advanced.IoSleep 500;
     Advanced.IoConnect 1 (Advanced.StdioClientTransport "node" ["./server.js"] None);
     Advanced.IoVerify 1] /\
  Advanced.now (snd (Advanced.connectToServer flaky_peer stdio_config framework_retry2))
  = 513.
Proof. vm_compute. split; reflexivity. Qed.


Lemma connectToServer_waits_for_ever_witness :
  fst (Advanced.testServer mute_peer silent_measured stdio_config no_tests
         framework_retry2) = Advanced.Hangs /\
  Advanced.results
    (snd (Advanced.testServer mute_peer silent_measured stdio_config no_tests
            framework_retry2)) = [].
Proof.
  destruct (connectToServer_waits_for_ever mute_peer silent_measured stdio_config
              no_tests framework_retry2 0)
    as (_ & Hh & Hr & _).
  - vm_compute. discriminate.
  - intros i Hi. lia.
  - split; reflexivity.
  - split; [exact Hh | exact Hr].
Defined.


Lemma options_are_fixed_at_construction_witness :
  Advanced.timeout (Advanced.options tools_only_run) = 30000 /\
  Advanced.retryDelay (Advanced.options tools_only_run) = 1000 /\
  Advanced.retryAttempts (Advanced.options tools_only_run) = 0 /\
  Advanced.outputDir (Advanced.options tools_only_run) = "./test-results".
Proof.
  destruct (options_are_fixed_at_construction no_user_options 0 tools_only_run)
    as (_ & _ & _ & _ & Ht & _ & Hd & _ & Ha & _ & Ho & _).
  - apply Spec.made_suite, Spec.made_new.
  - split; [apply Ht; now left|]. split; [apply Hd; now left|].
    split; [now apply Ha | apply Ho; now left].
Defined.

Lemma recorded_configurations_are_masked_witness :
  exists r h,
    Advanced.results secret_run = [r] /\
    Advanced.headers (Advanced.s_config r) = Some h /\
    h !! "Authorization" = Some Advanced.REDACTED /\
    h !! "Accept" = Some "application/json".
Proof.
  pose proof (testServer_result tools_only_peer silent_measured secret_config
                no_tests framework_default) as R.
  unfold secret_run.
  destruct (Advanced.testServer tools_only_peer silent_measured secret_config
              no_tests framework_default) as [[r|e|] st'] eqn:E.
  - destruct R as (Hres & _ & (_ & Hcfg & _) & _). simpl in Hres.
    assert (Hreach : Spec.reachable st').
    { replace st' with (snd (Advanced.testServer tools_only_peer silent_measured
                               secret_config no_tests framework_default))
        by (now rewrite E).
      apply Spec.reach_suite, Spec.reach_new. }
    assert (Hin : In r (Advanced.results st')) by (rewrite Hres; now left).
    destruct (recorded_configurations_are_masked st' r Hreach Hin) as [[Hm _] _].
    exists r, (Advanced.safe_headers secret_headers).
    split; [exact Hres|]. split; [now rewrite Hcfg|]. split.
    + destruct (Advanced.safe_headers secret_headers !! "Authorization")
        as [value|] eqn:Ev.
      * f_equal. apply (Hm (Advanced.safe_headers secret_headers)
                          ltac:(now rewrite Hcfg) "Authorization" value Ev).
        left. exists "", "Auth", "orization". split; reflexivity.
      * rewrite safe_headers_lookup in Ev. discriminate.
    + rewrite safe_headers_lookup. reflexivity.
  - contradiction.
  - exfalso. vm_compute in E. discriminate.
Defined.

Lemma recorded_metrics_add_up_witness :
  exists r,
    Advanced.results tools_only_run = [r] /\
    Advanced.m_totalTests (Advanced.s_metrics r) = 6%nat /\
    Advanced.m_totalTests (Advanced.s_metrics r)
    = (Advanced.m_passedTests (Advanced.s_metrics r)
       + Advanced.m_failedTests (Advanced.s_metrics r))%nat.
Proof.
  destruct (Advanced.results tools_only_run) as [|r [|]] eqn:E;
    try (exfalso; vm_compute in E; discriminate).
  exists r. split; [reflexivity|].
  destruct (recorded_metrics_add_up tools_only_run r) as (_ & Hn & Hsum & _).
  - apply Spec.reach_suite, Spec.reach_new.
  - rewrite E. now left.
  - split; [|exact Hsum]. rewrite Hn.
    assert (Hl : map (fun x => length (Advanced.s_tests x))
                   (Advanced.results tools_only_run) = [6%nat])
      by (vm_compute; reflexivity).
    rewrite E in Hl. now injection Hl.
Defined.

Lemma tool_test_passes_only_after_every_check_witness :
  exists v st',
    Advanced.tool_test_fn export_peer (export_test "json") framework_default
    = (Advanced.Return v, st') /\
    Spec.accepted (export_test "json") output_schema.
Proof.
  destruct (Advanced.tool_test_fn export_peer (export_test "json") framework_default)
    as [[v|e|] st'] eqn:E;
    try (exfalso; vm_compute in E; discriminate).
  exists v, st'. split; [reflexivity|].
  destruct (tool_test_passes_only_after_every_check _ _ _ _ _ E)
    as (tools & d & tool & items & size & d2 & Hl & Hn & Hacc & _).
  injection Hl as <- _. injection Hn as <-.
  apply Hacc; reflexivity.
Defined.

(** The same test with an output format outside the enumeration: the
    call is never made. *)
Lemma tool_test_failures_are_coded_witness :
  exists e st',
    Advanced.tool_test_fn export_peer (export_test "table") framework_default
    = (Advanced.Throw e, st') /\
    Advanced.code e = Some "SCHEMA_VALIDATION_FAILED".
Proof.
  destruct (Advanced.tool_test_fn export_peer (export_test "table") framework_default)
    as [[v|e|] st'] eqn:E;
    try (exfalso; vm_compute in E; discriminate).
  exists e, st'. split; [reflexivity|].
  destruct (tool_test_failures_are_coded _ _ _ _ _ E)
    as [(d & Hl)|(tools & d & Hl & Hcase)]; [discriminate|].
  injection Hl as <- _.
  destruct Hcase as [(Hn & _)|(tool & Hn & Hcase)]; [discriminate|].
  injection Hn as <-.
  destruct Hcase
    as [(schema & fields & _ & _ & _ & _ & Hc)
       |[(schema & _ & _ & Ha & _)
        |[(e0 & d2 & Hcall & _)
         |[(cr & d2 & Hcall & Hcont & _)|(r & _ & Hc)]]]].
  - exact Hc.
  - discriminate.
  - discriminate.
  - injection Hcall as <- _. discriminate.
  - exfalso. vm_compute in E. injection E as E _.
    destruct Hc as [Hc|(a & w & d3 & _ & _ & Hu & _)].
    + rewrite <- E in Hc. discriminate.
    + rewrite <- E in Hu. discriminate.
Defined.


(** The command line against the server without resources and prompts:
    two tests fail and the exit status is 0. *)
Lemma exit_status_tells_connection_only_witness :
  fst (Cli.main tools_only_peer silent_measured stdio_argv report_saved
         framework_default) = Advanced.Return 0.
Proof.
  exact (exit_status_tells_connection_only tools_only_peer silent_measured
           stdio_argv report_saved framework_default eq_refl
           ltac:(discriminate) eq_refl
           ltac:(discriminate) ltac:(discriminate)).
Defined.

Example command_line_configuration :
  Cli.transport_config
    ["stdio"; "node"; "./server.js"; "--timeout"; "5000"; "node"; "--verbose"]
  = {| Advanced.type := Some "stdio"; Advanced.command := Some "node";
       Advanced.args := Some ["./server.js"; "5000"]; Advanced.env := None;
       Advanced.url := None; Advanced.headers := None; Advanced.auth := None |}.
Proof. reflexivity. Qed.


(** A test function of the earlier framework that rejects with
    [undefined] after 5 ms: its [executeTest] rejects as well. *)
Lemma legacy_executeTest_returns_unless_nullish_witness :
  exists E st',
    Legacy.executeTest "Custom check"
      (Advanced.await_callback (Advanced.RejectsWith Advanced.JsUndefined 5))
      framework_default
    = (Advanced.Throw E, st')
    /\ Advanced.err_name E = "TypeError"
    /\ Advanced.message E
       = "Cannot read properties of undefined (reading 'message')".
Proof.
  destruct (proj1 (legacy_executeTest_returns_unless_nullish "Custom check"
                     (Advanced.await_callback
                        (Advanced.RejectsWith Advanced.JsUndefined 5))
                     framework_default
                     ltac:(vm_compute; split; discriminate))
              Advanced.JsUndefined)
    as (E & st' & H & Hn & Hm & _).
  - split; [discriminate | vm_compute; discriminate].
  - reflexivity.
  - exists E, st'. split; [exact H|]. split; [exact Hn | exact Hm].
Defined.

(** A custom test that rejects with [null]: its executor rejects, no test
    is recorded, and the suite fails on the TypeError, although the server
    answered every call. *)
Example null_rejection_fails_the_suite :
  match Advanced.testServer tools_only_peer silent_measured stdio_config
          null_rejecting_tests framework_default with
  | (Advanced.Return r, st') =>
      Advanced.s_status r = Some "failed"
      /\ Advanced.s_error r
         = Some {| Advanced.se_message :=
                     "Cannot read properties of null (reading 'message')";
                   Advanced.se_code := None; Advanced.se_details := None |}
      /\ Advanced.s_tests r = []
      /\ Spec.closes (Advanced.io st') = [0%nat]
  | _ => False
  end.
Proof. vm_compute. repeat split. Qed.
